(** * BRAIN: the activation-spreading engine and the motor generator

    A shallow embedding of the core of the conversation engine:

    - [engine/graph/node.py], [engine/graph/edge.py], [engine/graph/brain.py]
      (the graph model),
    - [engine/cognition/dynamics.py] (the dynamics loop),
    - [engine/cognition/goals.py] (goal arbitration),
    - [engine/language/motor.py] (the motor generator),
    - the part of [engine/__init__.py] that chains the three.

    Conventions of the embedding.

    - Python floats are modelled as exact rationals ([Q]); [min], [max] and
      [abs] follow the comparisons the Python builtins perform.  The
      properties stated over [Q] are those that the rounding of binary64
      arithmetic preserves; where rounding decides a property (the decay
      pass), the same expression is also given on binary64 floats
      ([decay_binary64]).
    - A Python [dict] is an association list in insertion order, with unique
      keys ([PyDict]); iteration order is the list order.
    - The graph is the one mutable object every component receives.  Graph
      methods and the functions that receive the graph are computations of
      the monad [M]: they take the graph, and return an outcome (a value or a
      raised exception) together with the graph they leave behind.
    - An [Edge] object is referenced from three containers ([edges],
      [_outgoing], [_incoming]).  The list [edges] is the store of the edge
      objects, in insertion order; the adjacency dictionaries hold
      references (positions in [edges]), so that an update of
      [contribution] is seen through every container.
    - [WordCandidate] objects are shared in the same way by [all_candidates],
      [candidates_considered] and [selected_words]: the list [all_candidates]
      is the store and the other two hold positions in it. *)

From Stdlib Require Import QArith Qabs String Ascii List ZArith Lia Lqa Bool.
From Stdlib Require Import Permutation Sorted.
From Corelib Require PrimFloat.
Import ListNotations.

Local Open Scope string_scope.
Local Open Scope list_scope.
Local Open Scope Q_scope.

(** ** Python numbers *)

(** [x < y] on floats. *)
Definition Qltb (x y : Q) : bool := negb (Qle_bool y x).
(** [x >= y] on floats. *)
Definition Qgeb (x y : Q) : bool := Qle_bool y x.

(** [min(a, b)]: the builtin keeps its first argument unless a later one is
    strictly smaller. *)
Definition py_min (a b : Q) : Q := if Qltb b a then b else a.
(** [max(a, b)]: the builtin keeps its first argument unless a later one is
    strictly greater. *)
Definition py_max (a b : Q) : Q := if Qltb a b then b else a.

(** ** Python containers *)

(** [l[-n:]] for [n > 0]: the last [n] entries, the whole list when it is
    shorter. *)
Definition last_n {A : Type} (n : nat) (l : list A) : list A :=
  skipn (length l - n) l.

(** [k in l] for a list (or a set built from a list) of strings. *)
Definition str_in (k : string) (l : list string) : bool :=
  existsb (String.eqb k) l.

Module PyDict.
Section WithValue.
Context {V : Type}.

Definition t : Type := list (string * V).

Definition empty : t := [].

  (** [d.get(k)] *)
Fixpoint get (d : t) (k : string) : option V :=
    match d with
    | [] => None
    | (k', v) :: r => if String.eqb k' k then Some v else get r k
    end.

  (** [k in d] *)
Definition contains (d : t) (k : string) : bool :=
    match get d k with Some _ => true | None => false end.

  (** [d[k] = v]: an existing key keeps its position, a new key goes last. *)
Fixpoint set (d : t) (k : string) (v : V) : t :=
    match d with
    | [] => [(k, v)]
    | (k', v') :: r =>
        if String.eqb k' k then (k', v) :: r else (k', v') :: set r k v
    end.

  (** [d.setdefault(k, v)] (the returned value is not used by the source). *)
Definition setdefault (d : t) (k : string) (v : V) : t :=
    if contains d k then d else set d k v.

Definition keys (d : t) : list string := map fst d.
Definition values (d : t) : list V := map snd d.
Definition items (d : t) : list (string * V) := d.
End WithValue.
Arguments t : clear implicits.
End PyDict.

(** ** Nodes ([engine/graph/node.py]) *)

(** [Node.VALID_TYPES]; the constructor rejects every other tag, so the tag is
    a closed enumeration. *)
Inductive NodeType : Type :=
  concept | topic | emotion | goal | motor | lexeme.

Definition NodeType_eqb (a b : NodeType) : bool :=
  match a, b with
  | concept, concept | topic, topic | emotion, emotion
  | goal, goal | motor, motor | lexeme, lexeme => true
  | _, _ => false
  end.

Definition VALID_TYPES : list NodeType :=
  [concept; topic; emotion; goal; motor; lexeme].

Module Node.
Record t : Type := mk {
    id : string;
    type : NodeType;
    label : string;
    activation : Q;
    baseline : Q;
    decay : Q;
    threshold : Q;
    metadata : PyDict.t string
  }.

  (** [Node(node_id, node_type, label, baseline, decay, threshold)] *)
Definition init (node_id : string) (node_type : NodeType) (label : string)
      (baseline decay threshold : Q) : t :=
    mk node_id node_type label baseline baseline decay threshold PyDict.empty.

Definition set_activation (n : t) (a : Q) : t :=
    mk (id n) (type n) (label n) a (baseline n) (decay n) (threshold n)
       (metadata n).

  (** [self.activation = self.baseline] *)
Definition reset (n : t) : t := set_activation n (baseline n).

  (** [self.activation = max(0.0, min(1.0, self.activation))] *)
Definition clamp (n : t) : t :=
    set_activation n (py_max 0 (py_min 1 (activation n))).

  (** [self.activation >= self.threshold] *)
Definition is_active (n : t) : bool := Qgeb (activation n) (threshold n).
End Node.

(** ** Edges ([engine/graph/edge.py]) *)

Inductive EdgeType : Type := excitatory | inhibitory | associative | causal.

Module Edge.
Record t : Type := mk {
    source_id : string;
    target_id : string;
    type : EdgeType;
    weight : Q;
    contribution : Q
  }.

  (** [Edge(source_id, target_id, edge_type, weight)]; [None] stands for the
      [ValueError] raised when the weight is outside [-1, 1]. *)
Definition init (source_id target_id : string) (edge_type : EdgeType)
      (weight : Q) : option t :=
    if Qle_bool (-1) weight && Qle_bool weight 1
    then Some (mk source_id target_id edge_type weight 0)
    else None.

Definition set_contribution (e : t) (c : Q) : t :=
    mk (source_id e) (target_id e) (type e) (weight e) c.
End Edge.

(** ** The graph ([engine/graph/brain.py]) *)

Record BrainGraph : Type := mkGraph {
  nodes : PyDict.t Node.t;
  edges : list Edge.t;
  _outgoing : PyDict.t (list nat);
  _incoming : PyDict.t (list nat)
}.

(** [BrainGraph()] *)
Definition empty_graph : BrainGraph :=
  mkGraph PyDict.empty [] PyDict.empty PyDict.empty.

Definition set_nodes (g : BrainGraph) (ns : PyDict.t Node.t) : BrainGraph :=
  mkGraph ns (edges g) (_outgoing g) (_incoming g).
Definition set_edges (g : BrainGraph) (es : list Edge.t) : BrainGraph :=
  mkGraph (nodes g) es (_outgoing g) (_incoming g).
Definition set_outgoing (g : BrainGraph) (d : PyDict.t (list nat)) : BrainGraph :=
  mkGraph (nodes g) (edges g) d (_incoming g).
Definition set_incoming (g : BrainGraph) (d : PyDict.t (list nat)) : BrainGraph :=
  mkGraph (nodes g) (edges g) (_outgoing g) d.

(** *** Exceptions and the graph monad *)

(** The two [ValueError]s of [add_node] and [add_edge], told apart by their
    message ("Duplicate node id: ...", "Edge source/target '...' not found in
    graph"), and the builtin errors of dictionary and list indexing. *)
Inductive Exc : Type :=
| DuplicateNodeId (node_id : string)
| EdgeSourceNotFound (source_id : string)
| EdgeTargetNotFound (target_id : string)
| KeyError (key : string)
| IndexError.

Inductive outcome (A : Type) : Type :=
| Ok (a : A)
| Raise (e : Exc).
Arguments Ok {A} a.
Arguments Raise {A} e.

Definition M (A : Type) : Type := BrainGraph -> outcome A * BrainGraph.

Definition ret {A : Type} (a : A) : M A := fun g => (Ok a, g).

Definition bind {A B : Type} (m : M A) (k : A -> M B) : M B :=
  fun g =>
    match m g with
    | (Ok a, g') => k a g'
    | (Raise e, g') => (Raise e, g')
    end.

Definition raise {A : Type} (e : Exc) : M A := fun g => (Raise e, g).

(** A read of the graph. *)
Definition gets {A : Type} (f : BrainGraph -> A) : M A :=
  fun g => (Ok (f g), g).

(** A write to the graph. *)
Definition modify (f : BrainGraph -> BrainGraph) : M unit :=
  fun g => (Ok tt, f g).

Declare Scope brain_scope.
Delimit Scope brain_scope with brain.
Notation "x <- m ;; k" := (bind m (fun x => k))
  (at level 61, m at next level, right associativity) : brain_scope.
Notation "m ;; k" := (bind m (fun _ => k))
  (at level 61, right associativity) : brain_scope.
Local Open Scope brain_scope.

(** [for x in l: body(x)], for a body that appends to a local list. *)
Fixpoint for_each {A B : Type} (l : list A) (body : A -> M (list B))
  : M (list B) :=
  match l with
  | [] => ret []
  | x :: r => ys <- body x ;; zs <- for_each r body ;; ret (ys ++ zs)
  end.

(** *** Graph methods *)

(** [self.nodes.get(node_id)] *)
Definition get_node (g : BrainGraph) (node_id : string) : option Node.t :=
  PyDict.get (nodes g) node_id.

(** [[n for n in self.nodes.values() if n.type == node_type]]; each node
    comes with the key under which the dictionary holds it, which is the
    handle through which the caller's updates reach the node. *)
Definition get_nodes_by_type (g : BrainGraph) (node_type : NodeType)
  : list (string * Node.t) :=
  filter (fun kn => NodeType_eqb (Node.type (snd kn)) node_type)
         (PyDict.items (nodes g)).

(** The edge objects behind a list of references. *)
Definition deref_edges (g : BrainGraph) (refs : list nat) : list Edge.t :=
  flat_map (fun i => match nth_error (edges g) i with
                     | Some e => [e]
                     | None => []
                     end) refs.

(** [self._outgoing.get(node_id, [])] *)
Definition get_outgoing (g : BrainGraph) (node_id : string) : list Edge.t :=
  match PyDict.get (_outgoing g) node_id with
  | Some refs => deref_edges g refs
  | None => []
  end.

(** [self._incoming.get(node_id, [])] *)
Definition get_incoming (g : BrainGraph) (node_id : string) : list Edge.t :=
  match PyDict.get (_incoming g) node_id with
  | Some refs => deref_edges g refs
  | None => []
  end.

(** [add_node] *)
Definition add_node (node : Node.t) : M unit :=
  present <- gets (fun g => PyDict.contains (nodes g) (Node.id node)) ;;
  if present then raise (DuplicateNodeId (Node.id node))
  else
    modify (fun g => set_nodes g (PyDict.set (nodes g) (Node.id node) node)) ;;
    modify (fun g => set_outgoing g
                       (PyDict.setdefault (_outgoing g) (Node.id node) [])) ;;
    modify (fun g => set_incoming g
                       (PyDict.setdefault (_incoming g) (Node.id node) [])).

(** [d[k].append(r)] on an adjacency dictionary; the subscript raises
    [KeyError] on a missing key. *)
Definition adj_append (d : PyDict.t (list nat)) (k : string) (r : nat)
  : option (PyDict.t (list nat)) :=
  match PyDict.get d k with
  | Some refs => Some (PyDict.set d k (refs ++ [r]))
  | None => None
  end.

(** [add_edge] *)
Definition add_edge (edge : Edge.t) : M unit :=
  src_ok <- gets (fun g => PyDict.contains (nodes g) (Edge.source_id edge)) ;;
  if negb src_ok then raise (EdgeSourceNotFound (Edge.source_id edge))
  else
    tgt_ok <- gets (fun g => PyDict.contains (nodes g) (Edge.target_id edge)) ;;
    if negb tgt_ok then raise (EdgeTargetNotFound (Edge.target_id edge))
    else
      ref <- gets (fun g => length (edges g)) ;;
      modify (fun g => set_edges g (edges g ++ [edge])) ;;
      out <- gets (fun g => adj_append (_outgoing g) (Edge.source_id edge) ref) ;;
      match out with
      | None => raise (KeyError (Edge.source_id edge))
      | Some d =>
          modify (fun g => set_outgoing g d) ;;
          inc <- gets (fun g => adj_append (_incoming g) (Edge.target_id edge) ref) ;;
          match inc with
          | None => raise (KeyError (Edge.target_id edge))
          | Some d' => modify (fun g => set_incoming g d')
          end
      end.

(** [reset_activations] *)
Definition reset_activations (g : BrainGraph) : BrainGraph :=
  set_nodes g (map (fun kn => (fst kn, Node.reset (snd kn))) (nodes g)).

(** [reset_contributions] *)
Definition reset_contributions (g : BrainGraph) : BrainGraph :=
  set_edges g (map (fun e => Edge.set_contribution e 0) (edges g)).

(** ** Sorting *)

(** [l.sort(key=..., reverse=True)] and [sorted(l, key=..., reverse=True)]:
    the builtin sort is stable, also with [reverse=True], and compares keys
    with [<] only.  [lt x y] is [key(x) < key(y)].  The model is the stable
    insertion sort into descending order. *)
Fixpoint insert_desc {A : Type} (lt : A -> A -> bool) (x : A) (l : list A)
  : list A :=
  match l with
  | [] => [x]
  | y :: r => if lt x y then y :: insert_desc lt x r else x :: y :: r
  end.

Definition sort_reverse {A : Type} (lt : A -> A -> bool) (l : list A)
  : list A :=
  fold_right (insert_desc lt) [] l.

(** The comparison [key(x) < key(y)] for a float-valued key. *)
Definition by_key {A : Type} (key : A -> Q) (x y : A) : bool :=
  Qltb (key x) (key y).

(** [l[i] = x] for [i] in range. *)
Fixpoint list_set {A : Type} (l : list A) (i : nat) (x : A) : list A :=
  match l, i with
  | [], _ => []
  | _ :: r, O => x :: r
  | y :: r, S i' => y :: list_set r i' x
  end.

(** ** The dynamics loop ([engine/cognition/dynamics.py]) *)

Record DynamicsConfig : Type := mkConfig {
  steps : Z;
  inhibition_strength : Q;
  competition_within_type : bool
}.

(** [DynamicsConfig()] *)
Definition default_config : DynamicsConfig := mkConfig 20 0.15 true.

(** [{'curiosity': 0.5, 'calm': 0.5, 'urgency': 0.3}] *)
Definition default_modulators : PyDict.t Q :=
  [("curiosity", 0.5); ("calm", 0.5); ("urgency", 0.3)].

Record StepRecord : Type := mkStepRecord {
  step_num : Z;
  top_active : list (string * Q)
}.

Record DynamicsResult : Type := mkDynamicsResult {
  result_steps : list StepRecord;
  final_activations : PyDict.t Q;
  top_contributing_edges : list (string * string * EdgeType * Q)
}.

(** An assignment to [node.activation] for the node held under [key]; the
    new value is computed from the node as it is at that moment. *)
Definition update_node (g : BrainGraph) (key : string) (f : Node.t -> Q)
  : BrainGraph :=
  match get_node g key with
  | Some n => set_nodes g (PyDict.set (nodes g) key (Node.set_activation n (f n)))
  | None => g
  end.

(** Injection of the initial activations:
    [node.activation = min(1.0, node.activation + value)] for every known
    [node_id] of the mapping, in its iteration order. *)
Definition inject_one (g : BrainGraph) (item : string * Q) : BrainGraph :=
  update_node g (fst item)
    (fun node => py_min 1 (Node.activation node + snd item)).

Definition inject (initial_activations : PyDict.t Q) (g : BrainGraph)
  : BrainGraph :=
  fold_left inject_one (PyDict.items initial_activations) g.

(** a) [node.activation += (node.baseline - node.activation) * node.decay] *)
Definition decay_node (node : Node.t) : Node.t :=
  Node.set_activation node
    (Node.activation node
     + (Node.baseline node - Node.activation node) * Node.decay node).

Definition decay_pass (g : BrainGraph) : BrainGraph :=
  set_nodes g (map (fun kn => (fst kn, decay_node (snd kn))) (nodes g)).

(** b) The value an edge spreads, after the transform of its type. *)
Definition spread_of (curiosity_mod src_activation : Q) (edge : Edge.t) : Q :=
  let spread := src_activation * Edge.weight edge in
  match Edge.type edge with
  | inhibitory => - Qabs spread
  | associative => spread * (0.5 + curiosity_mod * 0.5)
  | causal => spread * 0.8
  | excitatory => spread
  end.

(** [deltas.get(k, 0.0)] *)
Definition delta_get (deltas : PyDict.t Q) (k : string) : Q :=
  match PyDict.get deltas k with Some d => d | None => 0 end.

(** One iteration of [for edge in graph.edges]; [i] is the position of the
    edge object in the list.  The source node is read from the graph as it is
    when the iteration runs. *)
Definition spread_edge (curiosity_mod : Q)
    (st : BrainGraph * PyDict.t Q) (i : nat) : BrainGraph * PyDict.t Q :=
  let (g, deltas) := st in
  match nth_error (edges g) i with
  | None => st
  | Some edge =>
      match get_node g (Edge.source_id edge) with
      | Some src_node =>
          if Node.is_active src_node then
            let spread := spread_of curiosity_mod (Node.activation src_node) edge in
            let deltas' :=
              PyDict.set deltas (Edge.target_id edge)
                (delta_get deltas (Edge.target_id edge) + spread) in
            let edge' :=
              Edge.set_contribution edge (Edge.contribution edge + Qabs spread) in
            (set_edges g (list_set (edges g) i edge'), deltas')
          else st
      | None => st
      end
  end.

Definition spread_loop (curiosity_mod : Q) (g : BrainGraph)
  : BrainGraph * PyDict.t Q :=
  fold_left (spread_edge curiosity_mod) (seq 0 (length (edges g)))
            (g, PyDict.empty).

(** [for node_id, delta in deltas.items(): ... node.activation += delta] *)
Definition apply_delta (g : BrainGraph) (item : string * Q) : BrainGraph :=
  update_node g (fst item) (fun node => Node.activation node + snd item).

Definition apply_deltas (deltas : PyDict.t Q) (g : BrainGraph) : BrainGraph :=
  fold_left apply_delta (PyDict.items deltas) g.

Definition spread_pass (curiosity_mod : Q) (g : BrainGraph) : BrainGraph :=
  let (g', deltas) := spread_loop curiosity_mod g in
  apply_deltas deltas g'.

(** c) [suppression = config.inhibition_strength * (i / len(active_nodes))] *)
Definition suppression (config : DynamicsConfig) (i n_active : nat) : Q :=
  inhibition_strength config
  * (inject_Z (Z.of_nat i) / inject_Z (Z.of_nat n_active)).

(** [for i, node in enumerate(active_nodes[1:], 1): node.activation -= suppression] *)
Definition suppress_one (config : DynamicsConfig) (n_active : nat)
    (g : BrainGraph) (item : nat * (string * Node.t)) : BrainGraph :=
  update_node g (fst (snd item))
    (fun node => Node.activation node - suppression config (fst item) n_active).

(** The body of [for node_type in Node.VALID_TYPES]. *)
Definition compete_type (config : DynamicsConfig) (g : BrainGraph)
    (node_type : NodeType) : BrainGraph :=
  let type_nodes := get_nodes_by_type g node_type in
  if (length type_nodes <=? 1)%nat then g
  else
    let active_nodes := filter (fun kn => Node.is_active (snd kn)) type_nodes in
    if (length active_nodes <=? 1)%nat then g
    else
      let active_nodes :=
        sort_reverse (by_key (fun kn => Node.activation (snd kn))) active_nodes in
      fold_left (suppress_one config (length active_nodes))
        (combine (seq 1 (length (tl active_nodes))) (tl active_nodes)) g.

Definition competition_pass (config : DynamicsConfig) (g : BrainGraph)
  : BrainGraph :=
  if competition_within_type config
  then fold_left (compete_type config) VALID_TYPES g
  else g.

(** d) [node.clamp()] for every node. *)
Definition clamp_pass (g : BrainGraph) : BrainGraph :=
  set_nodes g (map (fun kn => (fst kn, Node.clamp (snd kn))) (nodes g)).

(** The four passes of one step, in order. *)
Definition dynamics_step (config : DynamicsConfig) (curiosity_mod : Q)
    (g : BrainGraph) : BrainGraph :=
  clamp_pass (competition_pass config (spread_pass curiosity_mod (decay_pass g))).

(** [record.top_active]: the firing nodes, by activation descending, the
    first eight. *)
Definition record_top (g : BrainGraph) : list (string * Q) :=
  let active :=
    map (fun n => (Node.id n, Node.activation n))
        (filter Node.is_active (PyDict.values (nodes g))) in
  firstn 8 (sort_reverse (by_key snd) active).

(** [for step in range(config.steps)], from step number [step], with [n]
    iterations left. *)
Fixpoint simulate (config : DynamicsConfig) (curiosity_mod : Q) (n : nat)
    (step : Z) (g : BrainGraph) : list StepRecord * BrainGraph :=
  match n with
  | O => ([], g)
  | S n' =>
      let g1 := dynamics_step config curiosity_mod g in
      let record := mkStepRecord step (record_top g1) in
      let (records, g2) := simulate config curiosity_mod n' (step + 1) g1 in
      (record :: records, g2)
  end.

(** [modulators.get('curiosity', 0.5)] *)
Definition curiosity_of (modulators : PyDict.t Q) : Q :=
  match PyDict.get modulators "curiosity" with Some c => c | None => 0.5 end.

Definition collect_final_activations (g : BrainGraph) : PyDict.t Q :=
  map (fun kn => (fst kn, Node.activation (snd kn))) (PyDict.items (nodes g)).

Definition collect_top_edges (g : BrainGraph)
  : list (string * string * EdgeType * Q) :=
  map (fun e => (Edge.source_id e, Edge.target_id e, Edge.type e,
                 Edge.contribution e))
      (firstn 10 (sort_reverse (by_key Edge.contribution) (edges g))).

(** [run_dynamics(graph, initial_activations, config, modulators)]; [None]
    for an omitted [config] or [modulators]. *)
Definition run_dynamics (initial_activations : PyDict.t Q)
    (config : option DynamicsConfig) (modulators : option (PyDict.t Q))
  : M DynamicsResult :=
  let config := match config with Some c => c | None => default_config end in
  let modulators :=
    match modulators with Some m => m | None => default_modulators end in
  modify reset_activations ;;
  modify reset_contributions ;;
  modify (inject initial_activations) ;;
  let curiosity_mod := curiosity_of modulators in
  records <- (fun g =>
                let (records, g') :=
                  simulate config curiosity_mod (Z.to_nat (steps config)) 0 g in
                (Ok records, g')) ;;
  final <- gets collect_final_activations ;;
  top <- gets collect_top_edges ;;
  ret (mkDynamicsResult records final top).

(** ** Goal selection ([engine/cognition/goals.py]) *)

Record GoalResult : Type := mkGoalResult {
  candidates : list (string * Q);
  selected_goal : option string;
  selected_activation : Q
}.

(** [select_goal(graph)].  [candidates[0]] on an empty list raises
    [IndexError]. *)
Definition select_goal : M GoalResult :=
  goal_nodes <- gets (fun g => get_nodes_by_type g goal) ;;
  match goal_nodes with
  | [] => ret (mkGoalResult [] None 0)
  | _ :: _ =>
      let candidates :=
        sort_reverse (by_key snd)
          (map (fun kn => (Node.id (snd kn), Node.activation (snd kn)))
               goal_nodes) in
      match candidates with
      | c :: _ =>
          if Qltb 0 (snd c)
          then ret (mkGoalResult candidates (Some (fst c)) (snd c))
          else ret (mkGoalResult candidates (Some (fst c)) (snd c))
      | [] => raise IndexError
      end
  end.

(** ** The vocabulary ([engine/loaders/lexicon_loader.py], the part the motor
    generator calls) *)

Record LexiconEntry : Type := mkEntry {
  entry_id : string;
  text : string;
  concept_ids : list string;
  pos : string
}.

Record Lexicon : Type := mkLexicon {
  words : PyDict.t LexiconEntry;
  phrases : PyDict.t LexiconEntry;
  concept_to_words : PyDict.t (list string)
}.

Definition lookup_word (lexicon : Lexicon) (word : string) : option LexiconEntry :=
  PyDict.get (words lexicon) word.

Definition lookup_phrase (lexicon : Lexicon) (phrase : string)
  : option LexiconEntry :=
  PyDict.get (phrases lexicon) phrase.

Definition get_words_for_concept (lexicon : Lexicon) (concept_id : string)
  : list string :=
  match PyDict.get (concept_to_words lexicon) concept_id with
  | Some ws => ws
  | None => []
  end.

(** [lexicon.lookup_word(w) or lexicon.lookup_phrase(w)]; an entry object is
    always truthy. *)
Definition lookup_entry (lexicon : Lexicon) (word_text : string)
  : option LexiconEntry :=
  match lookup_word lexicon word_text with
  | Some e => Some e
  | None => lookup_phrase lexicon word_text
  end.

(** ** The motor generator ([engine/language/motor.py]) *)

Record WordCandidate : Type := mkCandidate {
  word : string;
  concept_id : string;
  cand_activation : Q;
  cand_pos : string;
  score : Q;
  reason : string
}.

Definition set_score (c : WordCandidate) (s : Q) : WordCandidate :=
  mkCandidate (word c) (concept_id c) (cand_activation c) (cand_pos c) s
              (reason c).

Record MotorResult : Type := mkMotorResult {
  candidates_considered : list WordCandidate;
  selected_words : list WordCandidate;
  final_text : string
}.

Definition POS_TRANSITIONS : PyDict.t (list string) :=
  [ ("START", ["noun"; "adj"; "det"; "pronoun"; "interjection"; "verb"; "adverb"]);
    ("det", ["noun"; "adj"]);
    ("adj", ["noun"; "adj"; "conjunction"]);
    ("noun", ["verb"; "conjunction"; "prep"; "noun"; "adj"; "END"]);
    ("pronoun", ["verb"; "adverb"]);
    ("verb", ["noun"; "adj"; "det"; "adverb"; "prep"; "pronoun"; "END"]);
    ("adverb", ["verb"; "adj"; "adverb"; "END"]);
    ("prep", ["noun"; "det"; "adj"; "pronoun"]);
    ("conjunction", ["noun"; "det"; "adj"; "verb"; "pronoun"]);
    ("interjection", ["noun"; "det"; "pronoun"; "verb"; "END"]) ].

Definition GOAL_CONCEPT_BOOST : PyDict.t Q :=
  [ ("goal_inform", 0.3); ("goal_greet", 0.4); ("goal_describe", 0.3);
    ("goal_farewell", 0.4); ("goal_clarify", 0.2) ].

(** [l[k]] with Python's negative indices; [None] is [IndexError]. *)
Definition py_index {A : Type} (l : list A) (k : Z) : option A :=
  if (0 <=? k)%Z then nth_error l (Z.to_nat k)
  else if (- Z.of_nat (length l) <=? k)%Z
       then nth_error l (Z.to_nat (Z.of_nat (length l) + k))
       else None.

(** The comparison of the sort key [(x[2], x[1])]: tuples compare at their
    first differing component. *)
Definition priority_lt (x y : string * Q * Q) : bool :=
  if negb (Qeq_bool (snd x) (snd y)) then Qltb (snd x) (snd y)
  else Qltb (snd (fst x)) (snd (fst y)).

(** Step 1: the firing concept, topic and emotion nodes, as
    [(node.id, node.activation, priority)], sorted. *)
Definition gather_active_concepts (g : BrainGraph) : list (string * Q * Q) :=
  let active_concepts :=
    flat_map (fun node =>
                if Node.is_active node
                   && match Node.type node with
                      | concept | topic | emotion => true
                      | _ => false
                      end
                then
                  let priority :=
                    match Node.type node with concept => 1.0 | _ => 0.5 end in
                  [(Node.id node, Node.activation node, priority)]
                else [])
             (PyDict.values (nodes g)) in
  sort_reverse priority_lt active_concepts.

(** One eligible candidate pool of step 3: candidates come with their
    position in [all_candidates]. *)
Definition indexed {A : Type} (l : list A) : list (nat * A) :=
  combine (seq 0 (length l)) l.

(** [for c in all_candidates: if c.concept_id == chosen.concept_id: c.score *= 0.5] *)
Definition halve_same_concept (chosen_concept : string)
    (all_candidates : list WordCandidate) : list WordCandidate :=
  map (fun c => if String.eqb (concept_id c) chosen_concept
                then set_score c (score c * 0.5) else c)
      all_candidates.

Section Motor.
  (** The seeded random source ([random.Random]) and the float formatting of
      f-strings belong to the Python runtime; they are parameters. *)
Variable RNG : Type.
  (** [rng.randint(a, b)]: the draw and the generator after it. *)
Variable randint : RNG -> Z -> Z -> Z * RNG.
  (** [f"{x:.2f}"] *)
Variable format_2f : Q -> string.

  (** The body of [for word_text in words] for a concept, topic or emotion
      node. *)
Definition concept_candidate (lexicon : Lexicon) (goal_id : string)
      (recent_set : list string) (concept_id : string) (concept_act : Q)
      (word_text : string) : M (list WordCandidate) :=
    match lookup_entry lexicon word_text with
    | None => ret []
    | Some entry =>
        let base_score := concept_act * 0.6 in
        goal_node <- gets (fun g => get_node g goal_id) ;;
        base_score <-
          match goal_node with
          | Some _ =>
              let goal_boost :=
                match PyDict.get GOAL_CONCEPT_BOOST goal_id with
                | Some b => b
                | None => 0.1
                end in
              outgoing <- gets (fun g => get_outgoing g goal_id) ;;
              match find (fun edge => String.eqb (Edge.target_id edge) concept_id)
                         outgoing with
              | Some edge => ret (base_score + goal_boost * Qabs (Edge.weight edge))
              | None => ret base_score
              end
          | None => ret base_score
          end ;;
        let base_score :=
          if str_in word_text recent_set then base_score * 0.3 else base_score in
        ret [mkCandidate word_text concept_id concept_act (pos entry) base_score
               ("concept=" ++ concept_id ++ " act=" ++ format_2f concept_act
                ++ " goal_match=" ++ goal_id)]
    end.

  (** Step 2, first loop: [for concept_id, concept_act, _ in active_concepts[:25]] *)
Definition concept_candidates (lexicon : Lexicon) (goal_id : string)
      (recent_set : list string) (active_concepts : list (string * Q * Q))
    : M (list WordCandidate) :=
    for_each (firstn 25 active_concepts)
      (fun item =>
         for_each (get_words_for_concept lexicon (fst (fst item)))
           (concept_candidate lexicon goal_id recent_set
              (fst (fst item)) (snd (fst item)))).

  (** Step 2, second loop: the firing motor and lexeme nodes. *)
Definition motor_candidate (lexicon : Lexicon) (recent_set : list string)
      (node : Node.t) (word_text : string) : list WordCandidate :=
    match lookup_entry lexicon word_text with
    | None => []
    | Some entry =>
        let s := Node.activation node * 0.5 in
        [mkCandidate word_text (Node.id node) (Node.activation node) (pos entry)
           (if str_in word_text recent_set then s * 0.3 else s)
           ("motor/lexeme node=" ++ Node.id node)]
    end.

Definition motor_candidates (lexicon : Lexicon) (recent_set : list string)
      (g : BrainGraph) : list WordCandidate :=
    flat_map (fun node =>
                if Node.is_active node
                   && match Node.type node with
                      | motor | lexeme => true
                      | _ => false
                      end
                then flat_map (motor_candidate lexicon recent_set node)
                       (get_words_for_concept lexicon (Node.id node))
                else [])
             (PyDict.values (nodes g)).

  (** Step 2: [all_candidates] after both loops. *)
Definition build_candidates (lexicon : Lexicon) (goal_id : string)
    (recent_set : list string) (active_concepts : list (string * Q * Q))
  : M (list WordCandidate) :=
  from_concepts <-
    concept_candidates lexicon goal_id recent_set active_concepts ;;
  from_motor <- gets (motor_candidates lexicon recent_set) ;;
  ret (from_concepts ++ from_motor).

(** The local state of step 3. *)
Record Assembly : Type := mkAssembly {
    current_pos : string;
    selected : list nat;
    used_words : list string;
    all_candidates : list WordCandidate;
    rng : RNG
  }.

  (** One iteration of [for _ in range(max_words)]; the boolean tells whether
      the loop goes on. *)
Definition assemble_step (max_words : Z) (st : Assembly)
    : outcome (bool * Assembly) :=
    let allowed_pos :=
      match PyDict.get POS_TRANSITIONS (current_pos st) with
      | Some l => l
      | None => ["noun"; "verb"; "adj"]
      end in
    let unused c := negb (str_in (word (snd c)) (used_words st)) in
    let eligible :=
      filter (fun c => str_in (cand_pos (snd c)) allowed_pos && unused c)
             (indexed (all_candidates st)) in
    let eligible :=
      match eligible with
      | [] => filter unused (indexed (all_candidates st))
      | _ :: _ => eligible
      end in
    match sort_reverse (by_key (fun c => score (snd c))) eligible with
    | [] => Ok (false, st)
    | (top :: _) as eligible =>
        let top_score := score (snd top) in
        let top_tier :=
          filter (fun c => Qgeb (score (snd c)) (top_score * 0.85)) eligible in
        let pick :=
          if (1 <? length top_tier)%nat then
            let (k, rng') :=
              randint (rng st) 0 (Z.of_nat (length top_tier) - 1) in
            (py_index top_tier k, rng')
          else (py_index top_tier 0, rng st) in
        match fst pick with
        | None => Raise IndexError
        | Some chosen =>
            let selected' := selected st ++ [fst chosen] in
            let used' := used_words st ++ [word (snd chosen)] in
            let pos' := cand_pos (snd chosen) in
            if String.eqb pos' "END"
               || (max_words <=? Z.of_nat (length selected'))%Z
            then Ok (false,
                     mkAssembly pos' selected' used' (all_candidates st) (snd pick))
            else Ok (true,
                     mkAssembly pos' selected' used'
                       (halve_same_concept (concept_id (snd chosen))
                          (all_candidates st))
                       (snd pick))
        end
    end.

Fixpoint assemble (n : nat) (max_words : Z) (st : Assembly)
    : outcome Assembly :=
    match n with
    | O => Ok st
    | S n' =>
        match assemble_step max_words st with
        | Raise e => Raise e
        | Ok (false, st') => Ok st'
        | Ok (true, st') => assemble n' max_words st'
        end
    end.

  (** The objects behind a list of references into [store]. *)
Definition deref_candidates (store : list WordCandidate) (refs : list nat)
    : list WordCandidate :=
    flat_map (fun i => match nth_error store i with
                       | Some c => [c]
                       | None => []
                       end) refs.

  (** [generate_response(graph, lexicon, goal_id, rng, recent_words, max_words)];
      the result comes with the random source as the call leaves it. *)
Definition generate_response (lexicon : Lexicon) (goal_id : string)
      (rng0 : RNG) (recent_words : option (list string)) (max_words : Z)
    : M (MotorResult * RNG) :=
    let recent_words :=
      match recent_words with Some l => l | None => [] end in
    let recent_set := last_n 20 recent_words in
    active_concepts <- gets gather_active_concepts ;;
    match active_concepts with
    | [] => ret (mkMotorResult [] [] "i am processing", rng0)
    | _ :: _ =>
        candidates0 <-
          build_candidates lexicon goal_id recent_set active_concepts ;;
        let considered :=
          map fst (sort_reverse (by_key (fun c => score (snd c)))
                                (indexed candidates0)) in
        match assemble (Z.to_nat max_words) max_words
                (mkAssembly "START" [] [] candidates0 rng0) with
        | Raise e => raise e
        | Ok st =>
            let selected := deref_candidates (all_candidates st) (selected st) in
            ret (mkMotorResult
                   (deref_candidates (all_candidates st) considered)
                   selected
                   (String.concat " " (map word selected)),
                 rng st)
        end
    end.

  (** [random.Random(seed)] *)
Variable Random : Z -> RNG.

  (** [goal_result.selected_goal or "goal_inform"] *)
Definition goal_or_default (selected_goal : option string) : string :=
    match selected_goal with
    | Some s => if String.eqb s "" then "goal_inform" else s
    | None => "goal_inform"
    end.

Record TurnResult : Type := mkTurnResult {
    dynamics_result : DynamicsResult;
    goal_result : GoalResult;
    motor_result : MotorResult
  }.

  (** Steps 3 to 5 of [ConversationEngine.process_input]
      ([engine/__init__.py]) for an engine freshly seeded with [seed]:
      dynamics, goal selection, language generation, on the one graph. *)
Definition pipeline (seed : Z) (lexicon : Lexicon)
      (combined_activations : PyDict.t Q) (dynamics_config : DynamicsConfig)
      (modulators : PyDict.t Q) (recent_words : list string)
    : M (TurnResult * RNG) :=
    dynamics_result <-
      run_dynamics combined_activations (Some dynamics_config) (Some modulators) ;;
    goal_result <- select_goal ;;
    let selected_goal := goal_or_default (selected_goal goal_result) in
    motor <-
      generate_response lexicon selected_goal (Random seed)
        (Some recent_words) 15 ;;
    ret (mkTurnResult dynamics_result goal_result (fst motor), snd motor).
End Motor.

Arguments current_pos {RNG} _.
Arguments selected {RNG} _.
Arguments used_words {RNG} _.
Arguments all_candidates {RNG} _.
Arguments rng {RNG} _.
Arguments mkAssembly {RNG} _ _ _ _ _.
Arguments assemble_step {RNG} randint max_words st.
Arguments assemble {RNG} randint n max_words st.
Arguments generate_response {RNG} randint format_2f lexicon goal_id rng0
  recent_words max_words _.
Arguments pipeline {RNG} randint format_2f Random seed lexicon
  combined_activations dynamics_config modulators recent_words _.

(** A concrete random source and number format, for running the model on
    examples: a linear congruential generator whose draw lies in [a, b]. *)
Definition lcg_randint (s a b : Z) : Z * Z :=
  ((a + s mod (b - a + 1))%Z, ((s * 1103515245 + 12345) mod 2147483648)%Z).
Definition lcg_seed (seed : Z) : Z := seed.
Definition show_2f (x : Q) : string := "".

(** * Specification-level notions and example data *)

(** The representation invariant of [BrainGraph]: the two adjacency
    dictionaries have an entry for exactly the node ids (and, as all three are
    filled by [add_node], in the same order). *)
Definition graph_wf (g : BrainGraph) : Prop :=
  PyDict.keys (_outgoing g) = PyDict.keys (nodes g)
  /\ PyDict.keys (_incoming g) = PyDict.keys (nodes g).

(** The exceptions that report a dangling edge endpoint. *)
Definition dangling_reference (e : Exc) : Prop :=
  match e with
  | EdgeSourceNotFound _ | EdgeTargetNotFound _ => True
  | _ => False
  end.

(** An activation inside the unit interval. *)
Definition in_unit (a : Q) : Prop := 0 <= a <= 1.

(** A node whose decay is 0 and a node that rests at its baseline. *)
Definition frozen_node : Node.t :=
  Node.mk "n" concept "N" 0.5 0 0 0.3 PyDict.empty.
Definition resting_node : Node.t :=
  Node.init "n" concept "N" 0.2 0.05 0.3.

Section Binary64.
Import PrimFloat.

(** The decay expression of [decay_node],
    [activation + (baseline - activation) * decay], in the binary64
    arithmetic that Python performs (round to nearest, ties to even). *)
Definition decay_binary64 (activation baseline decay : float) : float :=
  (activation + (baseline - activation) * decay)%float.

End Binary64.

(** ** The spread pass in the words of the specification *)

(** The transform of a spread by the type of its edge. *)
Definition spec_transform (curiosity : Q) (edge_type : EdgeType) (spread : Q)
  : Q :=
  match edge_type with
  | inhibitory => - Qabs spread
  | associative => spread * (0.5 + curiosity * 0.5)
  | causal => spread * 0.8
  | excitatory => spread
  end.

(** What an edge spreads when its source is read in graph [g]; nothing when
    the source is not firing. *)
Definition spec_edge_spread (curiosity : Q) (g : BrainGraph) (e : Edge.t)
  : option Q :=
  match get_node g (Edge.source_id e) with
  | Some src =>
      if Qle_bool (Node.threshold src) (Node.activation src)
      then Some (spec_transform curiosity (Edge.type e)
                   (Node.activation src * Edge.weight e))
      else None
  | None => None
  end.

(** The spreads that the edges [es] send to target [k], sources read in
    [g], in edge order. *)
Definition spreads_to (curiosity : Q) (g : BrainGraph) (es : list Edge.t)
    (k : string) : list Q :=
  flat_map (fun e =>
              if String.eqb (Edge.target_id e) k
              then match spec_edge_spread curiosity g e with
                   | Some s => [s]
                   | None => []
                   end
              else [])
           es.

(** The node after the spread pass: its activation plus the sum of the
    spreads it receives, every source read in [g]. *)
Definition spec_spread_node (curiosity : Q) (g : BrainGraph) (k : string)
    (n : Node.t) : Node.t :=
  match spreads_to curiosity g (edges g) k with
  | [] => n
  | incoming =>
      Node.set_activation n (Node.activation n + fold_left Qplus incoming 0)
  end.

(** The edge after the spread pass: its contribution plus the magnitude of
    its spread. *)
Definition spec_spread_edge (curiosity : Q) (g : BrainGraph) (e : Edge.t)
  : Edge.t :=
  match spec_edge_spread curiosity g e with
  | Some s => Edge.set_contribution e (Edge.contribution e + Qabs s)
  | None => e
  end.

(** The delta dictionary after one more edge. *)
Definition add_delta (curiosity : Q) (g : BrainGraph) (deltas : PyDict.t Q)
    (e : Edge.t) : PyDict.t Q :=
  match spec_edge_spread curiosity g e with
  | Some s =>
      PyDict.set deltas (Edge.target_id e)
        (delta_get deltas (Edge.target_id e) + s)
  | None => deltas
  end.

(** The firing nodes of a category, as the competition ranks them. *)
Definition ranked (g : BrainGraph) (t : NodeType) : list (string * Node.t) :=
  sort_reverse (by_key (fun kn : string * Node.t => Node.activation (snd kn)))
    (filter (fun kn => Node.is_active (snd kn)) (get_nodes_by_type g t)).

(** Two firing concept nodes and a configuration whose inhibition strength
    is negative. *)
Definition rivals : BrainGraph :=
  mkGraph [("x", Node.mk "x" concept "X" 0.9 0 0.05 0.3 []);
           ("y", Node.mk "y" concept "Y" 0.8 0 0.05 0.3 [])]
          [] [("x", []); ("y", [])] [("x", []); ("y", [])].
Definition boosting_config : DynamicsConfig := mkConfig 20 (-1) true.

(** ** Goal arbitration in the words of the specification *)

(** The goal nodes with their current activation, in node insertion order. *)
Definition goal_entries (g : BrainGraph) : list (string * Q) :=
  map (fun n => (Node.id n, Node.activation n))
      (filter (fun n => NodeType_eqb (Node.type n) goal)
              (PyDict.values (nodes g))).

(** The entries whose activation equals [a]. *)
Definition tied_at (a : Q) (l : list (string * Q)) : list (string * Q) :=
  filter (fun p => Qeq_bool (snd p) a) l.

(** ** The candidates of a call, as functions of the graph it reads *)

(** What the first loop of step 2 appends for one word. *)
Definition concept_candidate_of (format_2f : Q -> string) (lexicon : Lexicon)
    (goal_id : string) (recent_set : list string) (g : BrainGraph)
    (concept_id : string) (concept_act : Q) (word_text : string)
  : list WordCandidate :=
  match lookup_entry lexicon word_text with
  | None => []
  | Some entry =>
      let base_score := concept_act * 0.6 in
      let goal_boost :=
        match PyDict.get GOAL_CONCEPT_BOOST goal_id with
        | Some b => b
        | None => 0.1
        end in
      let base_score :=
        match get_node g goal_id with
        | Some _ =>
            match find (fun edge => String.eqb (Edge.target_id edge) concept_id)
                       (get_outgoing g goal_id) with
            | Some edge => base_score + goal_boost * Qabs (Edge.weight edge)
            | None => base_score
            end
        | None => base_score
        end in
      [mkCandidate word_text concept_id concept_act (pos entry)
         (if str_in word_text recent_set then base_score * 0.3 else base_score)
         ("concept=" ++ concept_id ++ " act=" ++ format_2f concept_act
          ++ " goal_match=" ++ goal_id)]
  end.

(** [all_candidates] at the end of step 2. *)
Definition candidates_of (format_2f : Q -> string) (lexicon : Lexicon)
    (goal_id : string) (recent_set : list string) (g : BrainGraph)
  : list WordCandidate :=
  flat_map (fun item : string * Q * Q =>
              flat_map (concept_candidate_of format_2f lexicon goal_id
                          recent_set g (fst (fst item)) (snd (fst item)))
                       (get_words_for_concept lexicon (fst (fst item))))
           (firstn 25 (gather_active_concepts g))
  ++ motor_candidates lexicon recent_set g.


(** ** Example data for the motor generator *)

(** A vocabulary without entries and a graph whose only node is a firing
    concept. *)
Definition empty_lexicon : Lexicon := mkLexicon [] [] [].
Definition lonely_graph : BrainGraph :=
  mkGraph [("c_lake", Node.mk "c_lake" concept "Lake" 0.8 0 0.05 0.3 [])]
          [] [("c_lake", [])] [("c_lake", [])].

Section ResponseOf.
Variable RNG : Type.
Variable randint : RNG -> Z -> Z -> Z * RNG.
Variable format_2f : Q -> string.

(** The result of a call, from the graph it is given. *)
Definition response_of (lexicon : Lexicon) (goal_id : string) (rng0 : RNG)
    (recent_set : list string) (max_words : Z) (g : BrainGraph)
  : outcome (MotorResult * RNG) :=
  match gather_active_concepts g with
  | [] => Ok (mkMotorResult [] [] "i am processing", rng0)
  | _ :: _ =>
      let candidates0 :=
        candidates_of format_2f lexicon goal_id recent_set g in
      match assemble randint (Z.to_nat max_words) max_words
              (mkAssembly "START" [] [] candidates0 rng0) with
      | Raise e => Raise e
      | Ok st =>
          let chosen := deref_candidates (all_candidates st) (selected st) in
          Ok (mkMotorResult
                (deref_candidates (all_candidates st)
                   (map fst (sort_reverse (by_key (fun c => score (snd c)))
                                          (indexed candidates0))))
                chosen
                (String.concat " " (map word chosen)),
              rng st)
      end
  end.
End ResponseOf.

Arguments response_of {RNG} randint format_2f lexicon goal_id rng0 recent_set
  max_words g.

(** Two graphs with the same nodes, edges and adjacency, in the same order,
    that may differ in what a run resets: the current activations and the
    accumulated contributions. *)
Definition node_static (n : Node.t)
  : string * NodeType * string * Q * Q * Q * PyDict.t string :=
  (Node.id n, Node.type n, Node.label n, Node.baseline n, Node.decay n,
   Node.threshold n, Node.metadata n).

Definition edge_static (e : Edge.t) : string * string * EdgeType * Q :=
  (Edge.source_id e, Edge.target_id e, Edge.type e, Edge.weight e).

Definition same_initial_graph (g1 g2 : BrainGraph) : Prop :=
  map (fun kn => (fst kn, node_static (snd kn))) (nodes g1)
  = map (fun kn => (fst kn, node_static (snd kn))) (nodes g2)
  /\ map edge_static (edges g1) = map edge_static (edges g2)
  /\ _outgoing g1 = _outgoing g2
  /\ _incoming g1 = _incoming g2.

(** The graph of the dynamics tests ([n1 -> n2 -> n3] and a goal), and the
    same graph as an earlier turn may have left it. *)
Definition simple_graph : BrainGraph :=
  mkGraph
    [("n1", Node.init "n1" concept "C1" 0 0.05 0.3);
     ("n2", Node.init "n2" concept "C2" 0 0.05 0.3);
     ("n3", Node.init "n3" concept "C3" 0 0.05 0.3);
     ("g1", Node.init "g1" goal "Goal1" 0.1 0.05 0.2)]
    [Edge.mk "n1" "n2" excitatory 0.6 0;
     Edge.mk "n2" "n3" excitatory 0.5 0;
     Edge.mk "n1" "g1" causal 0.4 0]
    [("n1", [0; 2]%nat); ("n2", [1%nat]); ("n3", []); ("g1", [])]
    [("n1", []); ("n2", [0%nat]); ("n3", [1%nat]); ("g1", [2%nat])].

Definition used_graph : BrainGraph :=
  mkGraph
    [("n1", Node.mk "n1" concept "C1" 0.7 0 0.05 0.3 []);
     ("n2", Node.mk "n2" concept "C2" 0.4 0 0.05 0.3 []);
     ("n3", Node.init "n3" concept "C3" 0 0.05 0.3);
     ("g1", Node.mk "g1" goal "Goal1" 0.3 0.1 0.05 0.2 [])]
    [Edge.mk "n1" "n2" excitatory 0.6 1.5;
     Edge.mk "n2" "n3" excitatory 0.5 0.25;
     Edge.mk "n1" "g1" causal 0.4 0]
    [("n1", [0; 2]%nat); ("n2", [1%nat]); ("n3", []); ("g1", [])]
    [("n1", []); ("n2", [0%nat]); ("n3", [1%nat]); ("g1", [2%nat])].

(** A small vocabulary for the concepts of [simple_graph]. *)
Definition simple_lexicon : Lexicon :=
  mkLexicon
    [("lake", mkEntry "w_lake" "lake" ["n1"] "noun");
     ("cold", mkEntry "w_cold" "cold" ["n2"] "adj");
     ("enjoy", mkEntry "w_enjoy" "enjoy" ["n1"; "n3"] "verb")]
    []
    [("n1", ["lake"; "enjoy"]); ("n2", ["cold"]); ("n3", ["enjoy"])].

(** * The rest of the engine *)

(** ** More of the graph model ([engine/graph/brain.py]) *)

(** [validate] *)
Definition validate (g : BrainGraph) : list string :=
  let errors :=
    flat_map
      (fun edge =>
         (if PyDict.contains (nodes g) (Edge.source_id edge) then []
          else [("Edge references missing source: " ++ Edge.source_id edge)%string])
         ++ (if PyDict.contains (nodes g) (Edge.target_id edge) then []
             else [("Edge references missing target: " ++ Edge.target_id edge)%string]))
      (edges g) in
  match get_nodes_by_type g goal with
  | [] => errors ++ ["No goal nodes defined in graph"]
  | _ :: _ => errors
  end.

(** The graphs that the constructor and the two insertion methods build,
    failed insertions included. *)
Inductive built : BrainGraph -> Prop :=
| built_empty : built empty_graph
| built_node (g : BrainGraph) (node : Node.t) :
    built g -> built (snd (add_node node g))
| built_edge (g : BrainGraph) (edge : Edge.t) :
    built g -> built (snd (add_edge edge g)).

(** The positions of the edges that satisfy [p]. *)
Definition refs_where (p : Edge.t -> bool) (es : list Edge.t) : list nat :=
  map fst (filter (fun ie => p (snd ie)) (indexed es)).

(** Both endpoints of the edge are node ids of [g]. *)
Definition endpoints_known (g : BrainGraph) (e : Edge.t) : Prop :=
  PyDict.contains (nodes g) (Edge.source_id e) = true
  /\ PyDict.contains (nodes g) (Edge.target_id e) = true.

(** What the insertion methods keep true of a graph. *)
Definition graph_inv (g : BrainGraph) : Prop :=
  graph_wf g
  /\ NoDup (PyDict.keys (nodes g))
  /\ Forall (endpoints_known g) (edges g)
  /\ (forall k refs,
        PyDict.get (_outgoing g) k = Some refs ->
        refs = refs_where (fun e => String.eqb (Edge.source_id e) k) (edges g))
  /\ (forall k refs,
        PyDict.get (_incoming g) k = Some refs ->
        refs = refs_where (fun e => String.eqb (Edge.target_id e) k) (edges g)).

(** An edge list and a later state of it: the same edges, no contribution
    smaller. *)
Definition contributions_grow (es es' : list Edge.t) : Prop :=
  Forall2 (fun e e' =>
             edge_static e' = edge_static e
             /\ Edge.contribution e <= Edge.contribution e')
          es es'.

(** ** More of the motor generator *)

(** What the assembly loop keeps true of its state: the selected references
    point into the candidate list, and the used words are the words of the
    selected candidates, without repetition. *)
Definition assembly_inv {RNG : Type} (st : Assembly RNG) : Prop :=
  Forall (fun i => (i < length (all_candidates st))%nat) (selected st)
  /\ used_words st
     = map word (deref_candidates (all_candidates st) (selected st))
  /\ NoDup (used_words st).

(** [rng.randint(a, b)] returns a number of the closed range, as the Python
    library documents it. *)
Definition randint_in_range {RNG : Type} (randint : RNG -> Z -> Z -> Z * RNG)
  : Prop :=
  forall (r : RNG) (a b : Z),
    (a <= b)%Z -> (a <= fst (randint r a b) <= b)%Z.

(** A graph whose only node fires with a negative activation (its threshold
    is lower still), as a caller may hand it to the motor generator without
    a dynamics step. *)
Definition sunken_graph : BrainGraph :=
  mkGraph [("n1", Node.mk "n1" concept "C1" (-0.5) (-1) 0.05 (-1) [])]
          [] [("n1", [])] [("n1", [])].

(** ** The memory system ([engine/memory/memory.py]) *)

Module Episode.
Record t : Type := mk {
  turn_id : Z;
  user_text : string;
  system_text : string;
  concepts : list string;
  goal : string
}.
End Episode.

Record Memory : Type := mkMemory {
  stm_capacity : Z;
  episodic_capacity : Z;
  short_term : list (string * string);
  episodes : list Episode.t;
  turn_counter : Z
}.

(** [Memory(stm_capacity, episodic_capacity)] *)
Definition Memory_init (stm_capacity episodic_capacity : Z) : Memory :=
  mkMemory stm_capacity episodic_capacity [] [] 0.

(** [l.append(x)] followed by [if len(l) > capacity: l.pop(0)]. *)
Definition append_bounded {A : Type} (capacity : Z) (l : list A) (x : A)
  : list A :=
  let l := l ++ [x] in
  if (capacity <? Z.of_nat (length l))%Z then tl l else l.

(** [store_turn(user_text, system_text, concepts, goal)] *)
Definition store_turn (m : Memory) (user_text system_text : string)
    (concepts : list string) (goal : string) : Memory :=
  let turn_counter := (turn_counter m + 1)%Z in
  let short_term :=
    append_bounded (stm_capacity m) (short_term m) (user_text, system_text) in
  let episode := Episode.mk turn_counter user_text system_text concepts goal in
  let episodes := append_bounded (episodic_capacity m) (episodes m) episode in
  mkMemory (stm_capacity m) (episodic_capacity m) short_term episodes
           turn_counter.

(** [len(concept_set & set(ep.concepts))]: the number of distinct strings
    that occur in both lists. *)
Definition overlap (concepts ep_concepts : list string) : nat :=
  length (nodup string_dec (filter (fun c => str_in c ep_concepts) concepts)).

(** [overlap + (ep.turn_id / max(1, self.turn_counter)) * 0.3] *)
Definition episode_score (m : Memory) (concepts : list string)
    (ep : Episode.t) : Q :=
  inject_Z (Z.of_nat (overlap concepts (Episode.concepts ep)))
  + (inject_Z (Episode.turn_id ep) / inject_Z (Z.max 1 (turn_counter m)))
    * 0.3.

(** [l[:k]], with Python's reading of a negative bound. *)
Definition py_slice_to {A : Type} (l : list A) (k : Z) : list A :=
  if (0 <=? k)%Z then firstn (Z.to_nat k) l
  else firstn (length l - Z.to_nat (- k)) l.

(** [retrieve_relevant(concepts, top_k)] *)
Definition retrieve_relevant (m : Memory) (concepts : list string)
    (top_k : Z) : list Episode.t :=
  match episodes m, concepts with
  | [], _ => []
  | _, [] => []
  | _ :: _, _ :: _ =>
      let scored :=
        flat_map (fun ep =>
                    if (0 <? overlap concepts (Episode.concepts ep))%nat
                    then [(episode_score m concepts ep, ep)]
                    else [])
                 (episodes m) in
      map snd (py_slice_to (sort_reverse (by_key fst) scored) top_k)
  end.

(** [get_recent_concepts()] *)
Definition get_recent_concepts (m : Memory) : list string :=
  flat_map Episode.concepts (last_n 3 (episodes m)).

(** [boosts[c] = boosts.get(c, 0.0) + boost], with [boost = 0.15]. *)
Definition add_boost (boosts : PyDict.t Q) (c : string) : PyDict.t Q :=
  PyDict.set boosts c
    (match PyDict.get boosts c with Some b => b | None => 0 end + 0.15).

(** [get_memory_boost(current_concepts)] *)
Definition get_memory_boost (m : Memory) (current_concepts : list string)
  : PyDict.t Q :=
  let retrieved := retrieve_relevant m current_concepts 3 in
  let boosts :=
    fold_left add_boost (flat_map Episode.concepts retrieved) PyDict.empty in
  map (fun kv => (fst kv, py_min 0.4 (snd kv))) boosts.

(** A conversation: the arguments of successive [store_turn] calls. *)
Definition Turn : Type := string * string * list string * string.

Definition store_all (m : Memory) (turns : list Turn) : Memory :=
  fold_left (fun m (t : Turn) =>
               let '(user_text, system_text, concepts, turn_goal) := t in
               store_turn m user_text system_text concepts turn_goal)
            turns m.

(** The episodes of a conversation, numbered from [first]. *)
Fixpoint episodes_from (first : Z) (turns : list Turn) : list Episode.t :=
  match turns with
  | [] => []
  | (user_text, system_text, concepts, turn_goal) :: rest =>
      Episode.mk first user_text system_text concepts turn_goal
      :: episodes_from (first + 1) rest
  end.

(** ** Building the vocabulary ([engine/loaders/lexicon_loader.py]) *)

(** [Lexicon()] (the fields the motor generator reads) *)
Definition Lexicon_init : Lexicon := mkLexicon [] [] [].

(** [self.concept_to_words.setdefault(cid, []).append(text)] *)
Definition append_word (d : PyDict.t (list string)) (cid text : string)
  : PyDict.t (list string) :=
  PyDict.set d cid
    (match PyDict.get d cid with Some l => l | None => [] end ++ [text]).

Definition index_concepts (d : PyDict.t (list string)) (entry : LexiconEntry)
  : PyDict.t (list string) :=
  fold_left (fun d cid => append_word d cid (text entry)) (concept_ids entry) d.

(** [add_word(entry)] *)
Definition add_word (lexicon : Lexicon) (entry : LexiconEntry) : Lexicon :=
  mkLexicon (PyDict.set (words lexicon) (text entry) entry)
            (phrases lexicon)
            (index_concepts (concept_to_words lexicon) entry).

(** [add_phrase(entry)] *)
Definition add_phrase (lexicon : Lexicon) (entry : LexiconEntry) : Lexicon :=
  mkLexicon (words lexicon)
            (PyDict.set (phrases lexicon) (text entry) entry)
            (index_concepts (concept_to_words lexicon) entry).

(** The vocabularies that [add_word] and [add_phrase] build. *)
Inductive built_lexicon : Lexicon -> Prop :=
| built_lexicon_init : built_lexicon Lexicon_init
| built_lexicon_word (lexicon : Lexicon) (entry : LexiconEntry) :
    built_lexicon lexicon -> built_lexicon (add_word lexicon entry)
| built_lexicon_phrase (lexicon : Lexicon) (entry : LexiconEntry) :
    built_lexicon lexicon -> built_lexicon (add_phrase lexicon entry).

(** The rest of the [Lexicon] object, which perception reads: the vocabulary
    with its synonym table and stopword set. *)
Record Vocabulary : Type := mkVocabulary {
  lexicon_of : Lexicon;
  synonyms : PyDict.t string;
  stopwords : list string
}.

(** [resolve(word)]: [self.synonyms.get(word, word)] *)
Definition resolve (v : Vocabulary) (w : string) : string :=
  match PyDict.get (synonyms v) w with Some c => c | None => w end.

(** [is_stopword(word)] *)
Definition is_stopword (v : Vocabulary) (w : string) : bool :=
  str_in w (stopwords v).

(** ** The orchestrator's bookkeeping ([engine/__init__.py]) *)

(** [self.recent_words.extend(final_words)], then the cut to the last 30
    when there are more. *)
Definition update_recent_words (recent_words final_words : list string)
  : list string :=
  let recent_words := recent_words ++ final_words in
  if (30 <? length recent_words)%nat then last_n 30 recent_words
  else recent_words.

(** ['?' in s] *)
Fixpoint has_question_mark (s : string) : bool :=
  match s with
  | EmptyString => false
  | String c rest => Ascii.eqb c "?"%char || has_question_mark rest
  end.

(** [_update_modulators]; [None] stands for the [KeyError] of a missing
    modulator. *)
Definition update_modulators (modulators : PyDict.t Q) (raw_input : string)
  : option (PyDict.t Q) :=
  match PyDict.get modulators "curiosity" with
  | None => None
  | Some c =>
      let modulators :=
        PyDict.set modulators "curiosity"
          (if has_question_mark raw_input then py_min 1 (c + 0.1)
           else py_max 0.2 (c - 0.05)) in
      match PyDict.get modulators "urgency" with
      | None => None
      | Some u => Some (PyDict.set modulators "urgency" (py_max 0.1 (u - 0.02)))
      end
  end.

(** [combined_activations]: the perceived activations with the memory
    boosts added. *)
Definition combine_activations (activated_concepts memory_boost : PyDict.t Q)
  : PyDict.t Q :=
  fold_left (fun combined (item : string * Q) =>
               PyDict.set combined (fst item)
                 (match PyDict.get combined (fst item) with
                  | Some a => a
                  | None => 0
                  end + snd item))
            (PyDict.items memory_boost) activated_concepts.

(** ** Perception ([engine/perception/input_processor.py]) *)

Record PerceptionResult : Type := mkPerception {
  raw_input : string;
  tokens : list string;
  matched_phrases : list (string * list string);
  matched_words : list (string * list string);
  activated_concepts : PyDict.t Q;
  synonym_mappings : PyDict.t string;
  removed_stopwords : list string
}.

(** [activated[cid] = activated.get(cid, 0.0) + amount] for every [cid]. *)
Definition activate (amount : Q) (activated : PyDict.t Q)
    (concept_ids : list string) : PyDict.t Q :=
  fold_left (fun d cid =>
               PyDict.set d cid
                 (match PyDict.get d cid with Some a => a | None => 0 end
                  + amount))
            concept_ids activated.

Section Perception.
(** The string operations of the Python runtime are parameters:
    [re.sub(r'[^\w\s]', '', s.lower().strip())], [p in s],
    [s.replace(p, ' ')], [s.split()] and [len(s)]. *)
Variable normalize : string -> string.
Variable occurs_in : string -> string -> bool.
Variable blank_out : string -> string -> string.
Variable split : string -> list string.
Variable len : string -> nat.

(** [get_sorted_phrases()]: the phrases, longest first. *)
Definition get_sorted_phrases (lexicon : Lexicon) : list string :=
  sort_reverse (fun a b => (len a <? len b)%nat)
               (PyDict.keys (phrases lexicon)).

(** One iteration of phase 1 (phrase detection). *)
Definition detect_phrase (v : Vocabulary)
    (st : string * list (string * list string) * PyDict.t Q)
    (phrase : string) : string * list (string * list string) * PyDict.t Q :=
  let '(remaining, matched, activated) := st in
  if occurs_in phrase remaining then
    match lookup_phrase (lexicon_of v) phrase with
    | Some entry =>
        (blank_out remaining phrase,
         matched ++ [(phrase, concept_ids entry)],
         activate 0.8 activated (concept_ids entry))
    | None => st
    end
  else st.

(** One iteration of phase 2 (tokens). *)
Definition perceive_token (v : Vocabulary) (r : PerceptionResult)
    (token : string) : PerceptionResult :=
  let canonical := resolve v token in
  let mappings :=
    if String.eqb canonical token then synonym_mappings r
    else PyDict.set (synonym_mappings r) token canonical in
  let token := canonical in
  if is_stopword v token then
    mkPerception (raw_input r) (tokens r) (matched_phrases r)
      (matched_words r) (activated_concepts r) mappings
      (removed_stopwords r ++ [token])
  else
    match lookup_word (lexicon_of v) token with
    | Some entry =>
        mkPerception (raw_input r) (tokens r ++ [token]) (matched_phrases r)
          (matched_words r ++ [(token, concept_ids entry)])
          (activate 0.7 (activated_concepts r) (concept_ids entry))
          mappings (removed_stopwords r)
    | None =>
        mkPerception (raw_input r) (tokens r ++ [token]) (matched_phrases r)
          (matched_words r) (activated_concepts r) mappings
          (removed_stopwords r)
    end.

(** [InputProcessor(lexicon).process(raw_input)] *)
Definition process (v : Vocabulary) (raw : string) : PerceptionResult :=
  let text := normalize raw in
  let '(remaining, matched, activated) :=
    fold_left (detect_phrase v) (get_sorted_phrases (lexicon_of v))
              (text, [], PyDict.empty) in
  let r :=
    fold_left (perceive_token v) (split remaining)
              (mkPerception raw [] matched [] activated PyDict.empty []) in
  mkPerception (raw_input r) (tokens r) (matched_phrases r) (matched_words r)
    (map (fun kv => (fst kv, py_min 1 (snd kv))) (activated_concepts r))
    (synonym_mappings r) (removed_stopwords r).
End Perception.

(** ** Conversations: the orchestrator's state over several turns *)

(** [self.modulators] of a new [ConversationEngine]. *)
Definition initial_modulators : PyDict.t Q :=
  [("curiosity", 0.5); ("calm", 0.6); ("urgency", 0.3)].

(** The modulators after the inputs of a conversation; [None] once an update
    has raised. *)
Definition modulators_after (inputs : list string) : option (PyDict.t Q) :=
  fold_left (fun state raw =>
               match state with
               | Some modulators => update_modulators modulators raw
               | None => None
               end)
            inputs (Some initial_modulators).

(** [self.recent_words] after the turns of a conversation, given the words
    spoken in each turn ([self.recent_words = []] in a new engine). *)
Definition recent_words_after (spoken : list (list string)) : list string :=
  fold_left update_recent_words spoken [].

(** The activated concepts are exactly the concepts of what was matched,
    each with one entry. *)
Definition activations_from (matched : list (string * list string))
    (activated : PyDict.t Q) : Prop :=
  NoDup (PyDict.keys activated)
  /\ forall k,
       In k (PyDict.keys activated)
       <-> exists w cs, In (w, cs) matched /\ In k cs.

(** What the token loop of [process] keeps true of the result under
    construction, [phrases_found] being the phrases matched before it. *)
Definition perception_inv (v : Vocabulary)
    (phrases_found : list (string * list string)) (r : PerceptionResult)
  : Prop :=
  matched_phrases r = phrases_found
  /\ activations_from (matched_phrases r ++ matched_words r)
                      (activated_concepts r)
  /\ Forall (fun kv : string * Q => 0.7 <= snd kv) (activated_concepts r)
  /\ Forall (fun wc : string * list string =>
               In (fst wc) (tokens r)
               /\ exists entry,
                    lookup_word (lexicon_of v) (fst wc) = Some entry
                    /\ snd wc = concept_ids entry)
            (matched_words r)
  /\ Forall (fun t => is_stopword v t = false) (tokens r)
  /\ Forall (fun t => is_stopword v t = true) (removed_stopwords r)
  /\ Forall (fun tc : string * string =>
               snd tc = resolve v (fst tc) /\ snd tc <> fst tc)
            (synonym_mappings r).

(** What the phrase loop of [process] keeps true of its state. *)
Definition phrase_inv (v : Vocabulary)
    (st : string * list (string * list string) * PyDict.t Q) : Prop :=
  let '(_, matched, activated) := st in
  activations_from matched activated
  /\ Forall (fun kv : string * Q => 0.7 <= snd kv) activated
  /\ Forall (fun pc : string * list string =>
               exists entry,
                 lookup_phrase (lexicon_of v) (fst pc) = Some entry
                 /\ snd pc = concept_ids entry)
            matched.

(** * Properties *)

(** ** Numbers *)

Lemma Qltb_lt (x y : Q) : Qltb x y = true <-> x < y.
Proof.
  unfold Qltb. rewrite negb_true_iff, <- not_true_iff_false, Qle_bool_iff.
  split; [apply Qnot_le_lt | apply Qlt_not_le].
Qed.

Lemma Qltb_ge (x y : Q) : Qltb x y = false <-> y <= x.
Proof.
  unfold Qltb. rewrite negb_false_iff. apply Qle_bool_iff.
Qed.

Lemma Qgeb_ge (x y : Q) : Qgeb x y = true <-> y <= x.
Proof. unfold Qgeb. apply Qle_bool_iff. Qed.

Lemma py_min_spec (a b : Q) :
  (b < a /\ py_min a b = b) \/ (a <= b /\ py_min a b = a).
Proof.
  unfold py_min. destruct (Qltb b a) eqn:E.
  - left. split; [now apply Qltb_lt | reflexivity].
  - right. split; [now apply Qltb_ge | reflexivity].
Qed.

Lemma py_max_spec (a b : Q) :
  (a < b /\ py_max a b = b) \/ (b <= a /\ py_max a b = a).
Proof.
  unfold py_max. destruct (Qltb a b) eqn:E.
  - left. split; [now apply Qltb_lt | reflexivity].
  - right. split; [now apply Qltb_ge | reflexivity].
Qed.

(** The clamp expression lands in the unit interval. *)
Lemma clamp_range (x : Q) : 0 <= py_max 0 (py_min 1 x) <= 1.
Proof.
  destruct (py_min_spec 1 x) as [[H1 E1] | [H1 E1]]; rewrite E1;
    destruct (py_max_spec 0 x) as [[H2 E2] | [H2 E2]];
    destruct (py_max_spec 0 1) as [[H3 E3] | [H3 E3]];
    try rewrite E2; try rewrite E3; lra.
Qed.

(** ** Dictionaries *)

Section DictFacts.
Context {V : Type}.
Implicit Types (d : PyDict.t V) (k : string) (v : V).

Lemma get_set_same d k v : PyDict.get (PyDict.set d k v) k = Some v.
  Proof.
    induction d as [| [k' v'] r IH]; simpl.
    - now rewrite String.eqb_refl.
    - destruct (String.eqb k' k) eqn:E; simpl; rewrite E; auto.
  Qed.

Lemma get_set_other d k k' v :
    k <> k' -> PyDict.get (PyDict.set d k v) k' = PyDict.get d k'.
  Proof.
    intros Hne. induction d as [| [k0 v0] r IH]; simpl.
    - destruct (String.eqb k k') eqn:E; auto.
      apply String.eqb_eq in E. contradiction.
    - destruct (String.eqb k0 k) eqn:E; simpl.
      + apply String.eqb_eq in E. subst k0.
        destruct (String.eqb k k') eqn:E'; auto.
        apply String.eqb_eq in E'. contradiction.
      + destruct (String.eqb k0 k'); auto.
  Qed.

Lemma set_absent d k v :
    PyDict.get d k = None -> PyDict.set d k v = d ++ [(k, v)].
  Proof.
    induction d as [| [k' v'] r IH]; simpl; auto.
    destruct (String.eqb k' k); [discriminate |].
    intros H. now rewrite IH.
  Qed.

Lemma keys_set_present d k v :
    PyDict.contains d k = true ->
    PyDict.keys (PyDict.set d k v) = PyDict.keys d.
  Proof.
    unfold PyDict.contains, PyDict.keys.
    induction d as [| [k' v'] r IH]; simpl; [discriminate |].
    destruct (String.eqb k' k); simpl; auto.
    intros H. now rewrite IH.
  Qed.

Lemma contains_set d k k' v :
    PyDict.contains (PyDict.set d k v) k'
    = (String.eqb k k' || PyDict.contains d k')%bool.
  Proof.
    unfold PyDict.contains. destruct (String.eqb k k') eqn:E.
    - apply String.eqb_eq in E. subst. now rewrite get_set_same.
    - apply String.eqb_neq in E. now rewrite get_set_other.
  Qed.

Lemma contains_setdefault d k k' v :
    PyDict.contains (PyDict.setdefault d k v) k'
    = (String.eqb k k' || PyDict.contains d k')%bool.
  Proof.
    unfold PyDict.setdefault. destruct (PyDict.contains d k) eqn:E.
    - destruct (String.eqb k k') eqn:E'; auto.
      apply String.eqb_eq in E'. now subst.
    - apply contains_set.
  Qed.

Lemma get_In d k v : PyDict.get d k = Some v -> In (k, v) d.
  Proof.
    induction d as [| [k' v'] r IH]; simpl; [discriminate |].
    destruct (String.eqb k' k) eqn:E.
    - apply String.eqb_eq in E. intros [= ->]. left. now subst.
    - auto.
  Qed.

Lemma In_get d k v :
    NoDup (PyDict.keys d) -> In (k, v) d -> PyDict.get d k = Some v.
  Proof.
    unfold PyDict.keys.
    induction d as [| [k' v'] r IH]; simpl; [tauto |].
    intros Hnd [H | H].
    - injection H as -> ->. now rewrite String.eqb_refl.
    - inversion Hnd as [| ? ? Hnotin Hnd']; subst.
      destruct (String.eqb k' k) eqn:E; auto.
      apply String.eqb_eq in E. subst. exfalso. apply Hnotin.
      change k with (fst (k, v)). now apply in_map.
  Qed.
End DictFacts.

(** ** The graph model *)

Lemma empty_graph_wf : graph_wf empty_graph.
Proof. split; reflexivity. Qed.

Lemma contains_keys {V W : Type} (d : PyDict.t V) (d' : PyDict.t W) (k : string) :
  PyDict.keys d = PyDict.keys d' -> PyDict.contains d k = PyDict.contains d' k.
Proof.
  unfold PyDict.keys, PyDict.contains. revert d'.
  induction d as [| [k1 v1] r IH]; intros [| [k2 v2] r'] H; simpl in *;
    try discriminate; auto.
  injection H as -> H. destruct (String.eqb k2 k); auto.
Qed.

Lemma graph_wf_contains (g : BrainGraph) :
  graph_wf g ->
  forall k,
    PyDict.contains (_outgoing g) k = PyDict.contains (nodes g) k
    /\ PyDict.contains (_incoming g) k = PyDict.contains (nodes g) k.
Proof. intros [Ho Hi] k. split; now apply contains_keys. Qed.

Lemma contains_false_get {V : Type} (d : PyDict.t V) (k : string) :
  PyDict.contains d k = false -> PyDict.get d k = None.
Proof. unfold PyDict.contains. destruct (PyDict.get d k); easy. Qed.

Lemma contains_true_get {V : Type} (d : PyDict.t V) (k : string) :
  PyDict.contains d k = true -> exists v, PyDict.get d k = Some v.
Proof. unfold PyDict.contains. destruct (PyDict.get d k); [eauto | easy]. Qed.

(** What [add_node] does on a fresh id. *)
Lemma add_node_fresh (g : BrainGraph) (node : Node.t) :
  graph_wf g ->
  PyDict.contains (nodes g) (Node.id node) = false ->
  add_node node g
  = (Ok tt, mkGraph (nodes g ++ [(Node.id node, node)]) (edges g)
                    (_outgoing g ++ [(Node.id node, [])])
                    (_incoming g ++ [(Node.id node, [])])).
Proof.
  intros Hwf Hfresh.
  destruct (graph_wf_contains g Hwf (Node.id node)) as [Ho Hi].
  rewrite Hfresh in Ho, Hi.
  unfold add_node, bind, gets, modify, raise. rewrite Hfresh. cbn.
  unfold PyDict.setdefault. rewrite Ho, Hi.
  rewrite !set_absent by now apply contains_false_get.
  reflexivity.
Qed.

Lemma add_node_duplicate (g : BrainGraph) (node : Node.t) :
  PyDict.contains (nodes g) (Node.id node) = true ->
  add_node node g = (Raise (DuplicateNodeId (Node.id node)), g).
Proof.
  intros H. unfold add_node, bind, gets, raise. now rewrite H.
Qed.

Lemma add_edge_missing_source (g : BrainGraph) (edge : Edge.t) :
  PyDict.contains (nodes g) (Edge.source_id edge) = false ->
  add_edge edge g = (Raise (EdgeSourceNotFound (Edge.source_id edge)), g).
Proof.
  intros H. unfold add_edge, bind, gets, raise. now rewrite H.
Qed.

Lemma add_edge_missing_target (g : BrainGraph) (edge : Edge.t) :
  PyDict.contains (nodes g) (Edge.source_id edge) = true ->
  PyDict.contains (nodes g) (Edge.target_id edge) = false ->
  add_edge edge g = (Raise (EdgeTargetNotFound (Edge.target_id edge)), g).
Proof.
  intros H1 H2. unfold add_edge, bind, gets, raise. rewrite H1. cbn.
  now rewrite H2.
Qed.

Lemma add_edge_present (g : BrainGraph) (edge : Edge.t) :
  graph_wf g ->
  PyDict.contains (nodes g) (Edge.source_id edge) = true ->
  PyDict.contains (nodes g) (Edge.target_id edge) = true ->
  exists outs ins,
    PyDict.get (_outgoing g) (Edge.source_id edge) = Some outs
    /\ PyDict.get (_incoming g) (Edge.target_id edge) = Some ins
    /\ add_edge edge g
       = (Ok tt,
          mkGraph (nodes g) (edges g ++ [edge])
            (PyDict.set (_outgoing g) (Edge.source_id edge)
               (outs ++ [length (edges g)]))
            (PyDict.set (_incoming g) (Edge.target_id edge)
               (ins ++ [length (edges g)]))).
Proof.
  intros Hwf Hs Ht.
  destruct (graph_wf_contains g Hwf (Edge.source_id edge)) as [Ho _].
  destruct (graph_wf_contains g Hwf (Edge.target_id edge)) as [_ Hi].
  rewrite Hs in Ho. rewrite Ht in Hi.
  destruct (contains_true_get _ _ Ho) as [outs Houts].
  destruct (contains_true_get _ _ Hi) as [ins Hins].
  exists outs, ins. repeat split; auto.
  unfold add_edge, bind, gets, modify, raise. rewrite Hs. cbn.
  rewrite Ht. cbn.
  unfold adj_append. cbn. rewrite Houts. cbn. rewrite Hins. reflexivity.
Qed.

(** Both insertions keep the representation invariant. *)
Lemma add_node_wf (g : BrainGraph) (node : Node.t) :
  graph_wf g -> graph_wf (snd (add_node node g)).
Proof.
  intros Hwf. destruct (PyDict.contains (nodes g) (Node.id node)) eqn:E.
  - now rewrite add_node_duplicate.
  - rewrite add_node_fresh by assumption. destruct Hwf as [Ho Hi].
    unfold graph_wf, PyDict.keys in *. cbn. rewrite !map_app, Ho, Hi.
    split; reflexivity.
Qed.

Lemma add_edge_wf (g : BrainGraph) (edge : Edge.t) :
  graph_wf g -> graph_wf (snd (add_edge edge g)).
Proof.
  intros Hwf.
  destruct (PyDict.contains (nodes g) (Edge.source_id edge)) eqn:Es.
  2: now rewrite add_edge_missing_source.
  destruct (PyDict.contains (nodes g) (Edge.target_id edge)) eqn:Et.
  2: now rewrite add_edge_missing_target.
  destruct (add_edge_present g edge Hwf Es Et) as (outs & ins & Ho & Hi & ->).
  destruct (graph_wf_contains g Hwf (Edge.source_id edge)) as [Hos _].
  destruct (graph_wf_contains g Hwf (Edge.target_id edge)) as [_ Hit].
  destruct Hwf as [Hok Hik]. unfold graph_wf, snd, nodes, _outgoing, _incoming.
  fold (nodes g) (_outgoing g) (_incoming g).
  rewrite !keys_set_present by congruence. now split.
Qed.

(** C7.  On a graph that satisfies the representation invariant, [add_node]
    raises the duplicate-id error exactly when the node's id is already a
    key of [nodes], and otherwise appends the node and a fresh empty entry to
    both adjacency dictionaries; [add_edge] raises a dangling-reference
    error exactly when the source or the target id is not a key of [nodes],
    and otherwise appends the edge to [edges] and a reference to it to the
    source's outgoing and the target's incoming list; every failing call
    leaves the graph as it was. *)
Theorem add_node_add_edge_contract (g : BrainGraph) (node : Node.t)
    (edge : Edge.t) :
  graph_wf g ->
  let dup := PyDict.contains (nodes g) (Node.id node) in
  let src_ok := PyDict.contains (nodes g) (Edge.source_id edge) in
  let tgt_ok := PyDict.contains (nodes g) (Edge.target_id edge) in
  (fst (add_node node g) = Raise (DuplicateNodeId (Node.id node))
   <-> dup = true)
  /\ (dup = true -> snd (add_node node g) = g)
  /\ (dup = false ->
      add_node node g
      = (Ok tt, mkGraph (nodes g ++ [(Node.id node, node)]) (edges g)
                        (_outgoing g ++ [(Node.id node, [])])
                        (_incoming g ++ [(Node.id node, [])]))
      /\ get_node (snd (add_node node g)) (Node.id node) = Some node
      /\ get_outgoing (snd (add_node node g)) (Node.id node) = []
      /\ get_incoming (snd (add_node node g)) (Node.id node) = [])
  /\ ((exists e, fst (add_edge edge g) = Raise e /\ dangling_reference e)
      <-> (src_ok && tgt_ok)%bool = false)
  /\ ((src_ok && tgt_ok)%bool = false -> snd (add_edge edge g) = g)
  /\ ((src_ok && tgt_ok)%bool = true ->
      exists outs ins,
        PyDict.get (_outgoing g) (Edge.source_id edge) = Some outs
        /\ PyDict.get (_incoming g) (Edge.target_id edge) = Some ins
        /\ add_edge edge g
           = (Ok tt,
              mkGraph (nodes g) (edges g ++ [edge])
                (PyDict.set (_outgoing g) (Edge.source_id edge)
                   (outs ++ [length (edges g)]))
                (PyDict.set (_incoming g) (Edge.target_id edge)
                   (ins ++ [length (edges g)])))
        /\ nth_error (edges (snd (add_edge edge g))) (length (edges g))
           = Some edge).
Proof.
  intros Hwf dup src_ok tgt_ok.
  split; [| split; [| split; [| split; [| split]]]].
  - subst dup. destruct (PyDict.contains (nodes g) (Node.id node)) eqn:E.
    + rewrite add_node_duplicate by assumption. now split.
    + rewrite add_node_fresh by assumption. cbn. split; discriminate.
  - intros H. now rewrite add_node_duplicate.
  - intros H. subst dup. rewrite add_node_fresh by assumption.
    destruct (graph_wf_contains g Hwf (Node.id node)) as [Ho Hi].
    rewrite H in Ho, Hi.
    split; [reflexivity |]. unfold get_node, get_outgoing, get_incoming. cbn.
    rewrite <- !set_absent by now apply contains_false_get.
    rewrite !get_set_same. auto.
  - subst src_ok tgt_ok.
    destruct (PyDict.contains (nodes g) (Edge.source_id edge)) eqn:Es.
    + destruct (PyDict.contains (nodes g) (Edge.target_id edge)) eqn:Et.
      * destruct (add_edge_present g edge Hwf Es Et) as (o & i & _ & _ & ->).
        cbn. split; [intros (e & [=] & _) | discriminate].
      * rewrite add_edge_missing_target by assumption. cbn.
        split; [reflexivity |]. intros _. eexists. split; [reflexivity |].
        exact I.
    + rewrite add_edge_missing_source by assumption. cbn.
      split; [reflexivity |]. intros _. eexists. split; [reflexivity |].
      exact I.
  - subst src_ok tgt_ok. intros H.
    destruct (PyDict.contains (nodes g) (Edge.source_id edge)) eqn:Es.
    + destruct (PyDict.contains (nodes g) (Edge.target_id edge)) eqn:Et;
        [discriminate |].
      now rewrite add_edge_missing_target.
    + now rewrite add_edge_missing_source.
  - subst src_ok tgt_ok. intros H. apply andb_true_iff in H as [Es Et].
    destruct (add_edge_present g edge Hwf Es Et) as (o & i & Ho & Hi & E).
    exists o, i. repeat split; auto. rewrite E. cbn.
    rewrite nth_error_app2 by lia. now rewrite Nat.sub_diag.
Qed.

(** ** The stable descending sort *)

Section SortFacts.
Context {A : Type}.
Variable lt : A -> A -> bool.

Lemma insert_desc_perm (x : A) (l : list A) :
    Permutation (insert_desc lt x l) (x :: l).
  Proof.
    induction l as [| y r IH]; simpl; auto.
    destruct (lt x y); auto.
    rewrite IH. apply perm_swap.
  Qed.

Lemma sort_reverse_perm (l : list A) : Permutation (sort_reverse lt l) l.
  Proof.
    induction l as [| x r IH]; simpl; auto.
    now rewrite insert_desc_perm, IH.
  Qed.

Lemma sort_reverse_In (l : list A) (x : A) :
    In x (sort_reverse lt l) <-> In x l.
  Proof.
    split; apply Permutation_in;
      [apply sort_reverse_perm | apply Permutation_sym, sort_reverse_perm].
  Qed.

Lemma sort_reverse_length (l : list A) :
    length (sort_reverse lt l) = length l.
  Proof. apply Permutation_length, sort_reverse_perm. Qed.

Lemma sort_reverse_Forall (P : A -> Prop) (l : list A) :
    Forall P l -> Forall P (sort_reverse lt l).
  Proof.
    rewrite !Forall_forall. intros H x Hx. now apply H, sort_reverse_In.
  Qed.

  (** Stability: a class [P] of elements with pairwise equal keys keeps its
      order. *)
Lemma insert_desc_filter (P : A -> bool) (x : A) (l : list A) :
    (forall a b, P a = true -> P b = true -> lt a b = false) ->
    filter P (insert_desc lt x l) = filter P (x :: l).
  Proof.
    intros Hcls. induction l as [| y r IH]; simpl; auto.
    destruct (lt x y) eqn:E; simpl; auto.
    simpl in IH. rewrite IH.
    destruct (P x) eqn:Px; auto.
    destruct (P y) eqn:Py; auto.
    rewrite (Hcls x y Px Py) in E. discriminate.
  Qed.

Lemma sort_reverse_stable (P : A -> bool) (l : list A) :
    (forall a b, P a = true -> P b = true -> lt a b = false) ->
    filter P (sort_reverse lt l) = filter P l.
  Proof.
    intros Hcls. induction l as [| x r IH]; simpl; auto.
    rewrite insert_desc_filter by assumption. simpl. now rewrite IH.
  Qed.

  (** Order: no element is followed by one with a greater key. *)
Hypothesis lt_asym : forall a b, lt a b = true -> lt b a = false.
Hypothesis ge_trans :
    forall a b c, lt a b = false -> lt b c = false -> lt a c = false.

Lemma insert_desc_sorted (x : A) (l : list A) :
    StronglySorted (fun a b => lt a b = false) l ->
    StronglySorted (fun a b => lt a b = false) (insert_desc lt x l).
  Proof.
    induction 1 as [| y r Hs IH Hall]; simpl.
    - constructor; constructor.
    - destruct (lt x y) eqn:E.
      + constructor; auto.
        rewrite Forall_forall in *. intros z Hz.
        apply (Permutation_in _ (insert_desc_perm x r)) in Hz.
        destruct Hz as [<- | Hz]; auto.
      + constructor; [constructor; auto |].
        constructor; auto.
        rewrite Forall_forall in *. intros z Hz. eauto.
  Qed.

Lemma sort_reverse_sorted (l : list A) :
    StronglySorted (fun a b => lt a b = false) (sort_reverse lt l).
  Proof.
    induction l as [| x r IH]; simpl; [constructor |].
    now apply insert_desc_sorted.
  Qed.
End SortFacts.

Lemma by_key_asym {A : Type} (key : A -> Q) (a b : A) :
  by_key key a b = true -> by_key key b a = false.
Proof.
  unfold by_key. rewrite Qltb_lt, Qltb_ge. apply Qlt_le_weak.
Qed.

Lemma by_key_ge_trans {A : Type} (key : A -> Q) (a b c : A) :
  by_key key a b = false -> by_key key b c = false -> by_key key a c = false.
Proof.
  unfold by_key. rewrite !Qltb_ge. intros H1 H2. now apply Qle_trans with (key b).
Qed.

(** A list sorted by [sort_reverse (by_key key)] is descending in [key]. *)
Lemma sort_reverse_by_key_desc {A : Type} (key : A -> Q) (l : list A) :
  StronglySorted (fun a b => key b <= key a) (sort_reverse (by_key key) l).
Proof.
  pose proof (sort_reverse_sorted (by_key key) (by_key_asym key)
                (by_key_ge_trans key) l) as H.
  induction H as [| x r Hs IH Hall]; constructor; auto.
  rewrite Forall_forall in *. intros z Hz. apply Qltb_ge. now apply Hall.
Qed.

(** In a descending list a strictly greater key comes first. *)
Lemma desc_positions {A : Type} (key : A -> Q) (l : list A) (i j : nat)
    (x y : A) :
  StronglySorted (fun a b => key b <= key a) l ->
  nth_error l i = Some x -> nth_error l j = Some y ->
  key y < key x -> (i < j)%nat.
Proof.
  intros Hs. revert i j. induction Hs as [| h r Hs IH Hall]; intros i j Hi Hj Hlt.
  - destruct i; discriminate.
  - destruct i as [| i], j as [| j]; simpl in *.
    + injection Hi as <-. injection Hj as <-. lra.
    + lia.
    + injection Hj as <-. apply nth_error_In in Hi.
      rewrite Forall_forall in Hall. specialize (Hall _ Hi). simpl in Hall. lra.
    + apply -> Nat.succ_lt_mono. eauto.
Qed.

Lemma firstn_incl {A : Type} (n : nat) (l : list A) (x : A) :
  In x (firstn n l) -> In x l.
Proof.
  revert l. induction n as [| n IH]; intros [| y r]; simpl; try tauto.
  intros [H | H]; auto.
Qed.

(** ** C3: the clamp *)

Lemma clamp_pass_in_unit (g : BrainGraph) :
  Forall (fun n => in_unit (Node.activation n))
         (PyDict.values (nodes (clamp_pass g))).
Proof.
  unfold clamp_pass, PyDict.values. cbn.
  rewrite map_map. apply Forall_map. apply Forall_forall. intros kn _. cbn.
  apply clamp_range.
Qed.

Lemma record_top_in_unit (g : BrainGraph) :
  Forall (fun n => in_unit (Node.activation n)) (PyDict.values (nodes g)) ->
  Forall (fun p => in_unit (snd p)) (record_top g).
Proof.
  intros H. unfold record_top. apply Forall_forall. intros p Hp.
  apply firstn_incl, sort_reverse_In, in_map_iff in Hp.
  destruct Hp as (n & <- & Hn). apply filter_In in Hn as [Hn _].
  rewrite Forall_forall in H. now apply H.
Qed.

Lemma simulate_in_unit (config : DynamicsConfig) (cur : Q) (n : nat) :
  forall (step : Z) (g : BrainGraph),
    Forall (fun r => Forall (fun p => in_unit (snd p)) (top_active r))
           (fst (simulate config cur n step g))
    /\ (n <> O ->
        Forall (fun n => in_unit (Node.activation n))
               (PyDict.values (nodes (snd (simulate config cur n step g))))).
Proof.
  induction n as [| n IH]; intros step g; simpl.
  - split; [constructor | congruence].
  - specialize (IH (step + 1)%Z (dynamics_step config cur g)).
    destruct (simulate config cur n (step + 1) (dynamics_step config cur g))
      as [records g2] eqn:E.
    simpl in *. destruct IH as [IHr IHg]. split.
    + constructor; auto. simpl. apply record_top_in_unit, clamp_pass_in_unit.
    + intros _. destruct n as [| n'].
      * simpl in E. injection E as <- <-. apply clamp_pass_in_unit.
      * apply IHg. congruence.
Qed.

(** C3.  Whatever the graph, the configuration and the curiosity modulator,
    the graph that a step of the dynamics loop leaves has every activation in
    [0, 1]; so has the graph after any positive number of steps of the loop,
    and so has every activation that a step record of [run_dynamics]
    reports. *)
Theorem clamp_invariant (config : DynamicsConfig) (curiosity_mod : Q)
    (g : BrainGraph) (k : nat) (step : Z)
    (initial_activations : PyDict.t Q) (cfg : option DynamicsConfig)
    (modulators : option (PyDict.t Q)) :
  Forall (fun n => 0 <= Node.activation n <= 1)
         (PyDict.values (nodes (dynamics_step config curiosity_mod g)))
  /\ Forall (fun n => 0 <= Node.activation n <= 1)
       (PyDict.values
          (nodes (snd (simulate config curiosity_mod (S k) step g))))
  /\ (exists r g',
        run_dynamics initial_activations cfg modulators g = (Ok r, g')
        /\ Forall (fun rec => Forall (fun p => 0 <= snd p <= 1) (top_active rec))
                  (result_steps r)).
Proof.
  split; [| split].
  - apply clamp_pass_in_unit.
  - now apply simulate_in_unit.
  - unfold run_dynamics, bind, modify, gets, ret. cbn.
    match goal with
    | |- context [simulate ?c ?m ?n ?s ?x] =>
        pose proof (simulate_in_unit c m n s x) as [H _];
        destruct (simulate c m n s x) as [records g2]
    end.
    do 2 eexists. split; [reflexivity |]. exact H.
Qed.

(** ** C6: decay toward the baseline *)

Lemma decay_pass_get (g : BrainGraph) (k : string) :
  get_node (decay_pass g) k = option_map decay_node (get_node g k).
Proof.
  unfold get_node, decay_pass. cbn.
  induction (nodes g) as [| [k' n] r IH]; simpl; auto.
  destruct (String.eqb k' k); auto.
Qed.

Section DecayRounding.
Import PrimFloat.
#[local] Set Warnings "-inexact-float".

(** C6, as stated, fails.  With [decay = 0], or with the activation at the
    baseline already, the decay pass does not move the activation strictly
    closer to the baseline.  In binary64 arithmetic, moreover, the pass
    overshoots: from activation 0.08 with baseline 0.01 and decay 1.0 it
    lands on 0.009999999999999995, below the baseline; and with the decay
    1e-17 (greater than 0) the activation 1.0 with baseline 0.0 stays at
    1.0. *)
Lemma decay_not_strict :
  (0 <= Node.decay frozen_node <= 1
   /\ ~ Qabs (Node.activation (decay_node frozen_node) - Node.baseline frozen_node)
        < Qabs (Node.activation frozen_node - Node.baseline frozen_node))
  /\ (0 <= Node.decay resting_node <= 1
      /\ ~ Qabs (Node.activation (decay_node resting_node)
                 - Node.baseline resting_node)
           < Qabs (Node.activation resting_node - Node.baseline resting_node))
  /\ ((0.01 <? 0.08)%float = true
      /\ (decay_binary64 0.08 0.01 1 <? 0.01)%float = true)
  /\ ((0 <? 1e-17)%float = true
      /\ (1e-17 <=? 1)%float = true
      /\ (decay_binary64 1 0 1e-17 =? 1)%float = true).
Proof.
  split; [| split; [| split]].
  - split; [split; discriminate |]. vm_compute. intros H. discriminate H.
  - split; [split; discriminate |]. vm_compute. intros H. discriminate H.
  - split; reflexivity.
  - repeat split; reflexivity.
Qed.

End DecayRounding.

(** C6, amended.  For a node with [decay] in [0, 1], the decay pass never
    moves the activation away from its baseline: the distance to the
    baseline does not grow, an activation above the baseline does not rise
    and one below it does not fall; an activation that is at its baseline
    stays there, and nothing moves when [decay = 0].  The baseline and the
    decay of the node are left as they were. *)
Theorem decay_toward_baseline (g : BrainGraph) (k : string) (node : Node.t) :
  get_node g k = Some node ->
  0 <= Node.decay node <= 1 ->
  exists node',
    get_node (decay_pass g) k = Some node'
    /\ Node.baseline node' = Node.baseline node
    /\ Node.decay node' = Node.decay node
    /\ Qabs (Node.activation node' - Node.baseline node)
       <= Qabs (Node.activation node - Node.baseline node)
    /\ (Node.baseline node <= Node.activation node ->
        Node.activation node' <= Node.activation node)
    /\ (Node.activation node <= Node.baseline node ->
        Node.activation node <= Node.activation node')
    /\ (Node.activation node == Node.baseline node ->
        Node.activation node' == Node.activation node)
    /\ (Node.decay node == 0 ->
        Node.activation node' == Node.activation node).
Proof.
  intros Hget [Hd0 Hd1]. exists (decay_node node).
  rewrite decay_pass_get, Hget.
  change (Node.baseline (decay_node node)) with (Node.baseline node).
  change (Node.decay (decay_node node)) with (Node.decay node).
  change (Node.activation (decay_node node))
    with (Node.activation node
          + (Node.baseline node - Node.activation node) * Node.decay node).
  set (a := Node.activation node). set (b := Node.baseline node).
  set (d := Node.decay node) in *.
  assert (Heq : a + (b - a) * d - b == (1 - d) * (a - b)) by ring.
  split; [reflexivity |]. split; [reflexivity |]. split; [reflexivity |].
  split; [| split; [| split; [| split]]]; try (intros; nra).
  rewrite Heq, Qabs_Qmult, (Qabs_pos (1 - d)) by lra.
  pose proof (Qabs_nonneg (a - b)). nra.
Qed.

Lemma decay_toward_baseline_witness :
  exists node',
    get_node (decay_pass (mkGraph [("n", Node.mk "n" concept "N" 0.9 0.1 0.05 0.3 [])]
                                  [] [] [])) "n" = Some node'
    /\ Qabs (Node.activation node' - 0.1) <= Qabs (0.9 - 0.1)
    /\ Node.activation node' <= 0.9.
Proof.
  destruct (decay_toward_baseline
              (mkGraph [("n", Node.mk "n" concept "N" 0.9 0.1 0.05 0.3 [])]
                       [] [] [])
              "n" (Node.mk "n" concept "N" 0.9 0.1 0.05 0.3 []))
    as (node' & Hg & _ & _ & Hle & Hdown & _).
  - reflexivity.
  - split; discriminate.
  - exists node'. split; [exact Hg |]. split; [exact Hle |].
    apply Hdown. discriminate.
Defined.

(** ** C4: the spread pass *)

Lemma get_node_update_same (g : BrainGraph) (k : string) (f : Node.t -> Q) :
  get_node (update_node g k f) k
  = option_map (fun n => Node.set_activation n (f n)) (get_node g k).
Proof.
  unfold update_node. destruct (get_node g k) as [n |] eqn:E; cbn.
  - unfold get_node. cbn. apply get_set_same.
  - now rewrite E.
Qed.

Lemma get_node_update_other (g : BrainGraph) (k k' : string) (f : Node.t -> Q) :
  k <> k' -> get_node (update_node g k f) k' = get_node g k'.
Proof.
  intros Hne. unfold update_node. destruct (get_node g k) as [n |]; auto.
  unfold get_node. cbn. now apply get_set_other.
Qed.

Lemma update_node_frame (g : BrainGraph) (k : string) (f : Node.t -> Q) :
  edges (update_node g k f) = edges g
  /\ _outgoing (update_node g k f) = _outgoing g
  /\ _incoming (update_node g k f) = _incoming g
  /\ PyDict.keys (nodes (update_node g k f)) = PyDict.keys (nodes g).
Proof.
  unfold update_node. destruct (get_node g k) as [n |] eqn:E; auto.
  cbn. repeat split. apply keys_set_present.
  unfold PyDict.contains. unfold get_node in E. now rewrite E.
Qed.

Lemma spread_of_spec (cur act : Q) (e : Edge.t) :
  spread_of cur act e = spec_transform cur (Edge.type e) (act * Edge.weight e).
Proof. unfold spread_of, spec_transform. now destruct (Edge.type e). Qed.

Lemma list_set_middle {A : Type} (l r : list A) (x y : A) :
  list_set (l ++ x :: r) (length l) y = l ++ y :: r.
Proof. induction l as [| z l IH]; simpl; congruence. Qed.

Lemma set_edges_same (g : BrainGraph) : set_edges g (edges g) = g.
Proof. now destruct g. Qed.

(** One iteration of the edge loop, at the position of edge [e]. *)
Lemma spread_edge_at (cur : Q) (g : BrainGraph) (deltas : PyDict.t Q)
    (done rest : list Edge.t) (e : Edge.t) :
  edges g = done ++ e :: rest ->
  spread_edge cur (g, deltas) (length done)
  = (set_edges g (done ++ spec_spread_edge cur g e :: rest),
     add_delta cur g deltas e).
Proof.
  intros He. unfold spread_edge, spec_spread_edge, add_delta, spec_edge_spread.
  rewrite He, nth_error_app2, Nat.sub_diag by lia. cbn [nth_error].
  destruct (get_node g (Edge.source_id e)) as [src |].
  - unfold Node.is_active, Qgeb.
    destruct (Qle_bool (Node.threshold src) (Node.activation src)).
    + rewrite list_set_middle, spread_of_spec. reflexivity.
    + now rewrite <- He, set_edges_same.
  - now rewrite <- He, set_edges_same.
Qed.

(** The whole edge loop: nodes are not written, every edge gets its own
    contribution, and the deltas are accumulated in edge order. *)
Lemma spread_loop_from (cur : Q) (rest : list Edge.t) :
  forall (done : list Edge.t) (g : BrainGraph) (deltas : PyDict.t Q),
    edges g = done ++ rest ->
    fold_left (spread_edge cur) (seq (length done) (length rest)) (g, deltas)
    = (set_edges g (done ++ map (spec_spread_edge cur g) rest),
       fold_left (add_delta cur g) rest deltas).
Proof.
  induction rest as [| e rest IH]; intros done g deltas He.
  - simpl. rewrite app_nil_r in *. now rewrite <- He, set_edges_same.
  - cbn [length seq fold_left map].
    rewrite (spread_edge_at cur g deltas done rest e He).
    specialize (IH (done ++ [spec_spread_edge cur g e])
                   (set_edges g (done ++ spec_spread_edge cur g e :: rest))
                   (add_delta cur g deltas e)).
    rewrite length_app, Nat.add_1_r in IH. cbn [length] in IH.
    rewrite IH by (cbn; now rewrite <- app_assoc).
    rewrite <- app_assoc. reflexivity.
Qed.

Lemma spread_loop_spec (cur : Q) (g : BrainGraph) :
  spread_loop cur g
  = (set_edges g (map (spec_spread_edge cur g) (edges g)),
     fold_left (add_delta cur g) (edges g) PyDict.empty).
Proof.
  unfold spread_loop. now rewrite (spread_loop_from cur (edges g) [] g).
Qed.

Lemma delta_get_set (d : PyDict.t Q) (k : string) (v : Q) :
  delta_get (PyDict.set d k v) k = v.
Proof. unfold delta_get. now rewrite get_set_same. Qed.

(** The delta of a target is the left-to-right sum of the spreads sent to
    it; a target that receives nothing has no entry. *)
Lemma fold_add_delta_get (cur : Q) (g : BrainGraph) (k : string)
    (es : list Edge.t) :
  forall deltas : PyDict.t Q,
    PyDict.get (fold_left (add_delta cur g) es deltas) k
    = match spreads_to cur g es k with
      | [] => PyDict.get deltas k
      | incoming => Some (fold_left Qplus incoming (delta_get deltas k))
      end.
Proof.
  induction es as [| e es IH]; intros deltas; [reflexivity |].
  cbn [fold_left spreads_to flat_map]. rewrite IH.
  fold (spreads_to cur g es k).
  unfold add_delta.
  destruct (spec_edge_spread cur g e) as [s |].
  - destruct (String.eqb (Edge.target_id e) k) eqn:E.
    + apply String.eqb_eq in E. subst k. cbn [app].
      rewrite delta_get_set, get_set_same.
      destruct (spreads_to cur g es (Edge.target_id e)); reflexivity.
    + apply String.eqb_neq in E. cbn [app].
      unfold delta_get. now rewrite get_set_other.
  - destruct (String.eqb (Edge.target_id e) k); reflexivity.
Qed.

Lemma get_not_in_keys {V : Type} (d : PyDict.t V) (k : string) :
  ~ In k (PyDict.keys d) -> PyDict.get d k = None.
Proof.
  unfold PyDict.keys. induction d as [| [k' v] r IH]; simpl; auto.
  intros H. destruct (String.eqb k' k) eqn:E.
  - apply String.eqb_eq in E. tauto.
  - apply IH. tauto.
Qed.

Lemma keys_set {V : Type} (d : PyDict.t V) (k : string) (v : V) :
  PyDict.keys (PyDict.set d k v)
  = if PyDict.contains d k then PyDict.keys d else PyDict.keys d ++ [k].
Proof.
  destruct (PyDict.contains d k) eqn:E.
  - now apply keys_set_present.
  - rewrite set_absent by now apply contains_false_get.
    unfold PyDict.keys. now rewrite map_app.
Qed.

Lemma set_NoDup {V : Type} (d : PyDict.t V) (k : string) (v : V) :
  NoDup (PyDict.keys d) -> NoDup (PyDict.keys (PyDict.set d k v)).
Proof.
  intros H. rewrite keys_set. destruct (PyDict.contains d k) eqn:E; auto.
  apply NoDup_app; auto.
  - constructor; [tauto | constructor].
  - intros x Hx [<- | []].
    destruct (In_nth_error _ _ Hx) as [i Hi].
    unfold PyDict.keys in Hx. apply in_map_iff in Hx as ((k' & v') & <- & Hin).
    unfold PyDict.contains in E.
    assert (Hg : PyDict.get d k' <> None).
    { clear -Hin. induction d as [| [k0 v0] r IH]; simpl in *; [tauto |].
      destruct (String.eqb k0 k') eqn:E0; [discriminate |].
      destruct Hin as [Hin | Hin]; auto.
      injection Hin as -> _. now rewrite String.eqb_refl in E0. }
    cbn in E. destruct (PyDict.get d k'); congruence.
Qed.

Lemma fold_add_delta_NoDup (cur : Q) (g : BrainGraph) (es : list Edge.t) :
  forall deltas : PyDict.t Q,
    NoDup (PyDict.keys deltas) ->
    NoDup (PyDict.keys (fold_left (add_delta cur g) es deltas)).
Proof.
  induction es as [| e es IH]; intros deltas H; simpl; auto.
  apply IH. unfold add_delta. destruct (spec_edge_spread cur g e); auto.
  now apply set_NoDup.
Qed.

(** Applying a delta dictionary adds to each listed node its own delta. *)
Lemma apply_deltas_get (k : string) (deltas : PyDict.t Q) :
  forall g : BrainGraph,
    NoDup (PyDict.keys deltas) ->
    get_node (apply_deltas deltas g) k
    = match PyDict.get deltas k with
      | Some delta =>
          option_map
            (fun n => Node.set_activation n (Node.activation n + delta))
            (get_node g k)
      | None => get_node g k
      end.
Proof.
  unfold apply_deltas, PyDict.items.
  induction deltas as [| [k0 d0] r IH]; intros g Hnd; [reflexivity |].
  cbn [fold_left PyDict.get]. inversion Hnd as [| ? ? Hnotin Hnd']; subst.
  rewrite IH by assumption. unfold apply_delta. cbn [fst snd].
  destruct (String.eqb k0 k) eqn:E.
  - apply String.eqb_eq in E. subst k0.
    rewrite (get_not_in_keys r k Hnotin). apply get_node_update_same.
  - apply String.eqb_neq in E. now rewrite get_node_update_other.
Qed.

Lemma apply_deltas_frame (deltas : PyDict.t Q) :
  forall g : BrainGraph,
    edges (apply_deltas deltas g) = edges g
    /\ _outgoing (apply_deltas deltas g) = _outgoing g
    /\ _incoming (apply_deltas deltas g) = _incoming g
    /\ PyDict.keys (nodes (apply_deltas deltas g)) = PyDict.keys (nodes g).
Proof.
  unfold apply_deltas, PyDict.items.
  induction deltas as [| item r IH]; intros g; [auto |].
  cbn [fold_left]. destruct (IH (apply_delta g item)) as (-> & -> & -> & ->).
  apply update_node_frame.
Qed.

(** C4.  The spread pass of the code -- one loop over the edges that fills
    the delta dictionary and the contributions, then one loop that adds the
    deltas -- computes what the specification says: every node ends with its
    activation plus the sum, in edge order, of the transformed spreads
    [source.activation * weight] of the edges that point to it and whose
    source fires, where every source is read in the graph as it is before the
    pass (after the decay pass, inside a step); nothing else of the graph
    changes but the contributions, and the curiosity modulator defaults to
    0.5. *)
Theorem spread_pass_spec (curiosity_mod : Q) (g : BrainGraph)
    (config : DynamicsConfig) (modulators : PyDict.t Q) :
  (forall k,
     get_node (spread_pass curiosity_mod g) k
     = option_map (spec_spread_node curiosity_mod g k) (get_node g k))
  /\ edges (spread_pass curiosity_mod g)
     = map (spec_spread_edge curiosity_mod g) (edges g)
  /\ PyDict.keys (nodes (spread_pass curiosity_mod g)) = PyDict.keys (nodes g)
  /\ _outgoing (spread_pass curiosity_mod g) = _outgoing g
  /\ _incoming (spread_pass curiosity_mod g) = _incoming g
  /\ dynamics_step config curiosity_mod g
     = clamp_pass (competition_pass config
                     (spread_pass curiosity_mod (decay_pass g)))
  /\ curiosity_of modulators
     = match PyDict.get modulators "curiosity" with
       | Some c => c
       | None => 0.5
       end.
Proof.
  unfold spread_pass. rewrite spread_loop_spec.
  set (deltas := fold_left (add_delta curiosity_mod g) (edges g) PyDict.empty).
  set (g1 := set_edges g (map (spec_spread_edge curiosity_mod g) (edges g))).
  destruct (apply_deltas_frame deltas g1) as (He & Ho & Hi & Hk).
  split; [| repeat split; auto].
  intros k. rewrite apply_deltas_get.
  2: { apply fold_add_delta_NoDup. constructor. }
  subst deltas. rewrite fold_add_delta_get.
  change (get_node g1 k) with (get_node g k).
  unfold spec_spread_node.
  destruct (spreads_to curiosity_mod g (edges g) k) as [| s l].
  - cbn. now destruct (get_node g k).
  - reflexivity.
Qed.

(** ** C5: competition within a category *)

Section Competition.
Variable config : DynamicsConfig.

Lemma find_combine_none (k : string) (l : list (string * Node.t)) :
  forall s : nat,
    ~ In k (map fst l) ->
    find (fun it : nat * (string * Node.t) => String.eqb (fst (snd it)) k)
         (combine (seq s (length l)) l) = None.
Proof.
  induction l as [| [k0 n0] r IH]; intros s Hnot; [reflexivity |].
  cbn in *. destruct (String.eqb k0 k) eqn:E.
  - apply String.eqb_eq in E. tauto.
  - apply IH. tauto.
Qed.

Lemma find_combine_seq (k : string) (n : Node.t) (l : list (string * Node.t)) :
  forall s j : nat,
    NoDup (map fst l) ->
    nth_error l j = Some (k, n) ->
    find (fun it : nat * (string * Node.t) => String.eqb (fst (snd it)) k)
         (combine (seq s (length l)) l) = Some ((s + j)%nat, (k, n)).
Proof.
  induction l as [| [k0 n0] r IH]; intros s j Hnd Hj.
  - destruct j; discriminate.
  - inversion Hnd as [| ? ? Hnotin Hnd']; subst. cbn.
    destruct j as [| j]; cbn in Hj.
    + injection Hj as -> ->. rewrite String.eqb_refl. now rewrite Nat.add_0_r.
    + destruct (String.eqb k0 k) eqn:E.
      * apply String.eqb_eq in E. subst k0. exfalso. apply Hnotin.
        apply nth_error_In in Hj. change k with (fst (k, n)). now apply in_map.
      * rewrite (IH (S s) j Hnd' Hj). f_equal. f_equal. lia.
Qed.

(** The suppression loop subtracts from each listed node the suppression of
    its own rank, and touches no other node. *)
Lemma suppress_fold_get (n_active : nat) (k : string)
    (l : list (string * Node.t)) :
  forall (s : nat) (g : BrainGraph),
    NoDup (map fst l) ->
    get_node (fold_left (suppress_one config n_active)
                        (combine (seq s (length l)) l) g) k
    = match find (fun it : nat * (string * Node.t) =>
                    String.eqb (fst (snd it)) k)
                 (combine (seq s (length l)) l) with
      | Some it =>
          option_map
            (fun n => Node.set_activation n
                        (Node.activation n - suppression config (fst it) n_active))
            (get_node g k)
      | None => get_node g k
      end.
Proof.
  induction l as [| [k0 n0] r IH]; intros s g Hnd; [reflexivity |].
  cbn [map fst] in Hnd. inversion Hnd as [| ? ? Hnotin Hnd']; subst.
  cbn [length seq combine fold_left find fst snd].
  rewrite IH by assumption. unfold suppress_one. cbn [fst snd].
  destruct (String.eqb k0 k) eqn:E.
  - apply String.eqb_eq in E. subst k0.
    rewrite find_combine_none by assumption. apply get_node_update_same.
  - apply String.eqb_neq in E. now rewrite get_node_update_other.
Qed.

Lemma suppress_fold_keys (n_active : nat)
    (items : list (nat * (string * Node.t))) :
  forall g : BrainGraph,
    PyDict.keys (nodes (fold_left (suppress_one config n_active) items g))
    = PyDict.keys (nodes g).
Proof.
  induction items as [| it r IH]; intros g; [reflexivity |].
  cbn [fold_left]. rewrite IH. apply update_node_frame.
Qed.

Lemma compete_type_keys (g : BrainGraph) (t : NodeType) :
  PyDict.keys (nodes (compete_type config g t)) = PyDict.keys (nodes g).
Proof.
  unfold compete_type.
  destruct (length (get_nodes_by_type g t) <=? 1)%nat; auto.
  match goal with |- context [if ?c then _ else _] => destruct c end; auto.
  apply suppress_fold_keys.
Qed.

(** Filtering a dictionary keeps its keys distinct. *)
Lemma filter_keys_NoDup {V : Type} (keep : string * V -> bool)
    (d : PyDict.t V) :
  NoDup (PyDict.keys d) -> NoDup (PyDict.keys (filter keep d)).
Proof.
  unfold PyDict.keys. induction d as [| kv r IH]; simpl; auto.
  intros Hnd. inversion Hnd as [| ? ? Hfresh Hrest]; subst.
  destruct (keep kv); simpl; auto.
  constructor; auto. rewrite in_map_iff in *.
  intros (kv' & Hk & Hin). apply Hfresh. exists kv'.
  apply filter_In in Hin. tauto.
Qed.

Lemma ranked_In (g : BrainGraph) (t : NodeType) (k : string) (n : Node.t) :
  In (k, n) (ranked g t)
  <-> In (k, n) (nodes g) /\ Node.type n = t /\ Node.is_active n = true.
Proof.
  unfold ranked, get_nodes_by_type, PyDict.items.
  rewrite sort_reverse_In, !filter_In. cbn.
  assert (NodeType_eqb (Node.type n) t = true <-> Node.type n = t)
    by (destruct (Node.type n), t; cbn; split; congruence).
  tauto.
Qed.

Lemma ranked_NoDup (g : BrainGraph) (t : NodeType) :
  NoDup (PyDict.keys (nodes g)) -> NoDup (map fst (ranked g t)).
Proof.
  intros H. unfold ranked.
  eapply Permutation_NoDup.
  - apply Permutation_map, Permutation_sym, sort_reverse_perm.
  - unfold get_nodes_by_type, PyDict.items. now do 2 apply filter_keys_NoDup.
Qed.

(** A node of another category is left alone by the pass of category [t]. *)
Lemma compete_type_other (g : BrainGraph) (t : NodeType) (k : string)
    (n : Node.t) :
  NoDup (PyDict.keys (nodes g)) ->
  get_node g k = Some n -> Node.type n <> t ->
  get_node (compete_type config g t) k = Some n.
Proof.
  intros Hnd Hget Hty. unfold compete_type.
  destruct (length (get_nodes_by_type g t) <=? 1)%nat; auto.
  match goal with |- context [if ?c then _ else _] => destruct c end; auto.
  fold (ranked g t).
  pose proof (ranked_NoDup g t Hnd) as Hr.
  destruct (ranked g t) as [| h rest] eqn:E; [exact Hget |].
  cbn [tl map] in *. inversion Hr as [| ? ? _ Hr']; subst.
  rewrite suppress_fold_get by assumption.
  rewrite find_combine_none; auto.
  intros Hin. apply in_map_iff in Hin as ((k' & n') & Hk & Hin).
  cbn in Hk. subst k'.
  assert (Hin' : In (k, n') (ranked g t)) by (rewrite E; now right).
  apply ranked_In in Hin' as (Hin' & Hty' & _).
  apply (In_get _ _ _ Hnd) in Hin'. unfold get_node in Hget. congruence.
Qed.

Lemma fold_compete_other (t : NodeType) (k : string) (n : Node.t)
    (ts : list NodeType) :
  forall g : BrainGraph,
    ~ In t ts ->
    NoDup (PyDict.keys (nodes g)) ->
    get_node g k = Some n -> Node.type n = t ->
    get_node (fold_left (compete_type config) ts g) k = Some n.
Proof.
  induction ts as [| t' ts IH]; intros g Hnot Hnd Hget Hty; [exact Hget |].
  cbn [fold_left]. apply IH.
  - intros H. apply Hnot. now right.
  - now rewrite compete_type_keys.
  - apply compete_type_other; auto. intros Heq. apply Hnot. left. congruence.
  - exact Hty.
Qed.

Lemma fold_compete_keys (ts : list NodeType) :
  forall g : BrainGraph,
    PyDict.keys (nodes (fold_left (compete_type config) ts g))
    = PyDict.keys (nodes g).
Proof.
  induction ts as [| t ts IH]; intros g; [reflexivity |].
  cbn [fold_left]. now rewrite IH, compete_type_keys.
Qed.

Lemma two_in_length {A : Type} (a b : A) (l : list A) :
  In a l -> In b l -> a <> b -> (2 <= length l)%nat.
Proof.
  destruct l as [| x [| y r]]; simpl; try tauto; try lia.
  intros [-> | []] [-> | []] H. congruence.
Qed.

Lemma suppression_zero (n : nat) : suppression config 0 n == 0.
Proof. unfold suppression, Qdiv. cbn. ring. Qed.

Lemma suppression_mono (i j n : nat) :
  0 <= inhibition_strength config -> (i <= j)%nat -> (0 < n)%nat ->
  suppression config i n <= suppression config j n.
Proof.
  intros Hs Hij Hn. unfold suppression.
  assert (inject_Z (Z.of_nat i) / inject_Z (Z.of_nat n)
          <= inject_Z (Z.of_nat j) / inject_Z (Z.of_nat n)).
  { unfold Qdiv. apply Qmult_le_compat_r.
    - rewrite <- Zle_Qle. lia.
    - apply Qinv_le_0_compat. change 0 with (inject_Z 0).
      rewrite <- Zle_Qle. lia. }
  nra.
Qed.

(** The pass of a category on one of its firing nodes: the node at rank [i]
    (from 0) among the [n] firing nodes loses [suppression config i n]. *)
Lemma compete_type_rank (g : BrainGraph) (t : NodeType) (k : string)
    (x : Node.t) (i : nat) :
  NoDup (PyDict.keys (nodes g)) ->
  (2 <= length (ranked g t))%nat ->
  nth_error (ranked g t) i = Some (k, x) ->
  exists x',
    get_node (compete_type config g t) k = Some x'
    /\ Node.type x' = Node.type x
    /\ Node.activation x'
       == Node.activation x - suppression config i (length (ranked g t)).
Proof.
  intros Hnd Hlen Hi.
  pose proof (ranked_NoDup g t Hnd) as Hr.
  assert (Hget : get_node g k = Some x).
  { apply nth_error_In, ranked_In in Hi as (Hin & _). now apply In_get. }
  unfold compete_type.
  assert (Hlen' : (2 <= length (filter (fun kn : string * Node.t =>
                                         Node.is_active (snd kn))
                                       (get_nodes_by_type g t)))%nat).
  { unfold ranked in Hlen. now rewrite sort_reverse_length in Hlen. }
  assert (Hlen'' : (2 <= length (get_nodes_by_type g t))%nat).
  { etransitivity; [exact Hlen' | apply filter_length_le]. }
  destruct (Nat.leb_spec (length (get_nodes_by_type g t)) 1); [lia |].
  match goal with
  | |- context [if (?a <=? 1)%nat then _ else _] =>
      destruct (Nat.leb_spec a 1); [lia |]
  end.
  fold (ranked g t).
  destruct (ranked g t) as [| h rest] eqn:E; [destruct i; discriminate |].
  cbn [tl map] in *. inversion Hr as [| ? ? Hnotin Hr']; subst.
  rewrite suppress_fold_get by assumption.
  destruct i as [| j]; cbn in Hi.
  - injection Hi as ->. cbn in Hnotin.
    rewrite find_combine_none by assumption.
    exists x. repeat split; auto. rewrite suppression_zero. ring.
  - rewrite (find_combine_seq k x rest 1 j Hr' Hi), Hget. cbn.
    eexists. split; [reflexivity |]. split; [reflexivity |]. cbn.
    apply Qeq_refl.
Qed.
End Competition.

Lemma VALID_TYPES_NoDup : NoDup VALID_TYPES.
Proof.
  unfold VALID_TYPES.
  repeat (constructor; [cbn; intuition discriminate |]). constructor.
Qed.

Lemma VALID_TYPES_all (t : NodeType) : In t VALID_TYPES.
Proof. destruct t; cbn; tauto. Qed.

(** C5, as stated, fails when the inhibition strength is negative: the node
    ranked second is raised above the first. *)
Lemma competition_inverts_order :
  exists x y x' y',
    get_node rivals "x" = Some x /\ get_node rivals "y" = Some y
    /\ Node.type x = Node.type y
    /\ Node.is_active x = true /\ Node.is_active y = true
    /\ Node.activation y < Node.activation x
    /\ competition_within_type boosting_config = true
    /\ get_node (competition_pass boosting_config rivals) "x" = Some x'
    /\ get_node (competition_pass boosting_config rivals) "y" = Some y'
    /\ ~ Node.activation y' <= Node.activation x'.
Proof.
  do 4 eexists.
  split; [reflexivity |]. split; [reflexivity |].
  split; [reflexivity |]. split; [reflexivity |]. split; [reflexivity |].
  split; [reflexivity |]. split; [reflexivity |].
  split; [vm_compute; reflexivity |]. split; [vm_compute; reflexivity |].
  vm_compute. intros H. apply H. reflexivity.
Qed.

(** C5, amended.  With competition enabled and a non-negative inhibition
    strength, two firing nodes of one category keep their order through the
    competition pass: if [x] has the strictly greater activation before the
    pass, it has rank [i] below the rank [j] of [y] among the [n] firing
    nodes of the category, each loses the suppression of its rank (none at
    rank 0), and [x] still has the greater activation after the pass. *)
Theorem competition_keeps_order (config : DynamicsConfig) (g : BrainGraph)
    (kx ky : string) (x y : Node.t) :
  NoDup (PyDict.keys (nodes g)) ->
  competition_within_type config = true ->
  0 <= inhibition_strength config ->
  get_node g kx = Some x -> get_node g ky = Some y ->
  Node.type x = Node.type y ->
  Node.is_active x = true -> Node.is_active y = true ->
  Node.activation y < Node.activation x ->
  exists (x' y' : Node.t) (i j n : nat),
    get_node (competition_pass config g) kx = Some x'
    /\ get_node (competition_pass config g) ky = Some y'
    /\ (i < j < n)%nat
    /\ Node.activation x' == Node.activation x - suppression config i n
    /\ Node.activation y' == Node.activation y - suppression config j n
    /\ Node.activation y' <= Node.activation x'.
Proof.
  intros Hnd Hon Hs Hx Hy Hty Hax Hay Hlt.
  unfold competition_pass. rewrite Hon.
  destruct (in_split _ _ (VALID_TYPES_all (Node.type x))) as (pre & post & Hsplit).
  pose proof VALID_TYPES_NoDup as Hvt. rewrite Hsplit in Hvt |- *.
  apply NoDup_remove_2 in Hvt.
  assert (Hpre : ~ In (Node.type x) pre) by (rewrite in_app_iff in Hvt; tauto).
  assert (Hpost : ~ In (Node.type x) post) by (rewrite in_app_iff in Hvt; tauto).
  rewrite fold_left_app. cbn [fold_left].
  set (g1 := fold_left (compete_type config) pre g).
  assert (Hnd1 : NoDup (PyDict.keys (nodes g1)))
    by (subst g1; now rewrite fold_compete_keys).
  assert (Hx1 : get_node g1 kx = Some x)
    by (subst g1; now apply fold_compete_other with (t := Node.type x)).
  assert (Hy1 : get_node g1 ky = Some y)
    by (subst g1; now apply fold_compete_other with (t := Node.type x)).
  set (t := Node.type x) in *.
  assert (Hinx : In (kx, x) (ranked g1 t))
    by (apply ranked_In; repeat split; auto; now apply get_In).
  assert (Hiny : In (ky, y) (ranked g1 t))
    by (apply ranked_In; repeat split; auto; now apply get_In).
  assert (Hne : (kx, x) <> (ky, y)) by (intros [= _ ->]; lra).
  pose proof (two_in_length _ _ _ Hinx Hiny Hne) as Hlen.
  destruct (In_nth_error _ _ Hinx) as [i Hi].
  destruct (In_nth_error _ _ Hiny) as [j Hj].
  assert (Hij : (i < j)%nat).
  { eapply (desc_positions (fun kn : string * Node.t => Node.activation (snd kn)));
      [apply sort_reverse_by_key_desc | exact Hi | exact Hj | exact Hlt]. }
  assert (Hjn : (j < length (ranked g1 t))%nat)
    by (apply nth_error_Some; congruence).
  destruct (compete_type_rank config g1 t kx x i Hnd1 Hlen Hi)
    as (x' & Hx' & Htx' & Hax').
  destruct (compete_type_rank config g1 t ky y j Hnd1 Hlen Hj)
    as (y' & Hy' & Hty' & Hay').
  set (g2 := compete_type config g1 t) in *.
  assert (Hnd2 : NoDup (PyDict.keys (nodes g2)))
    by (subst g2; now rewrite compete_type_keys).
  exists x', y', i, j, (length (ranked g1 t)).
  split; [apply fold_compete_other with (t := t); auto |].
  split; [apply fold_compete_other with (t := t); auto; congruence |].
  split; [lia |]. split; [exact Hax' |]. split; [exact Hay' |].
  rewrite Hax', Hay'.
  pose proof (suppression_mono config i j (length (ranked g1 t)) Hs) as Hm.
  assert (suppression config i (length (ranked g1 t))
          <= suppression config j (length (ranked g1 t))) by (apply Hm; lia).
  lra.
Qed.

Lemma competition_keeps_order_witness :
  exists (x' y' : Node.t),
    get_node (competition_pass default_config rivals) "x" = Some x'
    /\ get_node (competition_pass default_config rivals) "y" = Some y'
    /\ Node.activation y' <= Node.activation x'.
Proof.
  destruct (competition_keeps_order default_config rivals "x" "y"
              (Node.mk "x" concept "X" 0.9 0 0.05 0.3 [])
              (Node.mk "y" concept "Y" 0.8 0 0.05 0.3 []))
    as (x' & y' & i & j & n & Hx & Hy & _ & _ & _ & Hle).
  - repeat constructor; cbn; intuition discriminate.
  - reflexivity.
  - discriminate.
  - reflexivity.
  - reflexivity.
  - reflexivity.
  - reflexivity.
  - reflexivity.
  - reflexivity.
  - exists x', y'. auto.
Defined.

(** ** C8: goal selection *)

Lemma filter_map_snd {A B : Type} (p : B -> bool) (l : list (A * B)) :
  map snd (filter (fun x => p (snd x)) l) = filter p (map snd l).
Proof.
  induction l as [| x r IH]; simpl; auto.
  destruct (p (snd x)); simpl; now rewrite IH.
Qed.

Lemma goal_entries_code (g : BrainGraph) :
  map (fun kn : string * Node.t =>
         (Node.id (snd kn), Node.activation (snd kn)))
      (get_nodes_by_type g goal)
  = goal_entries g.
Proof.
  unfold goal_entries, get_nodes_by_type, PyDict.values, PyDict.items.
  rewrite <- filter_map_snd, map_map. reflexivity.
Qed.

Lemma select_goal_pure (g : BrainGraph) :
  select_goal g
  = (Ok (let cands := sort_reverse (by_key snd) (goal_entries g) in
         mkGoalResult cands
           (match cands with c :: _ => Some (fst c) | [] => None end)
           (match cands with c :: _ => snd c | [] => 0 end)), g).
Proof.
  unfold select_goal, bind, gets, ret, raise.
  rewrite <- goal_entries_code.
  destruct (get_nodes_by_type g goal) as [| kn r] eqn:E; [reflexivity |].
  pose proof (sort_reverse_length (by_key snd)
                (map (fun kn : string * Node.t =>
                        (Node.id (snd kn), Node.activation (snd kn)))
                     (kn :: r))) as Hlen.
  cbv zeta.
  destruct (sort_reverse _ _) as [| c cs]; [discriminate Hlen |].
  now destruct (Qltb 0 (snd c)).
Qed.

(** C8.  [select_goal] never raises and leaves the graph alone.  Its
    candidate list is the list of all goal nodes (id, activation), sorted by
    activation descending, entries of equal activation in node insertion
    order; the selected goal is the first candidate, whatever its activation
    and threshold; without goal nodes the candidate list is empty and nothing
    is selected. *)
Theorem select_goal_spec (g : BrainGraph) :
  exists cands : list (string * Q),
    select_goal g
    = (Ok (mkGoalResult cands
             (match cands with c :: _ => Some (fst c) | [] => None end)
             (match cands with c :: _ => snd c | [] => 0 end)), g)
    /\ Permutation cands (goal_entries g)
    /\ StronglySorted (fun a b => snd b <= snd a) cands
    /\ (forall a, tied_at a cands = tied_at a (goal_entries g)).
Proof.
  exists (sort_reverse (by_key snd) (goal_entries g)).
  split; [| split; [| split]].
  - apply select_goal_pure.
  - apply sort_reverse_perm.
  - apply sort_reverse_by_key_desc.
  - intros a. unfold tied_at. apply sort_reverse_stable.
    intros x y Hx Hy. apply Qeq_bool_iff in Hx, Hy.
    unfold by_key. apply Qltb_ge. rewrite Hx, Hy. apply Qle_refl.
Qed.

(** ** The motor generator reads the graph and writes nothing *)

Lemma for_each_pure {A B : Type} (f : A -> list B) (body : A -> M (list B))
    (g : BrainGraph) (l : list A) :
  (forall x, body x g = (Ok (f x), g)) ->
  for_each l body g = (Ok (flat_map f l), g).
Proof.
  intros H. induction l as [| x r IH]; [reflexivity |].
  cbn [for_each flat_map]. unfold bind. rewrite H, IH. reflexivity.
Qed.

Section MotorFacts.
Variable RNG : Type.
Variable randint : RNG -> Z -> Z -> Z * RNG.
Variable format_2f : Q -> string.

Lemma concept_candidate_pure (lexicon : Lexicon) (goal_id : string)
    (recent_set : list string) (concept_id : string) (concept_act : Q)
    (word_text : string) (g : BrainGraph) :
  concept_candidate format_2f lexicon goal_id recent_set concept_id
    concept_act word_text g
  = (Ok (concept_candidate_of format_2f lexicon goal_id recent_set g
           concept_id concept_act word_text), g).
Proof.
  unfold concept_candidate, concept_candidate_of.
  destruct (lookup_entry lexicon word_text) as [entry |]; [| reflexivity].
  unfold bind, gets, ret.
  destruct (get_node g goal_id) as [goal_node |]; [| reflexivity].
  now destruct (find _ (get_outgoing g goal_id)).
Qed.

Lemma build_candidates_pure (lexicon : Lexicon) (goal_id : string)
    (recent_set : list string) (g : BrainGraph) :
  build_candidates format_2f lexicon goal_id recent_set
    (gather_active_concepts g) g
  = (Ok (candidates_of format_2f lexicon goal_id recent_set g), g).
Proof.
  unfold build_candidates, concept_candidates, candidates_of, bind.
  rewrite (for_each_pure
             (fun item : string * Q * Q =>
                flat_map (concept_candidate_of format_2f lexicon goal_id
                            recent_set g (fst (fst item)) (snd (fst item)))
                         (get_words_for_concept lexicon (fst (fst item))))).
  - reflexivity.
  - intros item. apply for_each_pure. intros w. apply concept_candidate_pure.
Qed.

Lemma generate_response_pure (lexicon : Lexicon) (goal_id : string)
    (rng0 : RNG) (recent_words : option (list string)) (max_words : Z)
    (g : BrainGraph) :
  generate_response randint format_2f lexicon goal_id rng0 recent_words
    max_words g
  = (response_of randint format_2f lexicon goal_id rng0
       (last_n 20 (match recent_words with Some l => l | None => [] end))
       max_words g, g).
Proof.
  unfold generate_response, response_of, bind, gets.
  destruct (gather_active_concepts g) as [| a r] eqn:E; [reflexivity |].
  rewrite <- E, build_candidates_pure.
  destruct (assemble _ _ _ _); reflexivity.
Qed.
End MotorFacts.

(** ** C9, C2, C10, C1: the motor generator and the whole turn *)

Lemma map_flat_map {A B C : Type} (f : B -> C) (h : A -> list B) (l : list A) :
  map f (flat_map h l) = flat_map (fun x => map f (h x)) l.
Proof.
  induction l as [| x r IH]; simpl; auto.
  now rewrite map_app, IH.
Qed.

Section Turn.
Variable RNG : Type.
Variable randint : RNG -> Z -> Z -> Z * RNG.
Variable format_2f : Q -> string.
Variable Random : Z -> RNG.

(** C9.  [select_goal] and [generate_response] leave the graph as they found
    it, whether they return or raise: the same nodes with the same
    activation, baseline, decay, threshold and metadata, the same edges with
    the same weight and contribution, the same adjacency dictionaries. *)
Theorem goal_and_motor_frame (lexicon : Lexicon) (goal_id : string)
    (rng0 : RNG) (recent_words : option (list string)) (max_words : Z)
    (g : BrainGraph) :
  snd (select_goal g) = g
  /\ snd (generate_response randint format_2f lexicon goal_id rng0
            recent_words max_words g) = g.
Proof.
  split.
  - now rewrite select_goal_pure.
  - now rewrite generate_response_pure.
Qed.

(** With nothing to choose from, the assembly loop stops at once. *)
Lemma assemble_empty (n : nat) (max_words : Z) (p : string)
    (sel : list nat) (used : list string) (r : RNG) :
  assemble randint n max_words (mkAssembly p sel used [] r)
  = Ok (mkAssembly p sel used [] r).
Proof. destruct n; reflexivity. Qed.

(** What the motor generator does with nothing to say.  Generation never
    raises when no candidate is built, and then selects no word and draws no
    random number.  The fallback utterance is what the guard on the gathered
    concepts returns, before any candidate is built. *)
Theorem no_candidates_no_raise (lexicon : Lexicon) (goal_id : string)
    (rng0 : RNG) (recent_words : option (list string)) (max_words : Z)
    (g : BrainGraph) :
  (gather_active_concepts g = [] ->
   generate_response randint format_2f lexicon goal_id rng0 recent_words
     max_words g
   = (Ok (mkMotorResult [] [] "i am processing", rng0), g))
  /\ (candidates_of format_2f lexicon goal_id
        (last_n 20 (match recent_words with Some l => l | None => [] end)) g
      = [] ->
      exists final_text,
        generate_response randint format_2f lexicon goal_id rng0 recent_words
          max_words g
        = (Ok (mkMotorResult [] [] final_text, rng0), g)).
Proof.
  rewrite generate_response_pure. unfold response_of. split.
  - now intros ->.
  - intros ->. destruct (gather_active_concepts g); [eauto |].
    rewrite assemble_empty. cbn. eauto.
Qed.


Lemma map_factor {A B C : Type} (f : A -> B) (h : B -> C) (l1 l2 : list A) :
  map f l1 = map f l2 -> map (fun x => h (f x)) l1 = map (fun x => h (f x)) l2.
Proof. intros H. now rewrite <- !(map_map f h), H. Qed.

(** What a run resets is all that two graphs of the same structure may
    differ in. *)
Lemma reset_same (g1 g2 : BrainGraph) :
  same_initial_graph g1 g2 ->
  reset_contributions (reset_activations g1)
  = reset_contributions (reset_activations g2).
Proof.
  intros (Hn & He & Ho & Hi).
  unfold reset_contributions, reset_activations, set_edges, set_nodes. cbn.
  f_equal; auto.
  - apply (map_factor _
             (fun p : string * (string * NodeType * string * Q * Q * Q
                                * PyDict.t string) =>
                let '(k, (i, t, l, b, d, th, m)) := p in
                (k, Node.mk i t l b b d th m))) in Hn.
    exact Hn.
  - apply (map_factor _
             (fun p : string * string * EdgeType * Q =>
                let '(s, t, ty, w) := p in Edge.mk s t ty w 0)) in He.
    exact He.
Qed.

Lemma run_dynamics_same (initial_activations : PyDict.t Q)
    (config : option DynamicsConfig) (modulators : option (PyDict.t Q))
    (g1 g2 : BrainGraph) :
  same_initial_graph g1 g2 ->
  run_dynamics initial_activations config modulators g1
  = run_dynamics initial_activations config modulators g2.
Proof.
  intros H. unfold run_dynamics, bind, modify. cbn.
  now rewrite (reset_same g1 g2 H).
Qed.

(** *** A run keeps the structure of the graph *)

Lemma same_initial_graph_refl (g : BrainGraph) : same_initial_graph g g.
Proof. repeat split. Qed.

Lemma same_initial_graph_trans (g1 g2 g3 : BrainGraph) :
  same_initial_graph g1 g2 -> same_initial_graph g2 g3 ->
  same_initial_graph g1 g3.
Proof.
  intros (Hn & He & Ho & Hi) (Hn' & He' & Ho' & Hi').
  repeat split; congruence.
Qed.

Lemma set_activation_static (d : PyDict.t Node.t) (k : string) (n : Node.t)
    (a : Q) :
  PyDict.get d k = Some n ->
  map (fun kn => (fst kn, node_static (snd kn)))
      (PyDict.set d k (Node.set_activation n a))
  = map (fun kn => (fst kn, node_static (snd kn))) d.
Proof.
  induction d as [| [k' n'] r IH]; simpl; [discriminate |].
  destruct (String.eqb k' k); simpl.
  - now intros [= ->].
  - intros H. now rewrite IH.
Qed.

Lemma update_node_same (g : BrainGraph) (k : string) (f : Node.t -> Q) :
  same_initial_graph g (update_node g k f).
Proof.
  unfold update_node. destruct (get_node g k) as [n |] eqn:E.
  - repeat split. cbn. symmetry. now apply set_activation_static.
  - apply same_initial_graph_refl.
Qed.

Lemma fold_same {A : Type} (step : BrainGraph -> A -> BrainGraph)
    (l : list A) :
  (forall g a, same_initial_graph g (step g a)) ->
  forall g, same_initial_graph g (fold_left step l g).
Proof.
  intros Hstep. induction l as [| a r IH]; intros g; cbn.
  - apply same_initial_graph_refl.
  - eapply same_initial_graph_trans; [apply Hstep | apply IH].
Qed.

Lemma map_nodes_same (g : BrainGraph) (f : Node.t -> Node.t) :
  (forall n, node_static (f n) = node_static n) ->
  same_initial_graph g (set_nodes g (map (fun kn => (fst kn, f (snd kn))) (nodes g))).
Proof.
  intros H. repeat split. cbn. rewrite map_map. apply map_ext.
  intros kn. cbn. now rewrite H.
Qed.

Lemma map_edges_same (g : BrainGraph) (f : Edge.t -> Edge.t) :
  (forall e, edge_static (f e) = edge_static e) ->
  same_initial_graph g (set_edges g (map f (edges g))).
Proof.
  intros H. repeat split. cbn. rewrite map_map. apply map_ext.
  intros e. now rewrite H.
Qed.

Lemma dynamics_step_same (config : DynamicsConfig) (cur : Q) (g : BrainGraph) :
  same_initial_graph g (dynamics_step config cur g).
Proof.
  unfold dynamics_step.
  eapply same_initial_graph_trans; [apply (map_nodes_same g decay_node) |].
  { reflexivity. }
  fold (decay_pass g). set (g1 := decay_pass g).
  eapply same_initial_graph_trans with (g2 := spread_pass cur g1).
  { unfold spread_pass. rewrite spread_loop_spec.
    eapply same_initial_graph_trans;
      [apply (map_edges_same g1 (spec_spread_edge cur g1)) |].
    - intros e. unfold spec_spread_edge.
      now destruct (spec_edge_spread cur g1 e).
    - apply fold_same. intros g' item. apply update_node_same. }
  set (g2 := spread_pass cur g1).
  eapply same_initial_graph_trans with (g2 := competition_pass config g2).
  { unfold competition_pass. destruct (competition_within_type config).
    - apply fold_same. intros g' t. unfold compete_type.
      destruct (length (get_nodes_by_type g' t) <=? 1)%nat;
        [apply same_initial_graph_refl |].
      match goal with |- context [if ?c then _ else _] => destruct c end;
        [apply same_initial_graph_refl |].
      apply fold_same. intros g'' item. apply update_node_same.
    - apply same_initial_graph_refl. }
  apply (map_nodes_same _ Node.clamp). reflexivity.
Qed.

Lemma simulate_same (config : DynamicsConfig) (cur : Q) (n : nat) :
  forall (step : Z) (g : BrainGraph),
    same_initial_graph g (snd (simulate config cur n step g)).
Proof.
  induction n as [| n IH]; intros step g; cbn.
  - apply same_initial_graph_refl.
  - specialize (IH (step + 1)%Z (dynamics_step config cur g)).
    destruct (simulate config cur n (step + 1) (dynamics_step config cur g)).
    cbn in *. eapply same_initial_graph_trans; [| exact IH].
    apply dynamics_step_same.
Qed.

Lemma run_dynamics_keeps_structure (initial_activations : PyDict.t Q)
    (config : option DynamicsConfig) (modulators : option (PyDict.t Q))
    (g : BrainGraph) :
  exists r g',
    run_dynamics initial_activations config modulators g = (Ok r, g')
    /\ same_initial_graph g g'.
Proof.
  unfold run_dynamics, bind, modify, gets, ret. cbn.
  match goal with
  | |- context [simulate ?c ?m ?n ?s ?x] =>
      pose proof (simulate_same c m n s x) as H;
      destruct (simulate c m n s x) as [records g2]
  end.
  do 2 eexists. split; [reflexivity |]. cbn in H.
  eapply same_initial_graph_trans; [| exact H].
  eapply same_initial_graph_trans;
    [apply (map_nodes_same g Node.reset); reflexivity |].
  fold (reset_activations g).
  eapply same_initial_graph_trans;
    [apply (map_edges_same _ (fun e => Edge.set_contribution e 0));
     reflexivity |].
  fold (reset_contributions (reset_activations g)).
  apply fold_same. intros g' item. apply update_node_same.
Qed.

Lemma pipeline_keeps_structure (seed : Z) (lexicon : Lexicon)
    (combined_activations : PyDict.t Q) (dynamics_config : DynamicsConfig)
    (modulators : PyDict.t Q) (recent_words : list string) (g : BrainGraph) :
  same_initial_graph g
    (snd (pipeline randint format_2f Random seed lexicon combined_activations
            dynamics_config modulators recent_words g)).
Proof.
  unfold pipeline, bind.
  destruct (run_dynamics_keeps_structure combined_activations
              (Some dynamics_config) (Some modulators) g)
    as (r & g' & -> & Hsame).
  rewrite select_goal_pure, generate_response_pure.
  now destruct (response_of _ _ _ _ _ _ _ _).
Qed.

(** C1.  Two runs of the turn with the same seed, the same vocabulary,
    configuration and modulators, the same injected activations and recent
    words, on graphs with the same nodes, edges and adjacency in the same
    order -- whatever activations and contributions earlier runs left in
    them -- return the same outcome (the same step records, final
    activations, top contributing edges, goal candidates and selection,
    candidates, selected words and text, and the same state of the random
    source) and leave the same graph.  In particular a run on the graph that
    any earlier run has left equals the run on the graph as it was before
    that earlier run. *)
Theorem pipeline_deterministic (seed : Z) (lexicon : Lexicon)
    (combined_activations : PyDict.t Q) (dynamics_config : DynamicsConfig)
    (modulators : PyDict.t Q) (recent_words : list string)
    (g1 g2 : BrainGraph)
    (seed' : Z) (lexicon' : Lexicon) (combined_activations' : PyDict.t Q)
    (dynamics_config' : DynamicsConfig) (modulators' : PyDict.t Q)
    (recent_words' : list string) :
  (same_initial_graph g1 g2 ->
   pipeline randint format_2f Random seed lexicon combined_activations
     dynamics_config modulators recent_words g1
   = pipeline randint format_2f Random seed lexicon combined_activations
       dynamics_config modulators recent_words g2)
  /\ pipeline randint format_2f Random seed lexicon combined_activations
       dynamics_config modulators recent_words
       (snd (pipeline randint format_2f Random seed' lexicon'
               combined_activations' dynamics_config' modulators'
               recent_words' g1))
     = pipeline randint format_2f Random seed lexicon combined_activations
         dynamics_config modulators recent_words g1.
Proof.
  assert (Hrun : forall ga gb,
             same_initial_graph ga gb ->
             pipeline randint format_2f Random seed lexicon
               combined_activations dynamics_config modulators recent_words ga
             = pipeline randint format_2f Random seed lexicon
                 combined_activations dynamics_config modulators recent_words
                 gb).
  { intros ga gb H. unfold pipeline, bind.
    now rewrite (run_dynamics_same _ _ _ ga gb H). }
  split; [apply Hrun |].
  symmetry. apply Hrun, pipeline_keeps_structure.
Qed.
End Turn.

(** ** The theorems at work on concrete data *)

(** [simple_graph] is what the graph methods build. *)
Example simple_graph_built :
  (add_node (Node.init "n1" concept "C1" 0 0.05 0.3) ;;
   add_node (Node.init "n2" concept "C2" 0 0.05 0.3) ;;
   add_node (Node.init "n3" concept "C3" 0 0.05 0.3) ;;
   add_node (Node.init "g1" goal "Goal1" 0.1 0.05 0.2) ;;
   add_edge (Edge.mk "n1" "n2" excitatory 0.6 0) ;;
   add_edge (Edge.mk "n2" "n3" excitatory 0.5 0) ;;
   add_edge (Edge.mk "n1" "g1" causal 0.4 0)) empty_graph
  = (Ok tt, simple_graph).
Proof. reflexivity. Qed.

Lemma add_node_add_edge_contract_witness :
  snd (add_node (Node.init "n1" concept "C1" 0 0.05 0.3) simple_graph)
  = simple_graph
  /\ snd (add_edge (Edge.mk "n1" "n9" associative 0.5 0) simple_graph)
     = simple_graph.
Proof.
  destruct (add_node_add_edge_contract simple_graph
              (Node.init "n1" concept "C1" 0 0.05 0.3)
              (Edge.mk "n1" "n9" associative 0.5 0))
    as (_ & Hdup & _ & _ & Hdangling & _).
  - split; reflexivity.
  - split; [apply Hdup | apply Hdangling]; reflexivity.
Defined.

(** The turn of the dynamics tests, three steps long: the text is assembled
    from the words of the firing concepts. *)
Example turn_on_simple_graph :
  exists r g',
    pipeline lcg_randint show_2f lcg_seed 42 simple_lexicon [("n1", 0.8)]
      (mkConfig 3 0.15 true) default_modulators [] simple_graph
    = (Ok (r, 42%Z), g')
    /\ selected_goal (goal_result r) = Some "g1"
    /\ map word (selected_words (motor_result r)) = ["cold"; "lake"; "enjoy"]
    /\ final_text (motor_result r) = "cold lake enjoy".
Proof.
  do 2 eexists. split; [vm_compute; reflexivity |].
  repeat split.
Qed.

(** C2, a defect of the code.  A concept fires, the vocabulary has no word
    for it, no candidate is built, and [generate_response] returns the empty
    text instead of the fallback utterance "i am processing": the fallback is
    wired to the guard on the gathered concepts ([if not active_concepts]),
    and the path on which the candidate list comes out empty falls through to
    [' '.join] of no word. *)
Lemma no_candidates_empty_text :
  build_candidates show_2f empty_lexicon "goal_inform" []
    (gather_active_concepts lonely_graph) lonely_graph
  = (Ok [], lonely_graph)
  /\ generate_response lcg_randint show_2f empty_lexicon "goal_inform" 42%Z
       None 15 lonely_graph
     = (Ok (mkMotorResult [] [] "", 42%Z), lonely_graph)
  /\ "" <> "i am processing".
Proof.
  split; [reflexivity |]. split; [reflexivity | discriminate].
Qed.

Lemma no_candidates_no_raise_witness :
  generate_response lcg_randint show_2f simple_lexicon "goal_inform" 42%Z
    None 15 simple_graph
  = (Ok (mkMotorResult [] [] "i am processing", 42%Z), simple_graph)
  /\ exists final_text,
       generate_response lcg_randint show_2f empty_lexicon "goal_inform" 42%Z
         None 15 lonely_graph
       = (Ok (mkMotorResult [] [] final_text, 42%Z), lonely_graph).
Proof.
  split.
  - apply (no_candidates_no_raise Z lcg_randint show_2f simple_lexicon
             "goal_inform" 42%Z None 15 simple_graph).
    reflexivity.
  - apply (no_candidates_no_raise Z lcg_randint show_2f empty_lexicon
             "goal_inform" 42%Z None 15 lonely_graph).
    reflexivity.
Defined.


Lemma pipeline_deterministic_witness :
  same_initial_graph simple_graph used_graph
  /\ pipeline lcg_randint show_2f lcg_seed 42 simple_lexicon [("n1", 0.8)]
       default_config default_modulators ["cold"] simple_graph
     = pipeline lcg_randint show_2f lcg_seed 42 simple_lexicon [("n1", 0.8)]
         default_config default_modulators ["cold"] used_graph.
Proof.
  assert (H : same_initial_graph simple_graph used_graph)
    by (repeat split; reflexivity).
  split; [exact H |].
  exact (proj1 (pipeline_deterministic Z lcg_randint show_2f lcg_seed 42
                  simple_lexicon [("n1", 0.8)] default_config
                  default_modulators ["cold"] simple_graph used_graph
                  7 empty_lexicon [] default_config [] []) H).
Defined.

(** The dynamics engine, unlike the two readers, writes the graph: one step
    from [simple_graph] changes activations and contributions. *)
Example run_dynamics_writes :
  snd (run_dynamics [("n1", 0.8)] (Some (mkConfig 1 0.15 true)) None
         simple_graph)
  <> simple_graph.
Proof.
  intros H. apply (f_equal (fun g => map Edge.contribution (edges g))) in H.
  vm_compute in H. discriminate H.
Qed.

(** * Properties of the rest of the engine *)

(** ** Graphs built by the insertion methods *)

Lemma contains_In_keys {V : Type} (d : PyDict.t V) (k : string) :
  PyDict.contains d k = true <-> In k (PyDict.keys d).
Proof.
  unfold PyDict.contains, PyDict.keys.
  induction d as [| [k' v] r IH]; simpl; [split; [discriminate | tauto] |].
  destruct (String.eqb k' k) eqn:E.
  - apply String.eqb_eq in E. split; auto.
  - apply String.eqb_neq in E. rewrite IH. split; [auto | intros [H | H]; tauto].
Qed.

Lemma indexed_from_snoc {A : Type} (l : list A) (x : A) :
  forall s : nat,
    combine (seq s (length (l ++ [x]))) (l ++ [x])
    = combine (seq s (length l)) l ++ [((s + length l)%nat, x)].
Proof.
  induction l as [| y r IH]; intros s; cbn.
  - now rewrite Nat.add_0_r.
  - rewrite IH. cbn. repeat f_equal. lia.
Qed.

Lemma refs_where_snoc (p : Edge.t -> bool) (es : list Edge.t) (e : Edge.t) :
  refs_where p (es ++ [e])
  = refs_where p es ++ (if p e then [length es] else []).
Proof.
  unfold refs_where, indexed. rewrite indexed_from_snoc, filter_app, map_app.
  cbn. now destruct (p e).
Qed.

Lemma refs_where_lt (p : Edge.t -> bool) (es : list Edge.t) (i : nat) :
  In i (refs_where p es) -> (i < length es)%nat.
Proof.
  unfold refs_where, indexed. intros H.
  apply in_map_iff in H as ((j & e) & <- & H). apply filter_In in H as [H _].
  apply in_combine_l, in_seq in H. cbn. lia.
Qed.

Lemma refs_where_none (p : Edge.t -> bool) (es : list Edge.t) :
  Forall (fun e => p e = false) es -> refs_where p es = [].
Proof.
  unfold refs_where, indexed. generalize 0%nat.
  induction es as [| e r IH]; intros s H; [reflexivity |].
  inversion H as [| ? ? He Hr]; subst. cbn. rewrite He. now apply IH.
Qed.

Lemma filter_none {A : Type} (p : A -> bool) (l : list A) :
  Forall (fun x => p x = false) l -> filter p l = [].
Proof.
  induction 1 as [| x r Hx _ IH]; cbn; [reflexivity |]. now rewrite Hx.
Qed.

Lemma flat_map_agree {A B : Type} (f h : A -> list B) (l : list A) :
  (forall x, In x l -> f x = h x) -> flat_map f l = flat_map h l.
Proof.
  induction l as [| x r IH]; intros H; cbn; [reflexivity |].
  rewrite (H x) by now left. rewrite IH; [reflexivity |].
  intros y Hy. apply H. now right.
Qed.

(** Following the references of [refs_where] yields the selected edges. *)
Lemma deref_refs_where (g : BrainGraph) (p : Edge.t -> bool) :
  deref_edges g (refs_where p (edges g)) = filter p (edges g).
Proof.
  unfold deref_edges. generalize (edges g) as es. clear g.
  induction es as [| e es IH] using rev_ind; [reflexivity |].
  rewrite refs_where_snoc, flat_map_app, filter_app.
  f_equal.
  - rewrite <- IH. apply flat_map_agree. intros i Hi.
    apply refs_where_lt in Hi. now rewrite nth_error_app1.
  - cbn. destruct (p e); [| reflexivity].
    cbn. now rewrite nth_error_app2, Nat.sub_diag by lia.
Qed.

Lemma graph_inv_empty : graph_inv empty_graph.
Proof.
  split; [apply empty_graph_wf |]. split; [constructor |].
  split; [constructor |]. split; intros k refs H; discriminate H.
Qed.

Lemma graph_inv_add_node (g : BrainGraph) (node : Node.t) :
  graph_inv g -> graph_inv (snd (add_node node g)).
Proof.
  intros (Hwf & Hnd & Hcl & Hout & Hin).
  destruct (PyDict.contains (nodes g) (Node.id node)) eqn:E.
  { rewrite add_node_duplicate by assumption. repeat split; auto; apply Hwf. }
  pose proof (add_node_wf g node Hwf) as Hwf'.
  rewrite add_node_fresh in * by assumption. cbn [snd] in *.
  destruct (graph_wf_contains g Hwf (Node.id node)) as [Eo Ei].
  rewrite E in Eo, Ei.
  assert (Hfresh : forall p : Edge.t -> string,
             (forall e, endpoints_known g e ->
                        PyDict.contains (nodes g) (p e) = true) ->
             Forall (fun e => String.eqb (p e) (Node.id node) = false)
                    (edges g)).
  { intros p Hp. eapply Forall_impl; [| exact Hcl]. intros e He.
    apply String.eqb_neq. intros Heq. specialize (Hp e He). congruence. }
  split; [exact Hwf' |].
  split; [| split; [| split]]; cbn [nodes edges _outgoing _incoming].
  - unfold PyDict.keys in *. rewrite map_app. cbn.
    apply NoDup_app; auto.
    + constructor; [tauto | constructor].
    + intros x Hx [<- | []]. apply contains_In_keys in Hx. congruence.
  - eapply Forall_impl; [| exact Hcl]. intros e [Hs Ht].
    unfold endpoints_known. cbn.
    rewrite <- !set_absent by now apply contains_false_get.
    rewrite !contains_set, Hs, Ht, !orb_true_r. auto.
  - intros k refs.
    rewrite <- set_absent by now apply contains_false_get.
    destruct (String.eqb (Node.id node) k) eqn:Ek.
    + apply String.eqb_eq in Ek. subst k. rewrite get_set_same.
      intros [= <-]. symmetry. apply refs_where_none.
      apply (Hfresh Edge.source_id). now intros e [Hs _].
    + apply String.eqb_neq in Ek. rewrite get_set_other by assumption.
      apply Hout.
  - intros k refs.
    rewrite <- set_absent by now apply contains_false_get.
    destruct (String.eqb (Node.id node) k) eqn:Ek.
    + apply String.eqb_eq in Ek. subst k. rewrite get_set_same.
      intros [= <-]. symmetry. apply refs_where_none.
      apply (Hfresh Edge.target_id). now intros e [_ Ht].
    + apply String.eqb_neq in Ek. rewrite get_set_other by assumption.
      apply Hin.
Qed.

Lemma graph_inv_add_edge (g : BrainGraph) (edge : Edge.t) :
  graph_inv g -> graph_inv (snd (add_edge edge g)).
Proof.
  intros (Hwf & Hnd & Hcl & Hout & Hin).
  pose proof (add_edge_wf g edge Hwf) as Hwf'.
  destruct (PyDict.contains (nodes g) (Edge.source_id edge)) eqn:Es.
  2: { rewrite add_edge_missing_source by assumption. repeat split; auto;
       apply Hwf. }
  destruct (PyDict.contains (nodes g) (Edge.target_id edge)) eqn:Et.
  2: { rewrite add_edge_missing_target by assumption. repeat split; auto;
       apply Hwf. }
  destruct (add_edge_present g edge Hwf Es Et) as (outs & ins & Ho & Hi & E).
  rewrite E in *. cbn [snd] in *.
  split; [exact Hwf' |]. split; [exact Hnd |].
  split; [| split]; cbn [nodes edges _outgoing _incoming].
  - apply Forall_app. split; [exact Hcl |]. constructor; [| constructor].
    split; assumption.
  - intros k refs. rewrite refs_where_snoc.
    destruct (String.eqb (Edge.source_id edge) k) eqn:Ek.
    + apply String.eqb_eq in Ek. subst k. rewrite get_set_same.
      intros [= <-]. now rewrite (Hout _ _ Ho) at 1.
    + pose proof Ek as Ek'. apply String.eqb_neq in Ek'.
      rewrite get_set_other by assumption. intros H.
      rewrite app_nil_r. now apply Hout.
  - intros k refs. rewrite refs_where_snoc.
    destruct (String.eqb (Edge.target_id edge) k) eqn:Ek.
    + apply String.eqb_eq in Ek. subst k. rewrite get_set_same.
      intros [= <-]. now rewrite (Hin _ _ Hi) at 1.
    + pose proof Ek as Ek'. apply String.eqb_neq in Ek'.
      rewrite get_set_other by assumption. intros H.
      rewrite app_nil_r. now apply Hin.
Qed.

Lemma built_inv (g : BrainGraph) : built g -> graph_inv g.
Proof.
  induction 1;
    [apply graph_inv_empty | now apply graph_inv_add_node
     | now apply graph_inv_add_edge].
Qed.

(** X1.  In a graph built by [add_node] and [add_edge], the adjacency
    indices agree with the edge list: [get_outgoing(k)] is the list of the
    edges with source [k] and [get_incoming(k)] the list of the edges with
    target [k], both in insertion order (empty for an unknown id). *)
Theorem built_adjacency (g : BrainGraph) (k : string) :
  built g ->
  get_outgoing g k
  = filter (fun e => String.eqb (Edge.source_id e) k) (edges g)
  /\ get_incoming g k
     = filter (fun e => String.eqb (Edge.target_id e) k) (edges g).
Proof.
  intros Hb. destruct (built_inv g Hb) as (Hwf & _ & Hcl & Hout & Hin).
  destruct (graph_wf_contains g Hwf k) as [Eo Ei].
  unfold get_outgoing, get_incoming. split.
  - destruct (PyDict.get (_outgoing g) k) as [refs |] eqn:E.
    + rewrite (Hout k refs E). apply deref_refs_where.
    + symmetry. apply filter_none. eapply Forall_impl; [| exact Hcl].
      intros e [Hs _]. apply String.eqb_neq. intros <-.
      rewrite Hs in Eo. unfold PyDict.contains in Eo. rewrite E in Eo.
      discriminate Eo.
  - destruct (PyDict.get (_incoming g) k) as [refs |] eqn:E.
    + rewrite (Hin k refs E). apply deref_refs_where.
    + symmetry. apply filter_none. eapply Forall_impl; [| exact Hcl].
      intros e [_ Ht]. apply String.eqb_neq. intros <-.
      rewrite Ht in Ei. unfold PyDict.contains in Ei. rewrite E in Ei.
      discriminate Ei.
Qed.

Lemma simple_graph_construction :
  simple_graph
  = snd (add_edge (Edge.mk "n1" "g1" causal 0.4 0)
      (snd (add_edge (Edge.mk "n2" "n3" excitatory 0.5 0)
        (snd (add_edge (Edge.mk "n1" "n2" excitatory 0.6 0)
          (snd (add_node (Node.init "g1" goal "Goal1" 0.1 0.05 0.2)
            (snd (add_node (Node.init "n3" concept "C3" 0 0.05 0.3)
              (snd (add_node (Node.init "n2" concept "C2" 0 0.05 0.3)
                (snd (add_node (Node.init "n1" concept "C1" 0 0.05 0.3)
                   empty_graph))))))))))))).
Proof. reflexivity. Qed.

Lemma built_adjacency_witness :
  get_outgoing simple_graph "n1"
  = filter (fun e => String.eqb (Edge.source_id e) "n1") (edges simple_graph)
  /\ get_incoming simple_graph "n1"
     = filter (fun e => String.eqb (Edge.target_id e) "n1") (edges simple_graph).
Proof.
  apply (built_adjacency simple_graph "n1").
  rewrite simple_graph_construction. repeat constructor.
Defined.

Lemma get_nodes_by_type_nil (g : BrainGraph) (t : NodeType) :
  get_nodes_by_type g t = []
  <-> Forall (fun kn : string * Node.t => Node.type (snd kn) <> t) (nodes g).
Proof.
  unfold get_nodes_by_type, PyDict.items.
  induction (nodes g) as [| kn r IH]; cbn; [split; auto |].
  assert (Ht : NodeType_eqb (Node.type (snd kn)) t = true
               <-> Node.type (snd kn) = t)
    by (destruct (Node.type (snd kn)), t; cbn; split; congruence).
  destruct (NodeType_eqb (Node.type (snd kn)) t) eqn:E.
  - split; [discriminate |]. intros H. inversion H; subst. tauto.
  - rewrite IH. split.
    + intros H. constructor; auto. intros Hc. apply Ht in Hc. discriminate.
    + intros H. now inversion H.
Qed.

(** X2.  [validate] returns no problem exactly when every edge has both
    endpoints among the node ids and the graph has a goal node; it never
    raises. *)
Theorem validate_clean_iff (g : BrainGraph) :
  validate g = []
  <-> Forall (endpoints_known g) (edges g)
      /\ exists k n, In (k, n) (nodes g) /\ Node.type n = goal.
Proof.
  unfold validate.
  set (problems := fun edge : Edge.t => _ ++ _).
  assert (Herr : flat_map problems (edges g) = []
                 <-> Forall (endpoints_known g) (edges g)).
  { induction (edges g) as [| e r IH]; cbn; [split; auto |].
    split.
    - intros H. apply app_eq_nil in H as [He Hr].
      constructor; [| now apply IH]. subst problems. cbn in He.
      unfold endpoints_known.
      destruct (PyDict.contains (nodes g) (Edge.source_id e)),
        (PyDict.contains (nodes g) (Edge.target_id e)); cbn in He;
        try discriminate; auto.
    - intros H. inversion H as [| ? ? [Hs Ht] Hr]; subst.
      rewrite (proj2 IH Hr), app_nil_r. subst problems. cbn.
      now rewrite Hs, Ht. }
  destruct (get_nodes_by_type g goal) as [| kn r] eqn:E.
  - split.
    + intros H. apply app_eq_nil in H as [_ H]. discriminate H.
    + intros (_ & k & n & Hin & Hty). exfalso.
      apply get_nodes_by_type_nil in E. rewrite Forall_forall in E.
      now apply (E (k, n) Hin).
  - rewrite Herr. split; [| tauto]. intros H. split; [exact H |].
    assert (Hin : In kn (get_nodes_by_type g goal)) by (rewrite E; now left).
    unfold get_nodes_by_type, PyDict.items in Hin.
    apply filter_In in Hin as [Hin Hty]. destruct kn as [k n].
    exists k, n. split; [exact Hin |]. cbn in Hty.
    now destruct (Node.type n).
Qed.

(** X3.  A graph built by [add_node] and [add_edge] never has a dangling
    edge: the only problem [validate] can report for it is the absence of a
    goal node. *)
Theorem built_validate (g : BrainGraph) :
  built g ->
  validate g
  = match get_nodes_by_type g goal with
    | [] => ["No goal nodes defined in graph"]
    | _ :: _ => []
    end.
Proof.
  intros Hb. destruct (built_inv g Hb) as (_ & _ & Hcl & _).
  unfold validate.
  assert (Herr : forall es,
             Forall (endpoints_known g) es ->
             flat_map
               (fun edge =>
                  (if PyDict.contains (nodes g) (Edge.source_id edge) then []
                   else [("Edge references missing source: "
                          ++ Edge.source_id edge)%string])
                  ++ (if PyDict.contains (nodes g) (Edge.target_id edge)
                      then []
                      else [("Edge references missing target: "
                             ++ Edge.target_id edge)%string])) es = []).
  { induction 1 as [| e r [Hs Ht] _ IH]; [reflexivity |].
    cbn [flat_map]. now rewrite IH, Hs, Ht. }
  rewrite (Herr _ Hcl). now destruct (get_nodes_by_type g goal).
Qed.

Lemma built_validate_witness : validate simple_graph = [].
Proof.
  apply (built_validate simple_graph).
  rewrite simple_graph_construction. repeat constructor.
Defined.

(** ** The dynamics loop: contributions and the shape of the result *)

Lemma fold_edges_frame {A : Type} (step : BrainGraph -> A -> BrainGraph)
    (l : list A) :
  (forall g a, edges (step g a) = edges g) ->
  forall g, edges (fold_left step l g) = edges g.
Proof.
  intros Hstep. induction l as [| a r IH]; intros g; cbn; [reflexivity |].
  now rewrite IH, Hstep.
Qed.

Lemma competition_pass_edges (config : DynamicsConfig) (g : BrainGraph) :
  edges (competition_pass config g) = edges g.
Proof.
  unfold competition_pass. destruct (competition_within_type config); auto.
  apply fold_edges_frame. intros g' t. unfold compete_type.
  destruct (length (get_nodes_by_type g' t) <=? 1)%nat; auto.
  match goal with |- context [if ?c then _ else _] => destruct c end; auto.
  apply fold_edges_frame. intros g'' item. apply update_node_frame.
Qed.

(** The edges after one step: each with the magnitude of its own spread
    added, sources read after the decay pass. *)
Lemma dynamics_step_edges (config : DynamicsConfig) (cur : Q) (g : BrainGraph) :
  edges (dynamics_step config cur g)
  = map (spec_spread_edge cur (decay_pass g)) (edges g).
Proof.
  unfold dynamics_step. cbn [clamp_pass set_nodes edges].
  rewrite competition_pass_edges. unfold spread_pass.
  rewrite spread_loop_spec.
  destruct (apply_deltas_frame
              (fold_left (add_delta cur (decay_pass g)) (edges (decay_pass g))
                         PyDict.empty)
              (set_edges (decay_pass g)
                 (map (spec_spread_edge cur (decay_pass g))
                      (edges (decay_pass g))))) as (-> & _).
  reflexivity.
Qed.

Lemma contributions_grow_refl (es : list Edge.t) : contributions_grow es es.
Proof.
  induction es; constructor; auto. split; [reflexivity | apply Qle_refl].
Qed.

Lemma contributions_grow_trans (es1 es2 es3 : list Edge.t) :
  contributions_grow es1 es2 -> contributions_grow es2 es3 ->
  contributions_grow es1 es3.
Proof.
  intros H. revert es3.
  induction H as [| e1 e2 r1 r2 [Hs Hc] _ IH]; intros es3 H'.
  - inversion H'. constructor.
  - inversion H' as [| ? e3 ? r3 [Hs' Hc'] Hr]; subst.
    constructor; [| now apply IH].
    split; [congruence | now apply Qle_trans with (Edge.contribution e2)].
Qed.

Lemma dynamics_step_grow (config : DynamicsConfig) (cur : Q) (g : BrainGraph) :
  contributions_grow (edges g) (edges (dynamics_step config cur g)).
Proof.
  rewrite dynamics_step_edges.
  induction (edges g) as [| e r IH]; cbn; constructor; auto.
  unfold spec_spread_edge.
  destruct (spec_edge_spread cur (decay_pass g) e) as [s |].
  - split; [reflexivity |]. cbn. pose proof (Qabs_nonneg s). lra.
  - split; [reflexivity | apply Qle_refl].
Qed.

Lemma simulate_grow (config : DynamicsConfig) (cur : Q) (n : nat) :
  forall (step : Z) (g : BrainGraph),
    contributions_grow (edges g) (edges (snd (simulate config cur n step g))).
Proof.
  induction n as [| n IH]; intros step g; cbn.
  - apply contributions_grow_refl.
  - specialize (IH (step + 1)%Z (dynamics_step config cur g)).
    destruct (simulate config cur n (step + 1) (dynamics_step config cur g)).
    cbn in *. eapply contributions_grow_trans; [| exact IH].
    apply dynamics_step_grow.
Qed.

Lemma grow_from_zero (es es' : list Edge.t) :
  contributions_grow es es' ->
  Forall (fun e => 0 <= Edge.contribution e) es ->
  Forall (fun e => 0 <= Edge.contribution e) es'.
Proof.
  induction 1 as [| e e' r r' [_ Hc] _ IH]; intros H; constructor;
    inversion H; subst; auto.
  now apply Qle_trans with (Edge.contribution e).
Qed.

(** X4.  Credit assignment only ever adds: a step of the dynamics loop keeps
    every edge (same endpoints, type and weight, same position) and never
    lowers its contribution, whatever the sign of the weight; and after
    [run_dynamics], which never raises, every contribution in the graph and
    in the reported top edges is non-negative. *)
Theorem contributions_never_decrease (config : DynamicsConfig) (cur : Q)
    (g : BrainGraph) (initial_activations : PyDict.t Q)
    (cfg : option DynamicsConfig) (modulators : option (PyDict.t Q)) :
  contributions_grow (edges g) (edges (dynamics_step config cur g))
  /\ exists r g',
       run_dynamics initial_activations cfg modulators g = (Ok r, g')
       /\ Forall (fun e => 0 <= Edge.contribution e) (edges g')
       /\ Forall (fun t : string * string * EdgeType * Q => 0 <= snd t)
                 (top_contributing_edges r).
Proof.
  split; [apply dynamics_step_grow |].
  unfold run_dynamics, bind, modify, gets, ret. cbn [fst snd].
  match goal with
  | |- context [simulate ?c ?m ?n ?s ?x] =>
      pose proof (simulate_grow c m n s x) as Hg;
      destruct (simulate c m n s x) as [records g2] eqn:E
  end.
  cbn [snd] in Hg.
  assert (Hpos : Forall (fun e => 0 <= Edge.contribution e) (edges g2)).
  { apply (grow_from_zero _ _ Hg).
    unfold inject. rewrite fold_edges_frame
      by (intros; apply update_node_frame).
    cbn. apply Forall_map, Forall_forall. intros e _. cbn. apply Qle_refl. }
  do 2 eexists. split; [reflexivity |]. split; [exact Hpos |].
  unfold collect_top_edges. apply Forall_map, Forall_forall.
  intros e He. cbn. apply firstn_incl, sort_reverse_In in He.
  rewrite Forall_forall in Hpos. now apply Hpos.
Qed.

Lemma firstn_sorted {A : Type} (R : A -> A -> Prop) (n : nat) (l : list A) :
  StronglySorted R l -> StronglySorted R (firstn n l).
Proof.
  intros H. revert n. induction H as [| x r Hs IH Hall]; intros [| n]; cbn;
    try constructor; auto.
  rewrite Forall_forall in *. intros y Hy. apply Hall. eapply firstn_incl, Hy.
Qed.

Lemma map_sorted {A B : Type} (R : B -> B -> Prop) (f : A -> B) (l : list A) :
  StronglySorted (fun a b => R (f a) (f b)) l -> StronglySorted R (map f l).
Proof.
  induction 1 as [| x r Hs IH Hall]; cbn; constructor; auto.
  apply Forall_map. exact Hall.
Qed.

Lemma simulate_step_nums (config : DynamicsConfig) (cur : Q) (n : nat) :
  forall (step : Z) (g : BrainGraph),
    map step_num (fst (simulate config cur n step g))
    = map (fun i => (step + Z.of_nat i)%Z) (seq 0 n).
Proof.
  induction n as [| n IH]; intros step g; [reflexivity |].
  cbn [simulate]. specialize (IH (step + 1)%Z (dynamics_step config cur g)).
  destruct (simulate config cur n (step + 1) (dynamics_step config cur g)).
  cbn [fst map seq] in *. rewrite IH, <- seq_shift, map_map.
  f_equal.
  - cbn. lia.
  - apply map_ext. intros i. lia.
Qed.

Lemma record_top_shape (g : BrainGraph) :
  (length (record_top g) <= 8)%nat
  /\ StronglySorted (fun a b : string * Q => snd b <= snd a) (record_top g)
  /\ Forall (fun p => exists n,
                 In n (PyDict.values (nodes g))
                 /\ Node.is_active n = true
                 /\ p = (Node.id n, Node.activation n))
            (record_top g).
Proof.
  unfold record_top. split; [apply firstn_le_length |]. split.
  - apply firstn_sorted, sort_reverse_by_key_desc.
  - apply Forall_forall. intros p Hp.
    apply firstn_incl, sort_reverse_In, in_map_iff in Hp.
    destruct Hp as (n & <- & Hn). apply filter_In in Hn as [Hn Ha]. eauto.
Qed.

Lemma simulate_records_shape (config : DynamicsConfig) (cur : Q) (n : nat) :
  forall (step : Z) (g : BrainGraph),
    Forall (fun rec =>
              (length (top_active rec) <= 8)%nat
              /\ StronglySorted (fun a b : string * Q => snd b <= snd a)
                                (top_active rec))
           (fst (simulate config cur n step g)).
Proof.
  induction n as [| n IH]; intros step g; cbn; [constructor |].
  specialize (IH (step + 1)%Z (dynamics_step config cur g)).
  destruct (simulate config cur n (step + 1) (dynamics_step config cur g)).
  cbn in *. constructor; auto. cbn.
  destruct (record_top_shape (dynamics_step config cur g)) as (H1 & H2 & _).
  now split.
Qed.

(** The loop of [run_dynamics] in closed form: record [i] is taken from the
    graph after [i + 1] steps, and the graph left is the one after [n]
    steps. *)
Lemma simulate_closed_form (config : DynamicsConfig) (cur : Q) (n : nat) :
  forall (step : Z) (g : BrainGraph),
    simulate config cur n step g
    = (map (fun i =>
              mkStepRecord (step + Z.of_nat i)
                (record_top (Nat.iter (S i) (dynamics_step config cur) g)))
           (seq 0 n),
       Nat.iter n (dynamics_step config cur) g).
Proof.
  induction n as [| n IH]; intros step g; [reflexivity |].
  cbn [simulate]. rewrite IH. cbn [seq map].
  rewrite <- seq_shift, map_map, <- Nat.iter_succ_r.
  f_equal. f_equal.
  - now rewrite Z.add_0_r.
  - apply map_ext. intros i. rewrite <- Nat.iter_succ_r. f_equal. lia.
Qed.

(** Edges of equal contribution keep their order in the ranking. *)
Lemma ranking_stable (c : Q) (es : list Edge.t) :
  filter (fun e => Qeq_bool (Edge.contribution e) c)
         (sort_reverse (by_key Edge.contribution) es)
  = filter (fun e => Qeq_bool (Edge.contribution e) c) es.
Proof.
  apply sort_reverse_stable. intros x y Hx Hy.
  apply Qeq_bool_iff in Hx, Hy. apply Qltb_ge. rewrite Hx, Hy. apply Qle_refl.
Qed.

(** X5.  What [run_dynamics] returns.  There is one record per step,
    numbered from 0, none for a step count of zero or less; record [i] lists
    the firing nodes of the graph after [i + 1] steps, by activation
    descending, the first 8 of them.  The final snapshot has one entry per
    node of the graph, in node insertion order, with the activation the
    graph is left with.  The top edges are the edges of the graph that is
    left, ranked by contribution descending (edges of equal contribution in
    edge-list order), the first [min(10, number of edges)] of them, each
    given with its source, target, type and contribution. *)
Theorem run_dynamics_result_shape (initial_activations : PyDict.t Q)
    (cfg : option DynamicsConfig) (modulators : option (PyDict.t Q))
    (g : BrainGraph) :
  let config := match cfg with Some c => c | None => default_config end in
  let cur :=
    curiosity_of (match modulators with
                  | Some m => m
                  | None => default_modulators
                  end) in
  let g0 :=
    inject initial_activations (reset_contributions (reset_activations g)) in
  exists r g',
    run_dynamics initial_activations cfg modulators g = (Ok r, g')
    /\ map step_num (result_steps r)
       = map Z.of_nat
           (seq 0 (Z.to_nat (steps (match cfg with
                                    | Some c => c
                                    | None => default_config
                                    end))))
    /\ Forall (fun rec =>
                 (length (top_active rec) <= 8)%nat
                 /\ StronglySorted (fun a b : string * Q => snd b <= snd a)
                                   (top_active rec))
              (result_steps r)
    /\ final_activations r
       = map (fun kn => (fst kn, Node.activation (snd kn))) (nodes g')
    /\ PyDict.keys (final_activations r) = PyDict.keys (nodes g)
    /\ length (top_contributing_edges r) = Nat.min 10 (length (edges g))
    /\ StronglySorted
         (fun a b : string * string * EdgeType * Q => snd b <= snd a)
         (top_contributing_edges r)
    /\ g' = Nat.iter (Z.to_nat (steps config)) (dynamics_step config cur) g0
    /\ result_steps r
       = map (fun i =>
                mkStepRecord (Z.of_nat i)
                  (firstn 8
                     (sort_reverse (by_key snd)
                        (map (fun n => (Node.id n, Node.activation n))
                           (filter Node.is_active
                              (PyDict.values
                                 (nodes (Nat.iter (S i)
                                           (dynamics_step config cur)
                                           g0))))))))
             (seq 0 (Z.to_nat (steps config)))
    /\ exists ranking,
         Permutation ranking (edges g')
         /\ StronglySorted
              (fun a b => Edge.contribution b <= Edge.contribution a) ranking
         /\ (forall c,
               filter (fun e => Qeq_bool (Edge.contribution e) c) ranking
               = filter (fun e => Qeq_bool (Edge.contribution e) c) (edges g'))
         /\ top_contributing_edges r
            = map (fun e => (Edge.source_id e, Edge.target_id e, Edge.type e,
                             Edge.contribution e))
                  (firstn 10 ranking).
Proof.
  intros config cur g0.
  destruct (run_dynamics_keeps_structure initial_activations cfg modulators g)
    as (r0 & g0' & E0 & (Hn & He & _)).
  revert E0. unfold run_dynamics, bind, modify, gets, ret. cbn [fst snd].
  fold config. fold cur. fold g0.
  pose proof (simulate_step_nums config cur (Z.to_nat (steps config)) 0 g0)
    as Hnum.
  pose proof (simulate_records_shape config cur (Z.to_nat (steps config)) 0 g0)
    as Hshape.
  pose proof (simulate_closed_form config cur (Z.to_nat (steps config)) 0 g0)
    as Hclosed.
  destruct (simulate config cur (Z.to_nat (steps config)) 0 g0)
    as [records g2].
  injection Hclosed as Hrecords Hg2.
  intros [= <- <-]. cbn [fst] in *.
  do 2 eexists. split; [reflexivity |]. cbn [result_steps final_activations
                                              top_contributing_edges].
  split; [rewrite Hnum; apply map_ext; intros i; lia |].
  split; [exact Hshape |]. split; [reflexivity |].
  split; [| split; [| split; [| split; [| split]]]].
  - unfold collect_final_activations, PyDict.keys, PyDict.items.
    rewrite map_map. cbn.
    apply (f_equal (map fst)) in Hn. rewrite !map_map in Hn. cbn in Hn.
    symmetry. exact Hn.
  - unfold collect_top_edges. rewrite length_map, length_firstn.
    rewrite sort_reverse_length.
    apply (f_equal (@length _)) in He. rewrite !length_map in He.
    now rewrite He.
  - unfold collect_top_edges. apply map_sorted. cbn [snd].
    apply firstn_sorted, sort_reverse_by_key_desc.
  - exact Hg2.
  - rewrite Hrecords. apply map_ext. intros i. reflexivity.
  - exists (sort_reverse (by_key Edge.contribution) (edges g2)).
    split; [apply sort_reverse_perm |].
    split; [apply sort_reverse_by_key_desc |].
    split; [intros c; apply ranking_stable | reflexivity].
Qed.

(** ** Injection of the initial activations *)

Lemma fold_keys_frame {A : Type} (step : BrainGraph -> A -> BrainGraph)
    (l : list A) :
  (forall g a, PyDict.keys (nodes (step g a)) = PyDict.keys (nodes g)) ->
  forall g, PyDict.keys (nodes (fold_left step l g)) = PyDict.keys (nodes g).
Proof.
  intros Hstep. induction l as [| a r IH]; intros g; cbn; [reflexivity |].
  now rewrite IH, Hstep.
Qed.

(** X6.  Injection adds each mapped amount to the node of that id and caps
    the sum at 1 (there is no lower cap); an id that is not in the graph is
    ignored -- no node is created for it -- and nodes outside the mapping,
    the edges and the set of node ids are left as they were. *)
Theorem inject_spec (initial_activations : PyDict.t Q) (g : BrainGraph)
    (k : string) :
  NoDup (PyDict.keys initial_activations) ->
  get_node (inject initial_activations g) k
  = match PyDict.get initial_activations k with
    | Some value =>
        option_map
          (fun node =>
             Node.set_activation node
               (py_min 1 (Node.activation node + value)))
          (get_node g k)
    | None => get_node g k
    end
  /\ PyDict.keys (nodes (inject initial_activations g)) = PyDict.keys (nodes g)
  /\ edges (inject initial_activations g) = edges g.
Proof.
  intros Hnd. split; [| split].
  - unfold inject, PyDict.items. revert g.
    induction initial_activations as [| [k0 v0] r IH]; intros g;
      [reflexivity |].
    cbn [fold_left PyDict.get].
    cbn [PyDict.keys map fst] in Hnd.
    inversion Hnd as [| ? ? Hnotin Hnd']; subst.
    rewrite (IH Hnd'). unfold inject_one. cbn [fst snd].
    destruct (String.eqb k0 k) eqn:E.
    + apply String.eqb_eq in E. subst k0.
      rewrite (get_not_in_keys r k Hnotin). apply get_node_update_same.
    + apply String.eqb_neq in E. now rewrite get_node_update_other.
  - apply fold_keys_frame. intros g' a. apply update_node_frame.
  - apply fold_edges_frame. intros g' a. apply update_node_frame.
Qed.

Lemma inject_spec_witness :
  get_node (inject [("n1", 0.8); ("nowhere", 0.5)] simple_graph) "nowhere"
  = None
  /\ PyDict.keys (nodes (inject [("n1", 0.8); ("nowhere", 0.5)] simple_graph))
     = PyDict.keys (nodes simple_graph).
Proof.
  destruct (inject_spec [("n1", 0.8); ("nowhere", 0.5)] simple_graph "nowhere")
    as (Hget & Hkeys & _).
  - repeat constructor; cbn; intuition discriminate.
  - split; [exact Hget | exact Hkeys].
Defined.

(** ** The assembly loop of the motor generator *)

Lemma py_index_In {A : Type} (l : list A) (k : Z) (x : A) :
  py_index l k = Some x -> In x l.
Proof.
  unfold py_index. destruct (0 <=? k)%Z; [apply nth_error_In |].
  destruct (_ <=? k)%Z; [apply nth_error_In | discriminate].
Qed.

Lemma indexed_from_In {A : Type} (l : list A) (i : nat) (x : A) :
  forall s : nat,
    In (i, x) (combine (seq s (length l)) l) ->
    (s <= i)%nat /\ nth_error l (i - s) = Some x.
Proof.
  induction l as [| y r IH]; intros s; cbn; [tauto |].
  intros [[= <- <-] | H].
  - rewrite Nat.sub_diag. auto.
  - apply IH in H as [Hle Hn]. split; [lia |].
    replace (i - s)%nat with (S (i - S s)) by lia. exact Hn.
Qed.

Lemma indexed_In {A : Type} (l : list A) (i : nat) (x : A) :
  In (i, x) (indexed l) -> nth_error l i = Some x.
Proof.
  intros H. apply indexed_from_In in H as [_ H].
  now rewrite Nat.sub_0_r in H.
Qed.

Lemma halve_words (cid : string) (store : list WordCandidate) :
  map word (halve_same_concept cid store) = map word store.
Proof.
  unfold halve_same_concept. rewrite map_map. apply map_ext.
  intros c. now destruct (String.eqb (concept_id c) cid).
Qed.

(** The words behind a list of references depend on the words of the store
    only. *)
Lemma deref_words (store : list WordCandidate) (refs : list nat) :
  map word (deref_candidates store refs)
  = flat_map (fun i => match nth_error (map word store) i with
                       | Some w => [w]
                       | None => []
                       end) refs.
Proof.
  unfold deref_candidates. rewrite map_flat_map. apply flat_map_ext.
  intros i. rewrite nth_error_map. now destruct (nth_error store i).
Qed.

Lemma deref_length (store : list WordCandidate) (refs : list nat) :
  Forall (fun i => (i < length store)%nat) refs ->
  length (deref_candidates store refs) = length refs.
Proof.
  unfold deref_candidates. induction 1 as [| i r Hi _ IH]; cbn; [reflexivity |].
  apply nth_error_Some in Hi. destruct (nth_error store i); [| congruence].
  cbn. now rewrite IH.
Qed.

Lemma str_in_In (k : string) (l : list string) :
  str_in k l = true <-> In k l.
Proof.
  unfold str_in. rewrite existsb_exists. split.
  - intros (x & Hx & E). apply String.eqb_eq in E. now subst.
  - intros H. exists k. split; [exact H | apply String.eqb_refl].
Qed.

Section AssemblyFacts.
Variable RNG : Type.
Variable randint : RNG -> Z -> Z -> Z * RNG.

(** What one iteration does: it stops on an empty pool, or it selects one
    candidate whose word was not used yet. *)
Lemma assemble_step_chosen (max_words : Z) (st st' : Assembly RNG) (b : bool) :
  assemble_step randint max_words st = Ok (b, st') ->
  (b = false /\ st' = st)
  \/ exists (i : nat) (c : WordCandidate),
       nth_error (all_candidates st) i = Some c
       /\ str_in (word c) (used_words st) = false
       /\ selected st' = selected st ++ [i]
       /\ used_words st' = used_words st ++ [word c]
       /\ map word (all_candidates st') = map word (all_candidates st)
       /\ length (all_candidates st') = length (all_candidates st).
Proof.
  unfold assemble_step.
  set (unused := fun c : nat * WordCandidate =>
                   negb (str_in (word (snd c)) (used_words st))).
  set (pool := match filter _ (indexed (all_candidates st)) with
               | [] => filter unused (indexed (all_candidates st))
               | _ :: _ => _
               end).
  assert (Hpool : forall c, In c pool ->
                    In c (indexed (all_candidates st)) /\ unused c = true).
  { subst pool. intros c.
    destruct (filter _ (indexed (all_candidates st))) as [| a r] eqn:E.
    - apply filter_In.
    - rewrite <- E. rewrite filter_In. intros [H1 H2].
      apply andb_true_iff in H2. tauto. }
  destruct (sort_reverse _ pool) as [| top rest] eqn:Es.
  { intros [= <- <-]. now left. }
  set (tier := filter _ (top :: rest)).
  set (pick := if (1 <? length tier)%nat then _ else _).
  destruct (fst pick) as [chosen |] eqn:Ep; [| discriminate].
  assert (Hin : In chosen pool).
  { assert (Ht : In chosen tier).
    { subst pick. destruct (1 <? length tier)%nat.
      - destruct (randint _ _ _) as [k rng']. cbn [fst] in Ep.
        now apply py_index_In in Ep.
      - cbn [fst] in Ep. now apply py_index_In in Ep. }
    subst tier. apply filter_In in Ht as [Ht _]. rewrite <- Es in Ht.
    now apply sort_reverse_In in Ht. }
  apply Hpool in Hin as [Hidx Hun]. destruct chosen as [i c].
  apply indexed_In in Hidx. subst unused. cbn in Hun.
  apply negb_true_iff in Hun.
  intros H. right. exists i, c. cbn [fst snd] in H.
  destruct (_ || _)%bool; injection H as <- <-; cbn;
    repeat split; auto using halve_words.
  unfold halve_same_concept. now rewrite length_map.
Qed.

Lemma NoDup_snoc {A : Type} (l : list A) (x : A) :
  NoDup l -> ~ In x l -> NoDup (l ++ [x]).
Proof.
  intros Hl Hx. apply NoDup_app; auto.
  - constructor; [tauto | constructor].
  - intros y Hy [<- | []]. contradiction.
Qed.

Lemma assemble_step_inv (max_words : Z) (st st' : Assembly RNG) (b : bool) :
  assembly_inv st ->
  assemble_step randint max_words st = Ok (b, st') ->
  assembly_inv st'
  /\ (length (selected st') <= S (length (selected st)))%nat.
Proof.
  intros (Hsel & Hused & Hnd) H.
  apply assemble_step_chosen in H
    as [[_ ->] | (i & c & Hi & Hun & Hs & Hu & Hw & Hl)].
  { repeat split; auto. }
  split; [| rewrite Hs, length_app; cbn; lia].
  unfold assembly_inv. rewrite Hs, Hu, Hl. split; [| split].
  - apply Forall_app. split; [exact Hsel |]. constructor; [| constructor].
    apply nth_error_Some. congruence.
  - rewrite deref_words, Hw, flat_map_app, <- deref_words, <- Hused. cbn.
    now rewrite nth_error_map, Hi.
  - apply NoDup_snoc; auto. intros Hc. apply str_in_In in Hc. congruence.
Qed.

Lemma assemble_inv (n : nat) (max_words : Z) :
  forall st st' : Assembly RNG,
    assembly_inv st ->
    assemble randint n max_words st = Ok st' ->
    assembly_inv st'
    /\ (length (selected st') <= length (selected st) + n)%nat.
Proof.
  induction n as [| n IH]; intros st st' Hinv; cbn.
  - intros [= <-]. split; [exact Hinv | lia].
  - destruct (assemble_step randint max_words st) as [[b st1] | e] eqn:E;
      [| discriminate].
    destruct (assemble_step_inv max_words st st1 b Hinv E) as [Hinv1 Hlen].
    destruct b.
    + intros H. destruct (IH st1 st' Hinv1 H) as [Hinv' Hlen'].
      split; [exact Hinv' | lia].
    + intros [= <-]. split; [exact Hinv1 | lia].
Qed.
End AssemblyFacts.

Section MotorLimits.
Variable RNG : Type.
Variable randint : RNG -> Z -> Z -> Z * RNG.
Variable format_2f : Q -> string.
Variable Random : Z -> RNG.

Lemma assemble_step_raises (max_words : Z) (st : Assembly RNG) (e : Exc) :
  assemble_step randint max_words st = Raise e -> e = IndexError.
Proof.
  unfold assemble_step.
  destruct (sort_reverse _ _) as [| top rest]; [discriminate |].
  match goal with
  | |- context [fst ?p] => destruct (fst p) as [chosen |]
  end.
  - destruct (_ || _)%bool; discriminate.
  - intros H. congruence.
Qed.

Lemma assemble_raises (n : nat) (max_words : Z) :
  forall (st : Assembly RNG) (e : Exc),
    assemble randint n max_words st = Raise e -> e = IndexError.
Proof.
  induction n as [| n IH]; intros st e; cbn; [discriminate |].
  destruct (assemble_step randint max_words st) as [[[|] st1] | e1] eqn:E.
  - apply IH.
  - discriminate.
  - intros H. apply assemble_step_raises in E. congruence.
Qed.

(** X7.  Whatever the graph, the vocabulary and the random source, a call of
    [generate_response] that returns selects at most [max_words] words (none
    for [max_words <= 0]), no surface form twice, and its text is these
    words joined by single spaces, or the fallback utterance with no word
    selected; a call that does not return raises [IndexError]. *)
Theorem selected_words_limit (lexicon : Lexicon) (goal_id : string)
    (rng0 : RNG) (recent_words : option (list string)) (max_words : Z)
    (g : BrainGraph) :
  match fst (generate_response randint format_2f lexicon goal_id rng0
               recent_words max_words g) with
  | Ok (r, _) =>
      (length (selected_words r) <= Z.to_nat max_words)%nat
      /\ NoDup (map word (selected_words r))
      /\ (final_text r = String.concat " " (map word (selected_words r))
          \/ (selected_words r = [] /\ final_text r = "i am processing"))
  | Raise e => e = IndexError
  end.
Proof.
  rewrite generate_response_pure. cbn [fst]. unfold response_of.
  destruct (gather_active_concepts g) as [| a l].
  { cbn. repeat split; [lia | constructor | now right]. }
  cbv zeta.
  match goal with
  | |- context [assemble randint ?n ?m ?st0] =>
      destruct (assemble randint n m st0) as [st |e] eqn:E;
      [pose proof (assemble_inv RNG randint n m st0 st) as Hinv
      | now apply assemble_raises in E]
  end.
  destruct Hinv as [(Hsel & Hused & Hnd) Hlen]; [| exact E |].
  { repeat split; constructor. }
  cbn [selected_words final_text]. split; [| split].
  - rewrite deref_length by exact Hsel. cbn in Hlen. lia.
  - now rewrite <- Hused.
  - now left.
Qed.

Lemma boost_nonneg (goal_id : string) :
  0 <= match PyDict.get GOAL_CONCEPT_BOOST goal_id with
       | Some b => b
       | None => 0.1
       end.
Proof.
  unfold GOAL_CONCEPT_BOOST, PyDict.get.
  repeat match goal with
         | |- context [String.eqb ?a ?b] => destruct (String.eqb a b)
         end; lra.
Qed.

(** With no negative activation in the graph, no candidate has a negative
    score. *)
Lemma candidates_of_nonneg (lexicon : Lexicon) (goal_id : string)
    (recent_set : list string) (g : BrainGraph) :
  Forall (fun n => 0 <= Node.activation n) (PyDict.values (nodes g)) ->
  Forall (fun c => 0 <= score c)
         (candidates_of format_2f lexicon goal_id recent_set g).
Proof.
  intros Hg. rewrite Forall_forall in Hg.
  unfold candidates_of. apply Forall_app. split.
  - apply Forall_forall. intros c Hc.
    apply in_flat_map in Hc as (item & Hitem & Hc).
    apply in_flat_map in Hc as (w & _ & Hc).
    assert (Hact : 0 <= snd (fst item)).
    { apply firstn_incl in Hitem. unfold gather_active_concepts in Hitem.
      apply sort_reverse_In, in_flat_map in Hitem as (n & Hn & Hitem).
      destruct (Node.is_active n && _)%bool; [| destruct Hitem].
      destruct Hitem as [<- | []]. cbn. now apply Hg. }
    unfold concept_candidate_of in Hc.
    destruct (lookup_entry lexicon w); [| destruct Hc].
    destruct Hc as [<- | []]. cbn [score].
    pose proof (boost_nonneg goal_id) as Hb.
    set (boost := match PyDict.get GOAL_CONCEPT_BOOST goal_id with
                  | Some b => b
                  | None => 0.1
                  end) in *.
    assert (Hbase : 0 <= match get_node g goal_id with
                         | Some _ =>
                             match find (fun edge : Edge.t =>
                                           String.eqb (Edge.target_id edge)
                                                      (fst (fst item)))
                                        (get_outgoing g goal_id) with
                             | Some edge =>
                                 snd (fst item) * 0.6
                                 + boost * Qabs (Edge.weight edge)
                             | None => snd (fst item) * 0.6
                             end
                         | None => snd (fst item) * 0.6
                         end).
    { destruct (get_node g goal_id); [| lra].
      destruct (find _ _) as [edge |]; [| lra].
      pose proof (Qabs_nonneg (Edge.weight edge)). nra. }
    destruct (str_in w recent_set); lra.
  - unfold motor_candidates. apply Forall_forall. intros c Hc.
    apply in_flat_map in Hc as (n & Hn & Hc).
    destruct (Node.is_active n && _)%bool; [| destruct Hc].
    apply in_flat_map in Hc as (w & _ & Hc). unfold motor_candidate in Hc.
    destruct (lookup_entry lexicon w); [| destruct Hc].
    destruct Hc as [<- | []]. cbn [score]. specialize (Hg n Hn).
    destruct (str_in w recent_set); lra.
Qed.

Hypothesis randint_ok : randint_in_range randint.

Lemma assemble_step_ok (max_words : Z) (st : Assembly RNG) :
  Forall (fun c => 0 <= score c) (all_candidates st) ->
  exists b st',
    assemble_step randint max_words st = Ok (b, st')
    /\ Forall (fun c => 0 <= score c) (all_candidates st').
Proof.
  intros Hpos. unfold assemble_step.
  set (unused := fun c : nat * WordCandidate =>
                   negb (str_in (word (snd c)) (used_words st))).
  set (pool := match filter _ (indexed (all_candidates st)) with
               | [] => filter unused (indexed (all_candidates st))
               | _ :: _ => _
               end).
  assert (Hpool : forall c, In c pool -> In c (indexed (all_candidates st))).
  { subst pool. intros c.
    destruct (filter _ (indexed (all_candidates st))) as [| a r] eqn:E.
    - intros H. now apply filter_In in H.
    - rewrite <- E. intros H. now apply filter_In in H. }
  destruct (sort_reverse _ pool) as [| top rest] eqn:Es; [eauto |].
  assert (Htop : 0 <= score (snd top)).
  { assert (Hin : In top pool)
      by (eapply sort_reverse_In; rewrite Es; now left).
    apply Hpool in Hin. destruct top as [i c]. apply indexed_In in Hin.
    apply nth_error_In in Hin. rewrite Forall_forall in Hpos. now apply Hpos. }
  cbn [filter].
  assert (Hself : Qgeb (score (snd top)) (score (snd top) * 0.85) = true)
    by (apply Qgeb_ge; lra).
  rewrite Hself.
  set (more := filter _ rest).
  assert (Hhalve : forall cid,
             Forall (fun c => 0 <= score c)
                    (halve_same_concept cid (all_candidates st))).
  { intros cid. unfold halve_same_concept. apply Forall_map.
    eapply Forall_impl; [| exact Hpos]. intros c Hc. cbn beta in Hc |- *.
    destruct (String.eqb (concept_id c) cid); cbn [score set_score]; lra. }
  assert (Hpick : exists chosen rng',
             (if (1 <? length (top :: more))%nat
              then let (k, rng') :=
                     randint (rng st) 0%Z
                       (Z.of_nat (length (top :: more)) - 1)%Z in
                   (py_index (top :: more) k, rng')
              else (py_index (top :: more) 0%Z, rng st))
             = (Some chosen, rng')).
  { destruct (1 <? length (top :: more))%nat; [| cbn; eauto].
    pose proof (randint_ok (rng st) 0%Z
                  (Z.of_nat (length (top :: more)) - 1)%Z) as Hr.
    destruct (randint (rng st) 0%Z (Z.of_nat (length (top :: more)) - 1)%Z)
      as [k rng'].
    cbn [fst] in Hr. cbn [length] in Hr. specialize (Hr ltac:(lia)).
    unfold py_index. destruct (Z.leb_spec 0 k); [| lia].
    destruct (nth_error (top :: more) (Z.to_nat k)) as [x |] eqn:En; [eauto |].
    apply nth_error_None in En. cbn [length] in En. lia. }
  destruct Hpick as (chosen & rng' & ->). cbn [fst snd].
  destruct (_ || _)%bool; do 2 eexists; (split; [reflexivity |]); cbn; auto.
Qed.

Lemma assemble_ok (n : nat) (max_words : Z) :
  forall st : Assembly RNG,
    Forall (fun c => 0 <= score c) (all_candidates st) ->
    exists st', assemble randint n max_words st = Ok st'.
Proof.
  induction n as [| n IH]; intros st Hpos; cbn; [eauto |].
  destruct (assemble_step_ok max_words st Hpos) as (b & st1 & -> & Hpos1).
  destruct b; [now apply IH | eauto].
Qed.

Lemma response_ok (lexicon : Lexicon) (goal_id : string)
    (rng0 : RNG) (recent_words : option (list string)) (max_words : Z)
    (g : BrainGraph) :
  Forall (fun n => 0 <= Node.activation n) (PyDict.values (nodes g)) ->
  exists r rng',
    generate_response randint format_2f lexicon goal_id rng0 recent_words
      max_words g
    = (Ok (r, rng'), g).
Proof.
  intros Hg. rewrite generate_response_pure. unfold response_of.
  destruct (gather_active_concepts g); [eauto |]. cbv zeta.
  match goal with
  | |- context [assemble randint ?n ?m ?st0] =>
      destruct (assemble_ok n m st0) as [st ->]
  end.
  - cbn. now apply candidates_of_nonneg.
  - eauto.
Qed.

(** X8.  When no activation in the graph is negative (as after a dynamics
    step) and the random source keeps to its range, [generate_response]
    never raises -- the top tier is never empty and the drawn index is
    valid -- and then it returns within the word limit. *)
Theorem generate_response_no_raise (lexicon : Lexicon) (goal_id : string)
    (rng0 : RNG) (recent_words : option (list string)) (max_words : Z)
    (g : BrainGraph) :
  Forall (fun n => 0 <= Node.activation n) (PyDict.values (nodes g)) ->
  exists r rng',
    generate_response randint format_2f lexicon goal_id rng0 recent_words
      max_words g
    = (Ok (r, rng'), g).
Proof. apply response_ok. Qed.

(** X9.  A whole turn with at least one dynamics step and a random source
    that keeps to its range never raises, whatever the graph, the
    vocabulary and the inputs. *)
Theorem pipeline_no_raise (seed : Z) (lexicon : Lexicon)
    (combined_activations : PyDict.t Q) (dynamics_config : DynamicsConfig)
    (modulators : PyDict.t Q) (recent_words : list string) (g : BrainGraph) :
  (1 <= steps dynamics_config)%Z ->
  exists r rng' g',
    pipeline randint format_2f Random seed lexicon combined_activations
      dynamics_config modulators recent_words g
    = (Ok (r, rng'), g').
Proof.
  intros Hsteps. unfold pipeline, bind.
  unfold run_dynamics, bind, modify, gets, ret. cbn [fst snd].
  match goal with
  | |- context [simulate ?c ?m ?n ?s ?x] =>
      destruct (simulate_in_unit c m n s x) as [_ Hunit];
      destruct (simulate c m n s x) as [records g2]
  end.
  cbn [snd] in Hunit. rewrite select_goal_pure.
  match goal with
  | |- context [generate_response randint format_2f ?l ?gid ?r0 ?rw ?mw g2] =>
      destruct (response_ok l gid r0 rw mw g2) as (r & rng' & ->)
  end.
  - eapply Forall_impl; [| apply Hunit; lia]. intros n [H _]. exact H.
  - eauto.
Qed.
End MotorLimits.

Lemma lcg_randint_in_range : randint_in_range lcg_randint.
Proof.
  intros r a b Hab. unfold lcg_randint. cbn [fst].
  pose proof (Z.mod_pos_bound r (b - a + 1)). lia.
Qed.

Lemma generate_response_no_raise_witness :
  exists r rng',
    generate_response lcg_randint show_2f simple_lexicon "g1" 42%Z
      (Some ["cold"]) 15 used_graph
    = (Ok (r, rng'), used_graph).
Proof.
  apply (generate_response_no_raise Z lcg_randint show_2f).
  - intros r a b Hab. unfold lcg_randint. cbn [fst].
    pose proof (Z.mod_pos_bound r (b - a + 1)). lia.
  - repeat constructor; discriminate.
Defined.

Lemma pipeline_no_raise_witness :
  exists r rng' g',
    pipeline lcg_randint show_2f lcg_seed 42 simple_lexicon [("n1", 0.8)]
      default_config default_modulators ["cold"] simple_graph
    = (Ok (r, rng'), g').
Proof.
  apply (pipeline_no_raise Z lcg_randint show_2f lcg_seed).
  - intros r a b Hab. unfold lcg_randint. cbn [fst].
    pose proof (Z.mod_pos_bound r (b - a + 1)). lia.
  - cbn. lia.
Defined.

(** Without the hypothesis of X8 the call may raise: a firing node with a
    negative activation gives a negative top score, which no candidate
    reaches 85% of, and [top_tier[0]] fails. *)
Example negative_score_raises :
  generate_response lcg_randint show_2f simple_lexicon "goal_inform" 42%Z
    None 15 sunken_graph
  = (Raise IndexError, sunken_graph).
Proof. vm_compute. reflexivity. Qed.

(** ** The memory system *)

Lemma tl_skipn {A : Type} (k : nat) (l : list A) :
  tl (skipn k l) = skipn (S k) l.
Proof.
  revert l. induction k as [| k IH]; intros [| x r]; cbn; auto.
Qed.

(** Appending to a bounded list keeps the window of the last [capacity]
    entries. *)
Lemma append_bounded_window {A : Type} (capacity : Z) (history : list A)
    (x : A) :
  append_bounded capacity (last_n (Z.to_nat capacity) history) x
  = last_n (Z.to_nat capacity) (history ++ [x]).
Proof.
  unfold append_bounded, last_n.
  rewrite !length_app, length_skipn. cbn [length].
  remember (Z.to_nat capacity) as c eqn:Hcap.
  remember (length history) as L eqn:HL.
  destruct (Z.ltb_spec capacity (Z.of_nat (L - (L - c) + 1))) as [Hlt | Hge].
  - assert (Hc : (c <= L)%nat) by lia.
    destruct (Nat.eq_dec c 0) as [Hz | Hnz].
    + rewrite Hz, Nat.sub_0_r, !skipn_all2
        by (rewrite ?length_app; cbn [length]; lia).
      reflexivity.
    + replace (L + 1 - c)%nat with (S (L - c)) by lia.
      rewrite (skipn_app (S (L - c))).
      replace (S (L - c) - length history)%nat with 0%nat by lia.
      change (skipn 0 [x]) with [x]. rewrite <- tl_skipn.
      destruct (skipn (L - c) history) as [| y r] eqn:E; [| reflexivity].
      apply (f_equal (@length A)) in E. rewrite length_skipn in E.
      cbn in E. lia.
  - assert (Hc : (L < c)%nat) by lia.
    replace (L - c)%nat with 0%nat by lia.
    replace (L + 1 - c)%nat with 0%nat by lia. reflexivity.
Qed.

Lemma store_all_from (turns : list Turn) :
  forall (m : Memory) (pairs : list (string * string)) (eps : list Episode.t),
    short_term m = last_n (Z.to_nat (stm_capacity m)) pairs ->
    episodes m = last_n (Z.to_nat (episodic_capacity m)) eps ->
    let m' := store_all m turns in
    short_term m'
    = last_n (Z.to_nat (stm_capacity m))
        (pairs ++ map (fun t : Turn => (fst (fst (fst t)), snd (fst (fst t))))
                      turns)
    /\ episodes m'
       = last_n (Z.to_nat (episodic_capacity m))
           (eps ++ episodes_from (turn_counter m + 1) turns)
    /\ turn_counter m' = (turn_counter m + Z.of_nat (length turns))%Z
    /\ stm_capacity m' = stm_capacity m
    /\ episodic_capacity m' = episodic_capacity m.
Proof.
  induction turns as [| [[[u s] cs] gl] rest IH]; intros m pairs eps Hs He.
  - cbn. rewrite !app_nil_r. repeat split; auto. lia.
  - cbn [store_all fold_left map episodes_from length].
    fold (store_all (store_turn m u s cs gl) rest).
    specialize (IH (store_turn m u s cs gl) (pairs ++ [(u, s)])
                   (eps ++ [Episode.mk (turn_counter m + 1) u s cs gl])).
    cbn [store_turn stm_capacity episodic_capacity short_term episodes
         turn_counter] in IH.
    rewrite Hs, He, !append_bounded_window in IH.
    destruct (IH eq_refl eq_refl) as (H1 & H2 & H3 & H4 & H5).
    rewrite <- !app_assoc in H1, H2. cbn [app fst snd] in *.
    repeat split; auto. lia.
Qed.

(** X10.  A memory filled by [store_turn] from empty holds, in
    [short_term], the last [stm_capacity] (user, system) pairs and, in
    [episodes], the last [episodic_capacity] episodes, oldest first, for any
    capacities (nothing for a capacity of zero or less); turn ids count the
    calls from 1 and [turn_counter] is the number of calls. *)
Theorem store_turn_windows (stm episodic : Z) (turns : list Turn) :
  let m := store_all (Memory_init stm episodic) turns in
  short_term m
  = last_n (Z.to_nat stm)
      (map (fun t : Turn => (fst (fst (fst t)), snd (fst (fst t)))) turns)
  /\ episodes m = last_n (Z.to_nat episodic) (episodes_from 1 turns)
  /\ turn_counter m = Z.of_nat (length turns)
  /\ (length (short_term m) <= Z.to_nat stm)%nat
  /\ (length (episodes m) <= Z.to_nat episodic)%nat.
Proof.
  destruct (store_all_from turns (Memory_init stm episodic) [] [])
    as (H1 & H2 & H3 & _); try reflexivity.
  cbn [Memory_init stm_capacity episodic_capacity turn_counter app] in *.
  cbv zeta. rewrite H1, H2, H3.
  repeat split; unfold last_n; rewrite length_skipn; lia.
Qed.

(** *** Retrieval *)

Lemma overlap_pos (concepts ep_concepts : list string) :
  (0 < overlap concepts ep_concepts)%nat
  <-> exists c, In c concepts /\ In c ep_concepts.
Proof.
  unfold overlap. split.
  - intros H.
    destruct (nodup string_dec (filter _ concepts)) as [| c r] eqn:E;
      [cbn in H; lia |].
    assert (Hc : In c (nodup string_dec
                         (filter (fun c => str_in c ep_concepts) concepts)))
      by (rewrite E; now left).
    apply nodup_In, filter_In in Hc as [Hc1 Hc2].
    apply str_in_In in Hc2. eauto.
  - intros (c & Hc1 & Hc2).
    assert (Hc : In c (nodup string_dec
                         (filter (fun c => str_in c ep_concepts) concepts))).
    { apply nodup_In, filter_In. split; [exact Hc1 | now apply str_in_In]. }
    destruct (nodup string_dec _); [destruct Hc | cbn; lia].
Qed.

Lemma py_slice_to_incl {A : Type} (l : list A) (k : Z) (x : A) :
  In x (py_slice_to l k) -> In x l.
Proof. unfold py_slice_to. destruct (0 <=? k)%Z; apply firstn_incl. Qed.

Lemma scored_sorted {A : Type} (f : A -> Q) (l : list (Q * A)) :
  Forall (fun p => fst p = f (snd p)) l ->
  StronglySorted (fun a b : Q * A => fst b <= fst a) l ->
  StronglySorted (fun a b => f b <= f a) (map snd l).
Proof.
  intros Hall Hs. induction Hs as [| p r Hs IH Hfa]; cbn; constructor.
  - apply IH. now inversion Hall.
  - inversion Hall as [| ? ? Hp Hr]; subst. apply Forall_map.
    rewrite Forall_forall in *. intros q Hq.
    rewrite <- Hp, <- (Hr q Hq). now apply Hfa.
Qed.

(** X11.  [retrieve_relevant] returns episodes of the memory that share a
    concept with the query, best score first, at most [top_k] of them for
    [top_k >= 0]; it returns nothing for an empty memory or an empty query,
    and something whenever [top_k >= 1] and some stored episode shares a
    concept with the query. *)
Theorem retrieve_relevant_spec (m : Memory) (concepts : list string)
    (top_k : Z) :
  Forall (fun ep =>
            In ep (episodes m)
            /\ exists c, In c concepts /\ In c (Episode.concepts ep))
         (retrieve_relevant m concepts top_k)
  /\ StronglySorted
       (fun a b => episode_score m concepts b <= episode_score m concepts a)
       (retrieve_relevant m concepts top_k)
  /\ ((0 <= top_k)%Z ->
      (length (retrieve_relevant m concepts top_k) <= Z.to_nat top_k)%nat)
  /\ (episodes m = [] \/ concepts = [] ->
      retrieve_relevant m concepts top_k = [])
  /\ ((1 <= top_k)%Z ->
      (exists ep c,
          In ep (episodes m) /\ In c concepts /\ In c (Episode.concepts ep)) ->
      retrieve_relevant m concepts top_k <> []).
Proof.
  set (scored :=
         flat_map (fun ep =>
                     if (0 <? overlap concepts (Episode.concepts ep))%nat
                     then [(episode_score m concepts ep, ep)]
                     else [])
                  (episodes m)).
  assert (Hscored : forall p,
             In p scored <->
             In (snd p) (episodes m)
             /\ (0 < overlap concepts (Episode.concepts (snd p)))%nat
             /\ fst p = episode_score m concepts (snd p)).
  { intros [s ep]. subst scored. rewrite in_flat_map. cbn [fst snd]. split.
    - intros (ep' & Hin & H).
      destruct (Nat.ltb_spec 0 (overlap concepts (Episode.concepts ep')));
        [| destruct H].
      destruct H as [H | []]. injection H as <- <-. auto.
    - intros (Hin & Hov & ->). exists ep. split; [exact Hin |].
      apply Nat.ltb_lt in Hov. rewrite Hov. now left. }
  assert (Hres : retrieve_relevant m concepts top_k
                 = match episodes m, concepts with
                   | [], _ => []
                   | _, [] => []
                   | _ :: _, _ :: _ =>
                       map snd (py_slice_to (sort_reverse (by_key fst) scored)
                                            top_k)
                   end) by reflexivity.
  assert (Hsub : forall ep,
             In ep (retrieve_relevant m concepts top_k) ->
             In (episode_score m concepts ep, ep) scored).
  { intros ep. rewrite Hres.
    destruct (episodes m) as [| e0 es]; [intros [] |].
    destruct concepts as [| c0 cs]; [intros [] |].
    intros H. apply in_map_iff in H as ([s ep'] & Heq & H). cbn in Heq.
    subst ep'. apply py_slice_to_incl, sort_reverse_In in H.
    pose proof (proj1 (Hscored _) H) as (_ & _ & Hs). cbn in Hs.
    now rewrite <- Hs. }
  split; [| split; [| split; [| split]]].
  - apply Forall_forall. intros ep Hep. apply Hsub, Hscored in Hep.
    cbn in Hep. destruct Hep as (Hin & Hov & _). split; [exact Hin |].
    now apply overlap_pos.
  - rewrite Hres.
    destruct (episodes m) as [| e0 es] eqn:Ee; [constructor |].
    destruct concepts as [| c0 cs] eqn:Ec; [constructor |].
    rewrite <- Ee, <- Ec in *.
    pose proof (sort_reverse_by_key_desc fst scored) as Hsorted.
    assert (Hall : Forall (fun p : Q * Episode.t =>
                             fst p = episode_score m concepts (snd p))
                          (py_slice_to (sort_reverse (by_key fst) scored)
                                       top_k)).
    { apply Forall_forall. intros p Hp.
      apply py_slice_to_incl, sort_reverse_In, Hscored in Hp. tauto. }
    assert (Hs : StronglySorted (fun a b : Q * Episode.t => fst b <= fst a)
                   (py_slice_to (sort_reverse (by_key fst) scored) top_k)).
    { unfold py_slice_to. destruct (0 <=? top_k)%Z;
        now apply firstn_sorted. }
    now apply scored_sorted.
  - intros Hk. rewrite Hres.
    destruct (episodes m); [cbn; lia |]. destruct concepts; [cbn; lia |].
    rewrite length_map. unfold py_slice_to.
    destruct (Z.leb_spec 0 top_k); [apply firstn_le_length | lia].
  - rewrite Hres. intros [-> | ->]; [reflexivity |].
    now destruct (episodes m).
  - intros Hk (ep & c & Hin & Hc1 & Hc2). rewrite Hres.
    destruct (episodes m) as [| e0 es] eqn:Ee; [destruct Hin |].
    destruct concepts as [| c0 cs] eqn:Ec; [destruct Hc1 |].
    rewrite <- Ee, <- Ec in *.
    assert (Hp : In (episode_score m concepts ep, ep) scored).
    { apply Hscored. cbn. repeat split; auto. apply overlap_pos. eauto. }
    apply (sort_reverse_In (by_key fst)) in Hp.
    unfold py_slice_to. destruct (Z.leb_spec 0 top_k); [| lia].
    destruct (sort_reverse (by_key fst) scored) as [| p r]; [destruct Hp |].
    replace (Z.to_nat top_k) with (S (Z.to_nat top_k - 1)) by lia.
    cbn. discriminate.
Qed.

Lemma retrieve_relevant_spec_witness :
  retrieve_relevant
    (store_all (Memory_init 5 50)
       [("lakes", "water", ["c_lake"; "c_water"], "goal_inform");
        ("sports", "football", ["c_sports"], "goal_inform")])
    ["c_lake"] 3
  <> [].
Proof.
  apply (retrieve_relevant_spec
           (store_all (Memory_init 5 50)
              [("lakes", "water", ["c_lake"; "c_water"], "goal_inform");
               ("sports", "football", ["c_sports"], "goal_inform")])
           ["c_lake"] 3).
  - lia.
  - exists (Episode.mk 1 "lakes" "water" ["c_lake"; "c_water"] "goal_inform"),
      "c_lake".
    cbn. auto.
Defined.

(** *** Memory boosts *)

Lemma set_In {V : Type} (d : PyDict.t V) (k k' : string) (v v' : V) :
  In (k, v) (PyDict.set d k' v') -> (k = k' /\ v = v') \/ In (k, v) d.
Proof.
  induction d as [| [k0 v0] r IH]; cbn.
  - intros [[= <- <-] | []]. auto.
  - destruct (String.eqb k0 k') eqn:E; cbn.
    + apply String.eqb_eq in E. subst k0.
      intros [[= <- <-] | H]; auto.
    + intros [H | H]; auto. apply IH in H. tauto.
Qed.

Lemma fold_add_boost_In (cs : list string) :
  forall (b : PyDict.t Q) (k : string) (v : Q),
    (forall k v, In (k, v) b -> 0.15 <= v) ->
    In (k, v) (fold_left add_boost cs b) ->
    0.15 <= v /\ (In k cs \/ In k (PyDict.keys b)).
Proof.
  induction cs as [| c cs IH]; intros b k v Hb H; cbn in *.
  - split; [eauto |]. right. unfold PyDict.keys.
    change k with (fst (k, v)). now apply in_map.
  - apply IH in H as [Hv Hk].
    + split; [exact Hv |]. destruct Hk as [Hk | Hk]; [auto |].
      unfold add_boost in Hk. rewrite keys_set in Hk.
      destruct (PyDict.contains b c); [auto |].
      apply in_app_iff in Hk as [Hk | [<- | []]]; auto.
    + intros k1 v1 H1. unfold add_boost in H1.
      apply set_In in H1 as [[_ ->] | H1]; [| eauto].
      destruct (PyDict.get b c) as [old |] eqn:E; [| lra].
      apply get_In, Hb in E. lra.
Qed.

Lemma fold_add_boost_contains (cs : list string) (c : string) :
  forall b : PyDict.t Q,
    In c cs \/ PyDict.contains b c = true ->
    PyDict.contains (fold_left add_boost cs b) c = true.
Proof.
  induction cs as [| c0 cs IH]; intros b H; cbn.
  - destruct H as [[] | H]; exact H.
  - apply IH. unfold add_boost. rewrite contains_set.
    destruct H as [[-> | H] | H]; auto.
    + right. now rewrite String.eqb_refl.
    + right. rewrite H. apply orb_true_r.
Qed.

Lemma fold_add_boost_NoDup (cs : list string) :
  forall b : PyDict.t Q,
    NoDup (PyDict.keys b) -> NoDup (PyDict.keys (fold_left add_boost cs b)).
Proof.
  induction cs as [| c cs IH]; intros b H; cbn; auto.
  apply IH. now apply set_NoDup.
Qed.

(** X12.  Every boost that [get_memory_boost] returns lies between 0.15 and
    0.4 and belongs to a concept of a retrieved episode; every concept of a
    retrieved episode gets exactly one boost; nothing is retrieved, and no
    boost returned, from an empty memory or for an empty query. *)
Theorem memory_boost_bounds (m : Memory) (current_concepts : list string) :
  Forall (fun kv : string * Q =>
            0.15 <= snd kv <= 0.4
            /\ exists ep,
                 In ep (retrieve_relevant m current_concepts 3)
                 /\ In (fst kv) (Episode.concepts ep))
         (get_memory_boost m current_concepts)
  /\ NoDup (PyDict.keys (get_memory_boost m current_concepts))
  /\ (forall ep c,
        In ep (retrieve_relevant m current_concepts 3) ->
        In c (Episode.concepts ep) ->
        PyDict.contains (get_memory_boost m current_concepts) c = true)
  /\ (episodes m = [] \/ current_concepts = [] ->
      get_memory_boost m current_concepts = []).
Proof.
  unfold get_memory_boost.
  set (retrieved := retrieve_relevant m current_concepts 3).
  set (boosts := fold_left add_boost (flat_map Episode.concepts retrieved)
                           PyDict.empty).
  assert (Hkeys : forall d : PyDict.t Q,
             PyDict.keys (map (fun kv => (fst kv, py_min 0.4 (snd kv))) d)
             = PyDict.keys d).
  { intros d. unfold PyDict.keys. rewrite map_map. reflexivity. }
  split; [| split; [| split]].
  - apply Forall_map, Forall_forall. intros [k v] Hkv. cbn [fst snd].
    apply fold_add_boost_In in Hkv as [Hv Hk]; [| intros ? ? []].
    split.
    + destruct (py_min_spec 0.4 v) as [[H ->] | [H ->]]; lra.
    + destruct Hk as [Hk | []]. apply in_flat_map in Hk. exact Hk.
  - rewrite Hkeys. apply fold_add_boost_NoDup. constructor.
  - intros ep c Hep Hc.
    rewrite (contains_keys _ boosts) by apply Hkeys.
    apply fold_add_boost_contains. left. apply in_flat_map. eauto.
  - intros H. subst boosts retrieved.
    assert (E : retrieve_relevant m current_concepts 3 = []).
    { unfold retrieve_relevant. destruct H as [-> | ->]; [reflexivity |].
      now destruct (episodes m). }
    now rewrite E.
Qed.

Lemma memory_boost_bounds_witness :
  PyDict.contains
    (get_memory_boost
       (store_all (Memory_init 5 50)
          [("lakes", "water", ["c_lake"; "c_water"], "goal_inform")])
       ["c_lake"])
    "c_water"
  = true.
Proof.
  apply (memory_boost_bounds
           (store_all (Memory_init 5 50)
              [("lakes", "water", ["c_lake"; "c_water"], "goal_inform")])
           ["c_lake"])
    with (ep := Episode.mk 1 "lakes" "water" ["c_lake"; "c_water"]
                           "goal_inform").
  - vm_compute. auto.
  - cbn. auto.
Defined.

(** ** Building the vocabulary *)

Lemma words_or_nil_set (d : PyDict.t (list string)) (k k' : string)
    (l : list string) :
  match PyDict.get (PyDict.set d k l) k' with Some x => x | None => [] end
  = if String.eqb k k' then l
    else match PyDict.get d k' with Some x => x | None => [] end.
Proof.
  destruct (String.eqb k k') eqn:E.
  - apply String.eqb_eq in E. subst. now rewrite get_set_same.
  - apply String.eqb_neq in E. now rewrite get_set_other.
Qed.

(** Indexing an entry appends its text once per occurrence of the concept
    among its concept ids. *)
Lemma index_concepts_get (e : LexiconEntry) (cid : string) :
  forall d : PyDict.t (list string),
    match PyDict.get (index_concepts d e) cid with
    | Some l => l
    | None => []
    end
    = match PyDict.get d cid with Some l => l | None => [] end
      ++ repeat (text e) (count_occ string_dec (concept_ids e) cid).
Proof.
  unfold index_concepts. induction (concept_ids e) as [| c cs IH]; intros d.
  - cbn. now rewrite app_nil_r.
  - cbn [fold_left count_occ]. rewrite IH. unfold append_word.
    rewrite words_or_nil_set.
    destruct (string_dec c cid) as [-> | Hne].
    + rewrite String.eqb_refl. cbn [repeat]. now rewrite <- app_assoc.
    + apply String.eqb_neq in Hne. now rewrite Hne.
Qed.

(** X13.  Insertion and lookup in the vocabulary.  After [add_word(entry)],
    [lookup_word] and the motor's word-or-phrase lookup return that entry
    for its text, other words and all phrases are as before, and the text
    is appended to the word list of each of the entry's concepts (once per
    occurrence of the concept in [concept_ids], never deduplicated).  After
    [add_phrase(entry)] the same holds for [lookup_phrase], and a word of
    the same text still wins the motor's lookup. *)
Theorem add_word_add_phrase_lookup (lexicon : Lexicon) (entry : LexiconEntry) :
  lookup_word (add_word lexicon entry) (text entry) = Some entry
  /\ lookup_entry (add_word lexicon entry) (text entry) = Some entry
  /\ (forall w, w <> text entry ->
        lookup_word (add_word lexicon entry) w = lookup_word lexicon w)
  /\ (forall w,
        lookup_phrase (add_word lexicon entry) w = lookup_phrase lexicon w)
  /\ (forall cid,
        get_words_for_concept (add_word lexicon entry) cid
        = get_words_for_concept lexicon cid
          ++ repeat (text entry)
               (count_occ string_dec (concept_ids entry) cid))
  /\ lookup_phrase (add_phrase lexicon entry) (text entry) = Some entry
  /\ lookup_entry (add_phrase lexicon entry) (text entry)
     = match lookup_word lexicon (text entry) with
       | Some word_entry => Some word_entry
       | None => Some entry
       end
  /\ (forall w,
        lookup_word (add_phrase lexicon entry) w = lookup_word lexicon w)
  /\ (forall cid,
        get_words_for_concept (add_phrase lexicon entry) cid
        = get_words_for_concept lexicon cid
          ++ repeat (text entry)
               (count_occ string_dec (concept_ids entry) cid)).
Proof.
  unfold lookup_entry, lookup_word, lookup_phrase, get_words_for_concept,
    add_word, add_phrase.
  cbn [words phrases concept_to_words].
  repeat split; intros;
    rewrite ?get_set_same, ?index_concepts_get; auto.
  rewrite get_set_other by congruence. reflexivity.
Qed.

(** What [add_word] and [add_phrase] keep true of a vocabulary. *)
Lemma built_lexicon_inv (lexicon : Lexicon) :
  built_lexicon lexicon ->
  (forall w e, PyDict.get (words lexicon) w = Some e -> text e = w)
  /\ (forall w e, PyDict.get (phrases lexicon) w = Some e -> text e = w)
  /\ (forall cid w,
        In w (get_words_for_concept lexicon cid) ->
        PyDict.contains (words lexicon) w = true
        \/ PyDict.contains (phrases lexicon) w = true).
Proof.
  assert (Hget : forall (d : PyDict.t LexiconEntry) (entry : LexiconEntry),
             (forall w e, PyDict.get d w = Some e -> text e = w) ->
             forall w e,
               PyDict.get (PyDict.set d (text entry) entry) w = Some e ->
               text e = w).
  { intros d entry Hd w e. destruct (String.eqb (text entry) w) eqn:E.
    - apply String.eqb_eq in E. subst w. rewrite get_set_same.
      now intros [= <-].
    - apply String.eqb_neq in E. rewrite get_set_other by assumption.
      apply Hd. }
  assert (Hidx : forall (lx : Lexicon) (entry : LexiconEntry) (cid w : string),
             In w (match PyDict.get (index_concepts (concept_to_words lx) entry)
                                    cid with
                   | Some l => l
                   | None => []
                   end) ->
             In w (get_words_for_concept lx cid) \/ w = text entry).
  { intros lx entry cid w. rewrite index_concepts_get, in_app_iff.
    intros [H | H]; [now left | right]. now apply repeat_spec in H. }
  induction 1 as [| lx entry _ (IHw & IHp & IHc) | lx entry _ (IHw & IHp & IHc)].
  - repeat split; try discriminate. intros cid w [].
  - split; [apply Hget, IHw |]. split; [exact IHp |].
    intros cid w Hin. unfold get_words_for_concept, add_word in Hin.
    cbn [concept_to_words] in Hin. cbn [add_word words phrases].
    rewrite contains_set.
    apply Hidx in Hin as [Hin | ->].
    + apply IHc in Hin as [Hin | Hin]; [left | now right].
      rewrite Hin. apply orb_true_r.
    + left. now rewrite String.eqb_refl.
  - split; [exact IHw |]. split; [apply Hget, IHp |].
    intros cid w Hin. unfold get_words_for_concept, add_phrase in Hin.
    cbn [concept_to_words] in Hin. cbn [add_phrase words phrases].
    rewrite contains_set.
    apply Hidx in Hin as [Hin | ->].
    + apply IHc in Hin as [Hin | Hin]; [now left | right].
      rewrite Hin. apply orb_true_r.
    + right. now rewrite String.eqb_refl.
Qed.

(** X14.  In a vocabulary built by [add_word] and [add_phrase], every
    surface form listed for a concept has an entry under that very text, so
    the motor generator's lookup of a listed word never comes back empty
    (the entry found need not mention the concept: a later entry of the same
    text replaces an earlier one). *)
Theorem built_lexicon_words_have_entries (lexicon : Lexicon)
    (cid w : string) :
  built_lexicon lexicon ->
  In w (get_words_for_concept lexicon cid) ->
  exists entry, lookup_entry lexicon w = Some entry /\ text entry = w.
Proof.
  intros Hb Hin. destruct (built_lexicon_inv lexicon Hb) as (Hw & Hp & Hc).
  unfold lookup_entry, lookup_word, lookup_phrase.
  destruct (PyDict.get (words lexicon) w) as [e |] eqn:Ew; [eauto |].
  destruct (Hc cid w Hin) as [H | H].
  - unfold PyDict.contains in H. rewrite Ew in H. discriminate.
  - apply contains_true_get in H as [e He]. rewrite He. eauto.
Qed.

Lemma built_lexicon_words_have_entries_witness :
  exists entry,
    lookup_entry
      (add_word (add_phrase Lexicon_init
                   (mkEntry "p1" "twin cities" ["c_city"] "noun"))
                (mkEntry "w1" "lake" ["c_lake"; "c_water"] "noun"))
      "twin cities"
    = Some entry
    /\ text entry = "twin cities".
Proof.
  apply (built_lexicon_words_have_entries _ "c_city").
  - repeat constructor.
  - cbn. auto.
Defined.

(** ** The orchestrator's bookkeeping *)

Lemma last_n_short {A : Type} (n : nat) (l : list A) :
  (length l <= n)%nat -> last_n n l = l.
Proof.
  intros H. unfold last_n. now replace (length l - n)%nat with 0%nat by lia.
Qed.

Lemma last_n_length {A : Type} (n : nat) (l : list A) :
  length (last_n n l) = Nat.min n (length l).
Proof. unfold last_n. rewrite length_skipn. lia. Qed.

(** A shorter window of a window is a window of the whole. *)
Lemma last_n_last_n {A : Type} (m n : nat) (l : list A) :
  (m <= n)%nat -> last_n m (last_n n l) = last_n m l.
Proof.
  intros H. unfold last_n. rewrite length_skipn, skipn_skipn.
  f_equal. lia.
Qed.

(** Cutting before appending does not change the window. *)
Lemma last_n_app_window {A : Type} (n : nat) (a b : list A) :
  last_n n (last_n n a ++ b) = last_n n (a ++ b).
Proof.
  unfold last_n. rewrite !length_app, length_skipn.
  destruct (Nat.le_gt_cases (length a) n) as [Hle | Hgt].
  - replace (length a - n)%nat with 0%nat by lia.
    now rewrite Nat.sub_0_r.
  - replace (skipn (length a - n) a ++ b)
      with (skipn (length a - n) (a ++ b)).
    + rewrite skipn_skipn. f_equal. lia.
    + rewrite skipn_app.
      now replace (length a - n - length a)%nat with 0%nat by lia.
Qed.

Lemma update_recent_words_window (recent_words final_words : list string) :
  update_recent_words recent_words final_words
  = last_n 30 (recent_words ++ final_words).
Proof.
  unfold update_recent_words.
  destruct (Nat.ltb_spec 30 (length (recent_words ++ final_words)));
    [reflexivity |].
  symmetry. now apply last_n_short.
Qed.

Lemma recent_words_from (spoken : list (list string)) :
  forall said : list string,
    fold_left update_recent_words spoken (last_n 30 said)
    = last_n 30 (said ++ concat spoken).
Proof.
  induction spoken as [| turn spoken IH]; intros said; cbn [fold_left concat].
  - now rewrite app_nil_r.
  - rewrite update_recent_words_window, last_n_app_window, IH.
    now rewrite <- app_assoc.
Qed.

(** X15.  Over a whole conversation the engine's [recent_words] is the
    window of the last 30 words it has spoken, in order; it never holds more
    than 30 words, and the 20 most recent of them, which is what the motor
    generator penalises, are the last 20 words spoken in the conversation. *)
Theorem recent_words_window (spoken : list (list string)) :
  recent_words_after spoken = last_n 30 (concat spoken)
  /\ (length (recent_words_after spoken) <= 30)%nat
  /\ last_n 20 (recent_words_after spoken) = last_n 20 (concat spoken).
Proof.
  assert (E : recent_words_after spoken = last_n 30 (concat spoken))
    by apply (recent_words_from spoken []).
  rewrite E. split; [reflexivity |]. split.
  - rewrite last_n_length. lia.
  - apply last_n_last_n. lia.
Qed.

(** One update of the modulators. *)
Lemma update_modulators_step (modulators : PyDict.t Q) (raw : string)
    (c u : Q) :
  PyDict.get modulators "curiosity" = Some c ->
  PyDict.get modulators "urgency" = Some u ->
  exists c' u',
    update_modulators modulators raw
    = Some (PyDict.set (PyDict.set modulators "curiosity" c') "urgency" u')
    /\ (has_question_mark raw = true ->
        (c < 0.9 /\ c' = c + 0.1) \/ (0.9 <= c /\ c' = 1%Q))
    /\ (has_question_mark raw = false ->
        (0.25 < c /\ c' = c - 0.05) \/ (c <= 0.25 /\ c' = 0.2))
    /\ ((0.12 < u /\ u' = u - 0.02) \/ (u <= 0.12 /\ u' = 0.1)).
Proof.
  intros Hc Hu. unfold update_modulators. rewrite Hc.
  rewrite get_set_other by discriminate. rewrite Hu.
  eexists _, _. split; [reflexivity |].
  split; [| split].
  - intros ->. destruct (py_min_spec 1 (c + 0.1)) as [[H ->] | [H ->]];
      [left | right]; split; auto; lra.
  - intros ->. destruct (py_max_spec 0.2 (c - 0.05)) as [[H ->] | [H ->]];
      [left | right]; split; auto; lra.
  - destruct (py_max_spec 0.1 (u - 0.02)) as [[H ->] | [H ->]];
      [left | right]; split; auto; lra.
Qed.

(** X16.  [_update_modulators] raises (a [KeyError]) exactly when
    ['curiosity'] or ['urgency'] is missing.  Otherwise it keeps the keys and
    their order, leaves every other modulator alone, adds 0.1 to curiosity
    capped at 1.0 when the input contains a question mark and subtracts 0.05
    floored at 0.2 when it does not, and subtracts 0.02 from urgency floored
    at 0.1; so curiosity stays within [0.2, 1] once it is there, and urgency
    is at least 0.1 afterwards. *)
Theorem update_modulators_spec (modulators : PyDict.t Q) (raw : string) :
  (update_modulators modulators raw = None
   <-> PyDict.contains modulators "curiosity" = false
       \/ PyDict.contains modulators "urgency" = false)
  /\ forall updated,
       update_modulators modulators raw = Some updated ->
       PyDict.keys updated = PyDict.keys modulators
       /\ (forall k, k <> "curiosity" -> k <> "urgency" ->
             PyDict.get updated k = PyDict.get modulators k)
       /\ exists c u c' u',
            PyDict.get modulators "curiosity" = Some c
            /\ PyDict.get modulators "urgency" = Some u
            /\ PyDict.get updated "curiosity" = Some c'
            /\ PyDict.get updated "urgency" = Some u'
            /\ c' == (if has_question_mark raw
                      then (if Qltb c 0.9 then c + 0.1 else 1)
                      else (if Qltb 0.25 c then c - 0.05 else 0.2))
            /\ u' == (if Qltb 0.12 u then u - 0.02 else 0.1)
            /\ (0.2 <= c <= 1 -> 0.2 <= c' <= 1)
            /\ 0.1 <= u'.
Proof.
  split.
  - unfold update_modulators, PyDict.contains.
    destruct (PyDict.get modulators "curiosity") as [c |] eqn:Hc;
      [| intuition].
    rewrite get_set_other by discriminate.
    destruct (PyDict.get modulators "urgency") as [u |] eqn:Hu;
      intuition discriminate.
  - intros updated Hup.
    destruct (PyDict.get modulators "curiosity") as [c |] eqn:Hc;
      [| unfold update_modulators in Hup; now rewrite Hc in Hup].
    destruct (PyDict.get modulators "urgency") as [u |] eqn:Hu;
      [| unfold update_modulators in Hup; rewrite Hc in Hup;
         rewrite get_set_other in Hup by discriminate;
         now rewrite Hu in Hup].
    destruct (update_modulators_step modulators raw c u Hc Hu)
      as (c' & u' & E & Hq & Hn & Hur).
    rewrite E in Hup. injection Hup as <-.
    split; [| split].
    + rewrite !keys_set, contains_set. unfold PyDict.contains.
      rewrite Hc, Hu. reflexivity.
    + intros k H1 H2. rewrite !get_set_other by congruence. reflexivity.
    + exists c, u, c', u'. rewrite get_set_same.
      rewrite get_set_other, get_set_same by discriminate.
      repeat (split; [reflexivity |]).
      split; [| split; [| split]].
      * destruct (has_question_mark raw).
        -- destruct (Hq eq_refl) as [[H ->] | [H ->]].
           ++ apply Qltb_lt in H. now rewrite H.
           ++ apply Qltb_ge in H. now rewrite H.
        -- destruct (Hn eq_refl) as [[H ->] | [H ->]].
           ++ apply Qltb_lt in H. now rewrite H.
           ++ apply Qltb_ge in H. now rewrite H.
      * destruct Hur as [[H ->] | [H ->]].
        -- apply Qltb_lt in H. now rewrite H.
        -- apply Qltb_ge in H. now rewrite H.
      * intros Hrange. destruct (has_question_mark raw).
        -- destruct (Hq eq_refl) as [[H ->] | [H ->]]; lra.
        -- destruct (Hn eq_refl) as [[H ->] | [H ->]]; lra.
      * destruct Hur as [[H ->] | [H ->]]; lra.
Qed.

Lemma update_modulators_spec_witness :
  PyDict.keys
    [("curiosity", py_max 0.2 (0.5 - 0.05)); ("calm", 0.6);
     ("urgency", py_max 0.1 (0.3 - 0.02))]
  = PyDict.keys initial_modulators.
Proof.
  apply (proj2 (update_modulators_spec initial_modulators "hello")).
  reflexivity.
Defined.

Lemma modulators_from (inputs : list string) :
  forall c u : Q,
    0.2 <= c <= 1 -> 0.1 <= u <= 0.3 ->
    exists c' u',
      fold_left (fun state raw =>
                   match state with
                   | Some modulators => update_modulators modulators raw
                   | None => None
                   end)
                inputs
                (Some [("curiosity", c); ("calm", 0.6); ("urgency", u)])
      = Some [("curiosity", c'); ("calm", 0.6); ("urgency", u')]
      /\ 0.2 <= c' <= 1 /\ 0.1 <= u' <= 0.3.
Proof.
  induction inputs as [| raw inputs IH]; intros c u Hc Hu; cbn [fold_left].
  - eauto.
  - destruct (update_modulators_step
                [("curiosity", c); ("calm", 0.6); ("urgency", u)] raw c u
                eq_refl eq_refl)
      as (c1 & u1 & E & Hq & Hn & Hur).
    rewrite E.
    replace (PyDict.set
               (PyDict.set [("curiosity", c); ("calm", 0.6); ("urgency", u)]
                           "curiosity" c1)
               "urgency" u1)
      with [("curiosity", c1); ("calm", 0.6); ("urgency", u1)]
      by reflexivity.
    apply IH.
    + destruct (has_question_mark raw).
      * destruct (Hq eq_refl) as [[H ->] | [H ->]]; lra.
      * destruct (Hn eq_refl) as [[H ->] | [H ->]]; lra.
    + destruct Hur as [[H ->] | [H ->]]; lra.
Qed.

(** X17.  Whatever the user types over a conversation, updating the
    modulators of a new engine never raises, and the modulators handed to the
    dynamics always consist of a curiosity within [0.2, 1], the calm of 0.6
    the engine started with, and an urgency within [0.1, 0.3]. *)
Theorem modulators_stay_in_range (inputs : list string) :
  exists c u,
    modulators_after inputs
    = Some [("curiosity", c); ("calm", 0.6); ("urgency", u)]
    /\ 0.2 <= c <= 1 /\ 0.1 <= u <= 0.3.
Proof.
  unfold modulators_after, initial_modulators.
  apply modulators_from; lra.
Qed.

(** ** Perception *)

Lemma keys_set_In {V : Type} (d : PyDict.t V) (k k' : string) (v : V) :
  In k' (PyDict.keys (PyDict.set d k v)) <-> In k' (PyDict.keys d) \/ k' = k.
Proof.
  rewrite keys_set. destruct (PyDict.contains d k) eqn:E.
  - apply contains_In_keys in E. split; [auto | intros [H | ->]; auto].
  - rewrite in_app_iff. cbn. intuition.
Qed.

Lemma activate_keys (amount : Q) (cs : list string) :
  forall (d : PyDict.t Q) (k : string),
    In k (PyDict.keys (activate amount d cs))
    <-> In k (PyDict.keys d) \/ In k cs.
Proof.
  unfold activate.
  induction cs as [| c cs IH]; intros d k; cbn [fold_left In].
  - tauto.
  - rewrite IH, keys_set_In. intuition.
Qed.

Lemma activate_NoDup (amount : Q) (cs : list string) :
  forall d : PyDict.t Q,
    NoDup (PyDict.keys d) -> NoDup (PyDict.keys (activate amount d cs)).
Proof.
  unfold activate. induction cs as [| c cs IH]; intros d H; cbn [fold_left].
  - exact H.
  - apply IH. now apply set_NoDup.
Qed.

(** A concept hit by a word or a phrase holds at least the smaller of the
    two amounts. *)
Lemma activate_lower (lo amount : Q) (cs : list string) :
  0 <= lo -> lo <= amount ->
  forall d : PyDict.t Q,
    Forall (fun kv : string * Q => lo <= snd kv) d ->
    Forall (fun kv : string * Q => lo <= snd kv) (activate amount d cs).
Proof.
  intros Hlo Ham. unfold activate.
  induction cs as [| c cs IH]; intros d H; cbn [fold_left].
  - exact H.
  - apply IH. apply Forall_forall. intros [k x] Hin.
    rewrite Forall_forall in H.
    apply set_In in Hin as [[_ ->] | Hin]; [| now apply H].
    cbn [snd]. destruct (PyDict.get d c) as [a |] eqn:E; [| lra].
    apply get_In, H in E. cbn [snd] in E. lra.
Qed.

Lemma activations_from_step (matched : list (string * list string))
    (activated : PyDict.t Q) (w : string) (cs : list string) (amount : Q) :
  activations_from matched activated ->
  activations_from (matched ++ [(w, cs)]) (activate amount activated cs).
Proof.
  intros [Hnd Hk]. split; [now apply activate_NoDup |].
  intros k. rewrite activate_keys, Hk. split.
  - intros [(w' & cs' & Hin & Hc) | Hc].
    + exists w', cs'. rewrite in_app_iff. auto.
    + exists w, cs. rewrite in_app_iff. cbn. auto.
  - intros (w' & cs' & Hin & Hc).
    apply in_app_iff in Hin as [Hin | [[= <- <-] | []]]; eauto.
Qed.

Lemma fold_invariant {S X : Type} (inv : S -> Prop) (step : S -> X -> S)
    (xs : list X) :
  (forall s x, inv s -> inv (step s x)) ->
  forall s, inv s -> inv (fold_left step xs s).
Proof.
  intros Hstep. induction xs as [| x xs IH]; intros s Hs; cbn; auto.
Qed.

Section PerceptionProperties.
Variable normalize : string -> string.
Variable occurs_in : string -> string -> bool.
Variable blank_out : string -> string -> string.
Variable split : string -> list string.
Variable len : string -> nat.

Lemma detect_phrase_inv (v : Vocabulary)
    (st : string * list (string * list string) * PyDict.t Q)
    (phrase : string) :
  phrase_inv v st ->
  phrase_inv v (detect_phrase occurs_in blank_out v st phrase).
Proof.
  destruct st as [[remaining matched] activated]. intros (Ha & Hv & Hm).
  unfold detect_phrase.
  destruct (occurs_in phrase remaining); [| exact (conj Ha (conj Hv Hm))].
  destruct (lookup_phrase (lexicon_of v) phrase) as [entry |] eqn:E;
    [| exact (conj Ha (conj Hv Hm))].
  split; [now apply activations_from_step |].
  split; [apply activate_lower; auto; lra |].
  apply Forall_app. split; [exact Hm |].
  constructor; [| constructor]. now exists entry.
Qed.

Lemma perceive_token_inv (v : Vocabulary)
    (phrases_found : list (string * list string)) (r : PerceptionResult)
    (token : string) :
  perception_inv v phrases_found r ->
  perception_inv v phrases_found (perceive_token v r token).
Proof.
  intros (Hp & Ha & Hv & Hw & Ht & Hs & Hy).
  assert (Hy' :
            Forall (fun tc : string * string =>
                      snd tc = resolve v (fst tc) /\ snd tc <> fst tc)
                   (if String.eqb (resolve v token) token
                    then synonym_mappings r
                    else PyDict.set (synonym_mappings r) token
                                    (resolve v token))).
  { destruct (String.eqb (resolve v token) token) eqn:E; [exact Hy |].
    apply String.eqb_neq in E. apply Forall_forall. intros [t c] Hin.
    rewrite Forall_forall in Hy.
    apply set_In in Hin as [[-> ->] | Hin]; [now split | now apply Hy]. }
  assert (Hw' :
            Forall (fun wc : string * list string =>
                      In (fst wc) (tokens r ++ [resolve v token])
                      /\ exists entry,
                           lookup_word (lexicon_of v) (fst wc) = Some entry
                           /\ snd wc = concept_ids entry)
                   (matched_words r)).
  { eapply Forall_impl; [| exact Hw]. intros wc [Hin He].
    split; [| exact He]. apply in_or_app. now left. }
  unfold perceive_token, perception_inv.
  destruct (is_stopword v (resolve v token)) eqn:Es;
    [| destruct (lookup_word (lexicon_of v) (resolve v token))
         as [entry |] eqn:El];
    cbn [matched_phrases matched_words activated_concepts tokens
         removed_stopwords synonym_mappings].
  - repeat (split; [assumption |]). split; [| exact Hy'].
    apply Forall_app. split; [exact Hs |]. now repeat constructor.
  - split; [exact Hp |].
    split; [rewrite app_assoc; now apply activations_from_step |].
    split; [apply activate_lower; auto; lra |].
    split.
    { apply Forall_app. split; [exact Hw' |].
      constructor; [| constructor]. cbn [fst snd]. split.
      - apply in_or_app. right. now left.
      - now exists entry. }
    split; [| split; [exact Hs | exact Hy']].
    apply Forall_app. split; [exact Ht |]. now repeat constructor.
  - split; [exact Hp |]. split; [exact Ha |]. split; [exact Hv |].
    split; [exact Hw' |].
    split; [| split; [exact Hs | exact Hy']].
    apply Forall_app. split; [exact Ht |]. now repeat constructor.
Qed.

(** The result of [process] before the final clamp satisfies the
    invariant of the token loop, and its phrases that of the phrase loop. *)
Lemma process_loops (v : Vocabulary) (raw : string) :
  exists r : PerceptionResult,
    process normalize occurs_in blank_out split len v raw
    = mkPerception (raw_input r) (tokens r) (matched_phrases r)
        (matched_words r)
        (map (fun kv => (fst kv, py_min 1 (snd kv))) (activated_concepts r))
        (synonym_mappings r) (removed_stopwords r)
    /\ raw_input r = raw
    /\ perception_inv v (matched_phrases r) r
    /\ Forall (fun pc : string * list string =>
                 exists entry,
                   lookup_phrase (lexicon_of v) (fst pc) = Some entry
                   /\ snd pc = concept_ids entry)
              (matched_phrases r).
Proof.
  unfold process.
  pose proof (fold_invariant (phrase_inv v)
                (detect_phrase occurs_in blank_out v)
                (get_sorted_phrases len (lexicon_of v))
                (detect_phrase_inv v)
                (normalize raw, [], PyDict.empty)) as H1.
  destruct (fold_left (detect_phrase occurs_in blank_out v)
                      (get_sorted_phrases len (lexicon_of v))
                      (normalize raw, [], PyDict.empty))
    as [[remaining matched] activated].
  destruct H1 as (Ha & Hv & Hm).
  { split; [| split]; try constructor.
    - constructor.
    - intros k. split; [intros [] | intros (w & cs & [] & _)]. }
  pose proof (fold_invariant
                (fun r => raw_input r = raw /\ perception_inv v matched r)
                (perceive_token v) (split remaining)) as H2.
  eexists. split; [reflexivity |].
  destruct (H2) with (s := mkPerception raw [] matched [] activated
                                        PyDict.empty [])
    as (Hraw & Hinv).
  - intros s x [Hr Hi]. split; [| now apply perceive_token_inv].
    rewrite <- Hr. unfold perceive_token.
    destruct (is_stopword v (resolve v x)); [reflexivity |].
    now destruct (lookup_word (lexicon_of v) (resolve v x)).
  - split; [reflexivity |]. unfold perception_inv.
    cbn [matched_phrases matched_words activated_concepts tokens
         removed_stopwords synonym_mappings].
    rewrite app_nil_r.
    split; [reflexivity |]. split; [exact Ha |]. split; [exact Hv |].
    split; [constructor |]. split; [constructor |]. split; constructor.
  - split; [exact Hraw |].
    assert (Hp : matched_phrases
                   (fold_left (perceive_token v) (split remaining)
                      (mkPerception raw [] matched [] activated
                                    PyDict.empty []))
                 = matched) by apply Hinv.
    rewrite Hp. split; [exact Hinv | exact Hm].
Qed.

(** X18.  What [InputProcessor.process] returns, whatever the text.  The
    activated concepts are exactly the concepts of the matched phrases and
    words, one entry each, every activation between 0.7 and 1.0; each
    matched phrase or word carries the concept list of its vocabulary entry,
    and each matched word is among the tokens; no token is a stopword and
    every removed word is one; each recorded synonym mapping sends a token to
    its different canonical form. *)
Theorem process_spec (v : Vocabulary) (raw : string) :
  let p := process normalize occurs_in blank_out split len v raw in
  raw_input p = raw
  /\ activations_from (matched_phrases p ++ matched_words p)
                      (activated_concepts p)
  /\ Forall (fun kv : string * Q => 0.7 <= snd kv <= 1)
            (activated_concepts p)
  /\ Forall (fun pc : string * list string =>
               exists entry,
                 lookup_phrase (lexicon_of v) (fst pc) = Some entry
                 /\ snd pc = concept_ids entry)
            (matched_phrases p)
  /\ Forall (fun wc : string * list string =>
               In (fst wc) (tokens p)
               /\ exists entry,
                    lookup_word (lexicon_of v) (fst wc) = Some entry
                    /\ snd wc = concept_ids entry)
            (matched_words p)
  /\ Forall (fun t => is_stopword v t = false) (tokens p)
  /\ Forall (fun t => is_stopword v t = true) (removed_stopwords p)
  /\ Forall (fun tc : string * string =>
               snd tc = resolve v (fst tc) /\ snd tc <> fst tc)
            (synonym_mappings p).
Proof.
  destruct (process_loops v raw)
    as (r & -> & Hraw & (_ & [Hnd Hk] & Hv & Hw & Ht & Hs & Hy) & Hm).
  cbn [raw_input matched_phrases matched_words activated_concepts tokens
       removed_stopwords synonym_mappings].
  assert (Hkeys :
            PyDict.keys (map (fun kv : string * Q =>
                                (fst kv, py_min 1 (snd kv)))
                             (activated_concepts r))
            = PyDict.keys (activated_concepts r)).
  { unfold PyDict.keys. rewrite map_map. reflexivity. }
  split; [exact Hraw |].
  split; [split; rewrite Hkeys; assumption |].
  split; [| now repeat split].
  apply Forall_map. eapply Forall_impl; [| exact Hv].
  intros [k x] Hx. cbn [fst snd] in *.
  destruct (py_min_spec 1 x) as [[H ->] | [H ->]]; lra.
Qed.

End PerceptionProperties.

(** ** What a turn injects *)

Lemma combine_step_get (combined : PyDict.t Q) (item : string * Q)
    (k : string) :
  PyDict.get
    (PyDict.set combined (fst item)
       (match PyDict.get combined (fst item) with
        | Some a => a
        | None => 0
        end + snd item))
    k
  = if String.eqb (fst item) k
    then Some (match PyDict.get combined k with Some a => a | None => 0 end
               + snd item)
    else PyDict.get combined k.
Proof.
  destruct (String.eqb (fst item) k) eqn:E.
  - apply String.eqb_eq in E. subst k. apply get_set_same.
  - apply String.eqb_neq in E. now apply get_set_other.
Qed.

(** The combined activation of a concept: its perceived activation (0.0
    when it was not perceived) plus its memory boost when it has one. *)
Lemma combine_activations_get (k : string) (memory_boost : PyDict.t Q) :
  NoDup (PyDict.keys memory_boost) ->
  forall activated : PyDict.t Q,
    PyDict.get (combine_activations activated memory_boost) k
    = match PyDict.get memory_boost k with
      | Some boost =>
          Some (match PyDict.get activated k with Some a => a | None => 0 end
                + boost)
      | None => PyDict.get activated k
      end.
Proof.
  unfold combine_activations, PyDict.items.
  induction memory_boost as [| [c b] rest IH]; intros Hnd activated;
    cbn [fold_left PyDict.get]; [reflexivity |].
  inversion Hnd as [| ? ? Hnotin Hrest]; subst.
  rewrite IH by exact Hrest. rewrite combine_step_get. cbn [fst snd].
  destruct (String.eqb c k) eqn:E; [| reflexivity].
  apply String.eqb_eq in E. subst c.
  now rewrite (get_not_in_keys rest k Hnotin).
Qed.

Lemma combine_activations_NoDup (memory_boost : PyDict.t Q) :
  forall activated : PyDict.t Q,
    NoDup (PyDict.keys activated) ->
    NoDup (PyDict.keys (combine_activations activated memory_boost)).
Proof.
  unfold combine_activations, PyDict.items.
  induction memory_boost as [| item rest IH]; intros activated H;
    cbn [fold_left]; [exact H |].
  apply IH. now apply set_NoDup.
Qed.

(** The boosts of [get_memory_boost]: one per concept, each in
    [[0.15, 0.4]]. *)
Lemma memory_boost_values (m : Memory) (current_concepts : list string) :
  NoDup (PyDict.keys (get_memory_boost m current_concepts))
  /\ Forall (fun kv : string * Q => 0.15 <= snd kv <= 0.4)
            (get_memory_boost m current_concepts).
Proof.
  unfold get_memory_boost. split.
  - unfold PyDict.keys. rewrite map_map. cbn [fst].
    apply (fold_add_boost_NoDup _ PyDict.empty). constructor.
  - apply Forall_map, Forall_forall. intros [k x] Hkx. cbn [fst snd].
    apply fold_add_boost_In in Hkx as [Hx _]; [| intros ? ? []].
    destruct (py_min_spec 0.4 x) as [[H ->] | [H ->]]; lra.
Qed.

Section TurnInjection.
Variable normalize : string -> string.
Variable occurs_in : string -> string -> bool.
Variable blank_out : string -> string -> string.
Variable split : string -> list string.
Variable len : string -> nat.

(** X19.  What a turn hands to the dynamics as initial activations
    (perception, then the memory boost for the perceived concepts, then
    their sum): every perceived concept is there with at least its perceived
    activation, a boosted concept that was not perceived starts from 0.0,
    each concept has one entry, and every amount lies between 0.15 and 1.4
    (so above 1.0 only through a memory boost; injection caps it). *)
Theorem combined_activations_spec (v : Vocabulary) (m : Memory)
    (raw : string) :
  let perceived :=
    activated_concepts
      (process normalize occurs_in blank_out split len v raw) in
  let memory_boost := get_memory_boost m (PyDict.keys perceived) in
  let combined := combine_activations perceived memory_boost in
  (forall k,
     PyDict.get combined k
     = match PyDict.get memory_boost k with
       | Some boost =>
           Some (match PyDict.get perceived k with
                 | Some a => a
                 | None => 0
                 end + boost)
       | None => PyDict.get perceived k
       end)
  /\ NoDup (PyDict.keys combined)
  /\ Forall (fun kv : string * Q => 0.15 <= snd kv <= 1.4) combined
  /\ (forall k a,
        PyDict.get perceived k = Some a ->
        exists x, PyDict.get combined k = Some x /\ a <= x).
Proof.
  intros perceived memory_boost combined.
  assert (Hperceived :
            NoDup (PyDict.keys perceived)
            /\ Forall (fun kv : string * Q => 0.7 <= snd kv <= 1) perceived).
  { subst perceived.
    destruct (process_loops normalize occurs_in blank_out split len v raw)
      as (r & -> & _ & (_ & [Hnd _] & Hv & _) & _).
    cbn [activated_concepts]. split.
    - unfold PyDict.keys. rewrite map_map. exact Hnd.
    - apply Forall_map. eapply Forall_impl; [| exact Hv].
      intros [k x] Hx. cbn [fst snd] in *.
      destruct (py_min_spec 1 x) as [[H ->] | [H ->]]; lra. }
  destruct Hperceived as [Hpn Hpv].
  destruct (memory_boost_values m (PyDict.keys perceived)) as [Hbn Hbv].
  fold memory_boost in Hbn, Hbv.
  rewrite Forall_forall in Hpv, Hbv.
  assert (Hget := fun k => combine_activations_get k memory_boost Hbn perceived).
  fold combined in Hget.
  assert (Hnd : NoDup (PyDict.keys combined))
    by now apply combine_activations_NoDup.
  split; [exact Hget |]. split; [exact Hnd |]. split.
  - apply Forall_forall. intros [k x] Hin. cbn [snd].
    apply (In_get _ _ _ Hnd) in Hin. rewrite Hget in Hin.
    destruct (PyDict.get memory_boost k) as [b |] eqn:Eb.
    + apply get_In, Hbv in Eb. cbn [snd] in Eb.
      injection Hin as <-.
      destruct (PyDict.get perceived k) as [a |] eqn:Ea; [| lra].
      apply get_In, Hpv in Ea. cbn [snd] in Ea. lra.
    + apply get_In, Hpv in Hin. cbn [snd] in Hin. lra.
  - intros k a Ha. rewrite Hget, Ha.
    destruct (PyDict.get memory_boost k) as [b |] eqn:Eb.
    + apply get_In, Hbv in Eb. cbn [snd] in Eb.
      eexists. split; [reflexivity | lra].
    + eexists. split; [reflexivity | lra].
Qed.

End TurnInjection.

Lemma add_word_add_phrase_lookup_witness :
  lookup_word
    (add_word (add_word Lexicon_init (mkEntry "w2" "water" ["c_water"] "noun"))
              (mkEntry "w1" "lake" ["c_lake"] "noun"))
    "water"
  = lookup_word
      (add_word Lexicon_init (mkEntry "w2" "water" ["c_water"] "noun"))
      "water".
Proof.
  refine (proj1 (proj2 (proj2
            (add_word_add_phrase_lookup
               (add_word Lexicon_init
                  (mkEntry "w2" "water" ["c_water"] "noun"))
               (mkEntry "w1" "lake" ["c_lake"] "noun"))))
            "water" _).
  discriminate.
Defined.

Lemma combined_activations_spec_witness :
  exists x,
    PyDict.get
      (combine_activations
         (activated_concepts
            (process (fun s => s) (fun _ _ => false) (fun s _ => s)
                     (fun s => [s]) String.length
                     (mkVocabulary
                        (add_word Lexicon_init
                           (mkEntry "w1" "lake" ["c_lake"] "noun"))
                        [] ["the"])
                     "lake"))
         (get_memory_boost
            (store_all (Memory_init 5 50)
               [("lakes", "water", ["c_lake"; "c_water"], "goal_inform")])
            ["c_lake"]))
      "c_lake"
    = Some x
    /\ py_min 1 (0 + 0.7) <= x.
Proof.
  apply (combined_activations_spec
           (fun s => s) (fun _ _ => false) (fun s _ => s) (fun s => [s])
           String.length
           (mkVocabulary
              (add_word Lexicon_init (mkEntry "w1" "lake" ["c_lake"] "noun"))
              [] ["the"])
           (store_all (Memory_init 5 50)
              [("lakes", "water", ["c_lake"; "c_water"], "goal_inform")])
           "lake").
  reflexivity.
Defined.
